(** * smarty: SMARTS-defined atom types and their Monte Carlo sampler

    A shallow embedding of [smarty/smarty.py]: the [AtomTyper] class (rule
    based assignment of atom types, the type-list file reader) and the
    [AtomTypeSampler] class (destroy / refine proposals, the reference
    scorer built on a weighted graph, the Metropolis test).

    The OpenEye toolkit and networkx are outside the repository.  What the
    code asks of them enters as Section variables:
    - [OESmartsLexReplace], the expansion of replacement bindings;
    - [Match], the substructure search [OESubSearch(smarts).Match(mol)]
      with [SetMaxMatches(0)], every embedding given as the list of its
      target atoms;
    - [aromatic_atom] and [aromatic_bond], the aromaticity model whose
      verdicts [OEAssignAromaticFlags] writes into the molecule;
    - [max_weight_matching], networkx's matching, returned as the [mate]
      dictionary.
    Python floats are idealised as real numbers. *)

From Stdlib Require Import Reals Lra Ascii String.
From stdpp Require Import gmap strings list fin_maps pretty.

Local Open Scope string_scope.
Local Open Scope list_scope.
Local Open Scope nat_scope.
Local Open Scope stdpp_scope.

(** ** Molecules as the code reads and writes them *)

(** An atom of an [OEMol].  [data] is the generic string data of the atom,
    keyed by tag name ([OEGetTag] is a bijection between names and tags). *)
Record Atom := mkAtom {
  GetName : string;
  GetAtomicNum : nat;
  IsAromatic : bool;
  GetType : string;
  data : gmap string string
}.

Record Bond := mkBond {
  GetBgnIdx : nat;
  GetEndIdx : nat;
  GetOrder : nat;
  IsAromaticBond : bool
}.

(** A molecule; an atom is identified by its position in [GetAtoms]. *)
Record Mol := mkMol {
  GetTitle : string;
  GetAtoms : list Atom;
  GetBonds : list Bond
}.

(** [atom.GetStringData(tag)]: the empty string when the tag is absent. *)
Definition GetStringData (tag : string) (a : Atom) : string :=
  default "" (data a !! tag).

(** [atom.SetStringData(tag, v)]. *)
Definition SetStringData (tag v : string) (a : Atom) : Atom :=
  mkAtom (GetName a) (GetAtomicNum a) (IsAromatic a) (GetType a)
         (<[tag := v]> (data a)).

Definition SetAromatic (b : bool) (a : Atom) : Atom :=
  mkAtom (GetName a) (GetAtomicNum a) b (GetType a) (data a).

Definition SetAromaticBond (b : bool) (x : Bond) : Bond :=
  mkBond (GetBgnIdx x) (GetEndIdx x) (GetOrder x) b.

Definition with_atoms (m : Mol) (l : list Atom) : Mol :=
  mkMol (GetTitle m) l (GetBonds m).

(** The exceptions the code can raise. *)
Inductive exn :=
| TypingException (molecule : Mol) (atom : nat)
| Exception (msg : string)
| ValueError
| TypeError
| AttributeError
| KeyError
| IndexError
| ZeroDivisionError.

(** What is left of an atom / a molecule when the slot [tag] is ignored. *)
Definition erase_tag_atom (tag : string) (a : Atom) : Atom :=
  mkAtom (GetName a) (GetAtomicNum a) (IsAromatic a) (GetType a)
         (delete tag (data a)).

Definition erase_tag (tag : string) (m : Mol) : Mol :=
  with_atoms m (erase_tag_atom tag <$> GetAtoms m).

(** What is left when, besides, the aromaticity flags are ignored. *)
Definition skeleton_atom (tag : string) (a : Atom) : Atom :=
  SetAromatic false (erase_tag_atom tag a).

Definition skeleton (tag : string) (m : Mol) : Mol :=
  mkMol (GetTitle m) (skeleton_atom tag <$> GetAtoms m)
        (SetAromaticBond false <$> GetBonds m).

(** Index of the first element satisfying [p]. *)
Fixpoint find_index {A} (p : A -> bool) (l : list A) : option nat :=
  match l with
  | [] => None
  | x :: l' => if p x then Some 0 else S <$> find_index p l'
  end.

Definition is_empty_string (s : string) : bool := bool_decide (s = "").

(** ** Exceptions as values *)

Definition res (A : Type) : Type := (exn + A)%type.

#[local] Instance res_ret : MRet res := fun A x => inr x.
#[local] Instance res_bind : MBind res :=
  fun A B f x => match x with inl e => inl e | inr a => f a end.

Definition raise {A} (e : exn) : res A := inl e.

(** [d[k]]: a [KeyError] when the key is absent. *)
Definition getitem `{Countable K} {V} (d : gmap K V) (k : K) : res V :=
  match d !! k with Some v => mret v | None => raise KeyError end.

(** [d[k] += 1]. *)
Definition incr `{Countable K} (d : gmap K nat) (k : K) : res (gmap K nat) :=
  n ← getitem d k; mret (<[k := S n]> d).

(** [l.remove(x)]: the first element equal to [x] goes. *)
Fixpoint list_remove `{EqDecision A} (x : A) (l : list A) : res (list A) :=
  match l with
  | [] => raise ValueError
  | y :: l' => if decide (x = y) then mret l' else l'' ← list_remove x l'; mret (y :: l'')
  end.

(** [l.insert(i, x)] for [0 <= i]: past the end, the element is appended. *)
Definition list_insert_at {A} (i : nat) (x : A) (l : list A) : list A :=
  take i l ++ x :: drop i l.

(** ** Lines and tokens of a type-list file *)

Definition newline : ascii := Eval cbv in ascii_of_nat 10.
Definition percent : ascii := Eval cbv in ascii_of_nat 37.
Definition close_bracket : ascii := Eval cbv in ascii_of_nat 93.
Definition open_bracket : ascii := Eval cbv in ascii_of_nat 91.

(** [string.whitespace]: space, tab, newline, vertical tab, form feed,
    carriage return. *)
Definition is_whitespace (c : ascii) : bool :=
  let n := nat_of_ascii c in
  orb (Nat.eqb n 32) (andb (Nat.leb 9 n) (Nat.leb n 13)).

(** [ifs.readlines()]: the lines of the text, each with its terminator. *)
Fixpoint readlines (s : string) : list string :=
  match s with
  | EmptyString => []
  | String c s' =>
      if Ascii.eqb c newline then String c EmptyString :: readlines s'
      else match readlines s' with
           | [] => [String c EmptyString]
           | l :: ls => String c l :: ls
           end
  end.

(** [line[0:line.find('%')]], the line itself when it has no [%]. *)
Fixpoint strip_comment (line : string) : string :=
  match line with
  | EmptyString => EmptyString
  | String c s' =>
      if Ascii.eqb c percent then EmptyString else String c (strip_comment s')
  end.

(** [string.split(line)]: the maximal runs of non-whitespace. *)
Fixpoint split_go (cur : string) (s : string) : list string :=
  match s with
  | EmptyString => if decide (cur = "") then [] else [cur]
  | String c s' =>
      if is_whitespace c
      then (if decide (cur = "") then split_go "" s' else cur :: split_go "" s')
      else split_go (cur +:+ String c EmptyString) s'
  end.

Definition split (line : string) : list string := split_go "" line.

(** The body of the loop of [read_typelist] over one line. *)
Definition parse_line (line : string) : list (string * string) :=
  match split (strip_comment line) with
  | [smarts; typename] => [(smarts, typename)]
  | _ => []
  end.

(** [AtomTyper.read_typelist(filename)] over a file system [fs] that maps
    the paths that exist to their contents; [None] is Python's [None]. *)
Definition read_typelist (fs : gmap string string) (filename : option string)
    : res (option (list (string * string))) :=
  match filename with
  | None => mret None
  | Some f =>
      match fs !! f with
      | None => raise (Exception ("File '" +:+ f +:+ "' not found."))
      | Some text => mret (Some (readlines text ≫= parse_line))
      end
  end.

(** ** The regular expression of the refine move *)

(** The part of [s] before its first newline ([.] matches no newline). *)
Fixpoint take_line (s : string) : string :=
  match s with
  | EmptyString => EmptyString
  | String c s' =>
      if Ascii.eqb c newline then EmptyString else String c (take_line s')
  end.

(** The part of [s] before its last [']'], if it has one (greedy [.+]). *)
Fixpoint before_last_bracket (s : string) : option string :=
  match s with
  | EmptyString => None
  | String c s' =>
      match before_last_bracket s' with
      | Some p => Some (String c p)
      | None => if Ascii.eqb c close_bracket then Some EmptyString else None
      end
  end.

(** [re.match('\[(.+)\]', s)] followed by [result.groups(1)[0]]: group 1
    of the match, [None] when there is no match. *)
Definition re_match_bracket (s : string) : option string :=
  match s with
  | EmptyString => None
  | String c rest =>
      if Ascii.eqb c open_bracket then
        match before_last_bracket (take_line rest) with
        | Some g => if decide (g = "") then None else Some g
        | None => None
        end
      else None
  end.

(** ** The weighted graph of the scorer (networkx [Graph]) *)

(** Adjacency: [graph[u][v]['weight']]. *)
Definition add_node (g : gmap string (gmap string nat)) (n : string)
    : gmap string (gmap string nat) :=
  match g !! n with
  | Some _ => g
  | None => <[n := ∅]> g
  end.

(** [graph.add_edge(u, v, weight=w)]: both directions are written, an
    edge that exists has its weight replaced. *)
Definition add_edge (g : gmap string (gmap string nat)) (u v : string) (w : nat)
    : gmap string (gmap string nat) :=
  let g := add_node (add_node g u) v in
  let g := <[u := <[v := w]> (default ∅ (g !! u))]> g in
  <[v := <[u := w]> (default ∅ (g !! v))]> g.

(** [graph[u][v]['weight']]. *)
Definition edge_weight (g : gmap string (gmap string nat)) (u v : string) : res nat :=
  adj ← getitem g u; getitem adj v.

(** ** Stand-ins for the external toolkits, used on concrete inputs *)

(** No replacement binding occurs in the pattern: it is left as it is. *)
Definition no_replace (smarts : string) (bindings : list (string * string)) : string :=
  smarts.

Definition ampersand : ascii := Eval cbv in ascii_of_nat 38.

(** [inner.split('&')]. *)
Fixpoint split_amp (cur : string) (s : string) : list string :=
  match s with
  | EmptyString => [cur]
  | String c s' =>
      if Ascii.eqb c ampersand then cur :: split_amp "" s'
      else split_amp (cur +:+ String c EmptyString) s'
  end.

(** Atom primitives of SMARTS: [*] any atom, [#n] atomic number [n],
    [a] aromatic, [A] aliphatic. *)
Definition primitive_matches (p : string) (a : Atom) : bool :=
  orb (bool_decide (p = "*"))
 (orb (bool_decide (p = "#" +:+ pretty (GetAtomicNum a)))
 (orb (andb (bool_decide (p = "a")) (IsAromatic a))
      (andb (bool_decide (p = "A")) (negb (IsAromatic a))))).

(** Single-atom patterns [[p1&p2&...]]: one embedding per atom that
    satisfies every primitive. *)
Definition atom_Match (smarts : string) (m : Mol) : list (list nat) :=
  match re_match_bracket smarts with
  | None => []
  | Some inner =>
      omap (fun '(i, a) =>
              if forallb (fun p => primitive_matches p a) (split_amp "" inner)
              then Some [i] else None)
           (imap (fun i a => (i, a)) (GetAtoms m))
  end.

(** The aromaticity model on molecules without rings: nothing is aromatic. *)
Definition acyclic_aromatic (m : Mol) (i : nat) : bool := false.

(** The edges of a graph, each in both directions, self-loops left out
    (a matching has none). *)
Definition graph_edges (g : gmap string (gmap string nat)) : list (string * string * nat) :=
  '(u, adj) ← map_to_list g;
  '(v, w) ← map_to_list adj;
  if decide (u = v) then []
  else if decide (is_Some (g !! v ≫= fun adj' => adj' !! u)) then [(u, v, w)]
  else [].

(** Exhaustive search for a matching of maximum weight among [edges] that
    avoids the vertices of [used]. *)
Fixpoint best_matching (edges : list (string * string * nat)) (used : gset string)
    : list (string * string) * nat :=
  match edges with
  | [] => ([], 0)
  | (u, v, w) :: es =>
      let skip := best_matching es used in
      if decide ((u ∉ used) ∧ (v ∉ used)) then
        let take := best_matching es ({[u; v]} ∪ used) in
        if Nat.ltb (snd skip) (w + snd take) then ((u, v) :: fst take, w + snd take)
        else skip
      else skip
  end.

(** A maximum weight matching as its [mate] dictionary. *)
Definition exhaustive_matching (g : gmap string (gmap string nat)) : gmap string string :=
  foldr (fun '(u, v) mate => <[u := v]> (<[v := u]> mate)) ∅
        (fst (best_matching (graph_edges g) ∅)).

(** ** The sampler object and the random draws of one step *)

Record AtomTypeSampler := mkSampler {
  verbose : bool;
  typetag : string;
  atomtypes : list (string * string);
  decorators : option (list (string * string));
  replacements : option (list (string * string));
  molecules : list Mol;
  total_atoms : nat;
  reference_typed_molecules : option (list Mol);
  reference_atomtypes : list string;
  temperature : R;
  atom_type_matches : option (list (string * option string * option nat));
  total_atom_type_matches : option nat
}.

(** The draws of one call of [sample_atomtypes]: [random.random()], the
    two [random.randint], [numpy.random.uniform()]. *)
Record Draws := mkDraws {
  move : R;
  atomtype_draw : nat;
  decorator_draw : nat;
  uniform : R
}.

(** [random.randint(0, n-1)]: a [ValueError] on the empty range. *)
Definition randint0 (n draw : nat) : res nat :=
  if decide (n = 0) then raise ValueError else mret (draw mod n).

(** The calls of the typing engine, the statistics and the scorer. *)
Inductive call :=
| Call_type_molecules (typelist : list (string * string))
| Call_compute_type_statistics (typelist : list (string * string))
| Call_best_match_reference_types (typelist : list (string * string)).

(** A computation that may raise and that logs its calls. *)
Definition traced (A : Type) : Type := (res A * list call)%type.

#[local] Instance traced_ret : MRet traced := fun A x => (inr x, []).
#[local] Instance traced_bind : MBind traced :=
  fun A B f x =>
    match fst x with
    | inl e => (inl e, snd x)
    | inr a => (fst (f a), snd x ++ snd (f a))
    end.

Definition tell (c : call) : traced unit := (inr (), [c]).
Definition lift {A} (r : res A) : traced A := (r, []).

(** [foldl] with exceptions. *)
Fixpoint foldlM {A B} (f : B -> A -> res B) (b : B) (l : list A) : res B :=
  match l with
  | [] => mret b
  | x :: l' => b' ← f b x; foldlM f b' l'
  end.

(** ** Concrete inputs *)

(** Methanol without its other hydrogens; the reference types are those
    of the reference force field. *)
Definition methanol : Mol :=
  mkMol "methanol"
        [mkAtom "C1" 6 false "CT" ∅; mkAtom "H1" 1 false "HC" ∅;
         mkAtom "O1" 8 false "OH" ∅]
        [mkBond 0 1 1 false; mkBond 0 2 1 false].

(** A lone carbon atom that carries an aromatic flag. *)
Definition flagged_carbon : Mol :=
  mkMol "flagged" [mkAtom "C1" 6 true "CA" ∅] [].

Definition labelled (type : string) (a : Atom) : Atom :=
  SetStringData "atomtype" type a.

(** Methanol typed by the base types, and by the base types refined by
    the first decorator. *)
Definition generic_methanol : Mol :=
  mkMol "methanol"
        [labelled "generic" (mkAtom "C1" 6 false "CT" ∅);
         labelled "generic" (mkAtom "H1" 1 false "HC" ∅);
         labelled "generic" (mkAtom "O1" 8 false "OH" ∅)]
        [mkBond 0 1 1 false; mkBond 0 2 1 false].

Definition refined_methanol : Mol :=
  mkMol "methanol"
        [labelled "generic heavy" (mkAtom "C1" 6 false "CT" ∅);
         labelled "generic" (mkAtom "H1" 1 false "HC" ∅);
         labelled "generic" (mkAtom "O1" 8 false "OH" ∅)]
        [mkBond 0 1 1 false; mkBond 0 2 1 false].

(** Methanol typed with the reference type names themselves. *)
Definition element_methanol : Mol :=
  mkMol "methanol"
        [labelled "CT" (mkAtom "C1" 6 false "CT" ∅);
         labelled "HC" (mkAtom "H1" 1 false "HC" ∅);
         labelled "OH" (mkAtom "O1" 8 false "OH" ∅)]
        [mkBond 0 1 1 false; mkBond 0 2 1 false].

(** The files: base types, decorators (two of them share a name), and a
    list of element types with a one-token and a three-token line. *)
Definition the_files : gmap string string :=
  {[ "basetypes.smarts" := "% base atom types
[*] generic
";
     "decorators.smarts" := "#6 heavy   % carbon
#7 nitrogen
#8 heavy
";
     "elements.smarts" := "[#6] CT
[#1] HC
[#8] OH
[#7]
[#9] fluorine halogen
" ]}.

Definition the_decorators : list (string * string) :=
  [("#6", "heavy"); ("#7", "nitrogen"); ("#8", "heavy")].

Definition refined_atomtypes : list (string * string) :=
  [("[*]", "generic"); ("[*&#6]", "generic heavy")].

(** The sampler constructed from the base types and the decorators on
    methanol with methanol as reference, at temperature [temp]. *)
Definition sampler_at (temp : R) : AtomTypeSampler :=
  mkSampler false "atomtype" [("[*]", "generic")] (Some the_decorators) None
            [generic_methanol] 3 (Some [methanol]) ["OH"; "CT"; "HC"] temp
            (Some [("generic", Some "HC", Some 1)]) (Some 1).

(** The same sampler constructed without reference molecules. *)
Definition sampler_without_reference (temp : R) : AtomTypeSampler :=
  mkSampler false "atomtype" [("[*]", "generic")] (Some the_decorators) None
            [generic_methanol] 3 None [] temp None None.

(** [sampler_at temp] after it accepted the refinement of [generic] by
    the first decorator. *)
Definition refined_sampler (temp : R) : AtomTypeSampler :=
  mkSampler false "atomtype" refined_atomtypes (Some the_decorators) None
            [refined_methanol] 3 (Some [methanol]) ["OH"; "CT"; "HC"] temp
            (Some [("generic", Some "HC", Some 1);
                   ("generic heavy", Some "CT", Some 1)])
            (Some 2).

(** The sampler constructed from the element types, whose type names are
    the reference type names. *)
Definition element_sampler (temp : R) : AtomTypeSampler :=
  mkSampler false "atomtype" [("[#6]", "CT"); ("[#1]", "HC"); ("[#8]", "OH")]
            (Some the_decorators) None
            [element_methanol] 3 (Some [methanol]) ["OH"; "CT"; "HC"] temp
            (Some [("CT", None, None); ("HC", None, None); ("OH", None, None)])
            (Some 0).

(** A refine move on the first rule with decorator number [k]; [u] is the
    uniform draw of the acceptance test. *)
Definition refine_draws (k : nat) (u : R) : Draws := mkDraws 1 0 k u.

(** The sampler constructed on no molecule at all, with methanol as
    reference. *)
Definition empty_sampler (temp : R) : AtomTypeSampler :=
  mkSampler false "atomtype" [("[*]", "generic")] (Some the_decorators) None
            [] 0 (Some [methanol]) ["OH"; "CT"; "HC"] temp
            (Some [("generic", None, None)]) (Some 0).

(** A sampler whose only rule has a pattern without brackets. *)
Definition unbracketed_sampler : AtomTypeSampler :=
  mkSampler false "atomtype" [("C", "carbon")] (Some the_decorators) None
            [] 0 None [] 0 None None.

(** A destroy move on the first rule. *)
Definition destroy_draws : Draws := mkDraws 0 0 0 0.


Section Smarty.

Variable OESmartsLexReplace : string -> list (string * string) -> string.
Variable Match : string -> Mol -> list (list nat).
Variable aromatic_atom : Mol -> nat -> bool.
Variable aromatic_bond : Mol -> nat -> bool.
Variable max_weight_matching : gmap string (gmap string nat) -> gmap string string.

(** ** class AtomTyper *)

(** [OEAssignAromaticFlags(mol)]: every atom and bond flag is rewritten
    with the verdict of the aromaticity model. *)
Definition OEAssignAromaticFlags (m : Mol) : Mol :=
  mkMol (GetTitle m)
        (imap (fun i a => SetAromatic (aromatic_atom m i) a) (GetAtoms m))
        (imap (fun i b => SetAromaticBond (aromatic_bond m i) b) (GetBonds m)).

(** The typer object: the tag and the table of [pat, typename, smarts]
    rows.  A search object is determined by the SMARTS it was initialised
    with, so [pat] is that string. *)
Record AtomTyper := mkTyper {
  pattyTag : string;
  smartsList : list (string * string * string)
}.

(** [AtomTyper.__init__(typelist, tagname, replacements)]. *)
Definition bindings_of (replacements : option (list (string * string)))
    : list (string * string) :=
  match replacements with
  | None => []
  | Some rs => (fun '(smarts, shortname) => (shortname, smarts)) <$> rs
  end.

Definition AtomTyper_init (typelist : list (string * string)) (tagname : string)
    (replacements : option (list (string * string))) : AtomTyper :=
  let bindings := bindings_of replacements in
  mkTyper tagname
     ((fun '(smarts, typename) =>
         let smarts := OESmartsLexReplace smarts bindings in
         (smarts, typename, smarts)) <$> typelist).

(** [matchpair.target.SetStringData(tag, type)]. *)
Definition set_target (tag type : string) (m : Mol) (target : nat) : Mol :=
  with_atoms m (alter (SetStringData tag type) target (GetAtoms m)).

(** The loop over the atoms of one embedding. *)
Definition apply_match (tag type : string) (m : Mol) (matchbase : list nat) : Mol :=
  foldl (set_target tag type) m matchbase.

(** One row of the table: every embedding of [pat] into the molecule as
    the row finds it, every atom of it. *)
Definition apply_rule (tag : string) (m : Mol) (row : string * string * string) : Mol :=
  let '(pat, type, _) := row in
  foldl (apply_match tag type) m (Match pat m).

(** "Assign null types." *)
Definition assign_null (tag : string) (m : Mol) : Mol :=
  with_atoms m (SetStringData tag "" <$> GetAtoms m).

(** The molecule after the first two phases of [assignTypes] (null types,
    aromaticity flags), and after the loop over the rules. *)
Definition perceived (self : AtomTyper) (m : Mol) : Mol :=
  OEAssignAromaticFlags (assign_null (pattyTag self) m).

Definition typed (self : AtomTyper) (m : Mol) : Mol :=
  foldl (apply_rule (pattyTag self)) (perceived self m) (smartsList self).

(** "Check if any atoms remain unassigned." *)
Definition unassigned (tag : string) (m : Mol) : option nat :=
  find_index (fun a => is_empty_string (GetStringData tag a)) (GetAtoms m).

(** [assignTypes(mol)]: the molecule as the call leaves it, and the
    exception raised, if any. *)
Definition assignTypes (self : AtomTyper) (mol : Mol) : Mol * option exn :=
  let m := typed self mol in
  match unassigned (pattyTag self) m with
  | Some atom => (m, Some (TypingException m atom))
  | None => (m, None)
  end.

(** [getTypeList(mol)]. *)
Definition getTypeList (self : AtomTyper) (mol : Mol) : list string :=
  GetStringData (pattyTag self) <$> GetAtoms mol.

(** ** class AtomTypeSampler *)

(** The loop of [type_molecules]: it stops at the first molecule whose
    typing raises; the molecules after it are left as they were. *)
Fixpoint type_loop (atomtyper : AtomTyper) (ms : list Mol) : list Mol * option exn :=
  match ms with
  | [] => ([], None)
  | molecule :: ms' =>
      match assignTypes atomtyper molecule with
      | (m, Some e) => (m :: ms', Some e)
      | (m, None) =>
          let '(ms'', e) := type_loop atomtyper ms' in (m :: ms'', e)
      end
  end.

(** [type_molecules(typelist, molecules)]. *)
Definition type_molecules (self : AtomTypeSampler)
    (typelist : list (string * string)) (ms : list Mol) : list Mol * option exn :=
  type_loop (AtomTyper_init typelist (typetag self) (replacements self)) ms.

(** The loop of [compute_type_statistics] over the atoms of a molecule:
    the set of the types met and the updated atom counts. *)
Definition count_atoms (tag : string) (atom_typecounts : gmap string nat)
    (atoms : list Atom) : res (gset string * gmap string nat) :=
  foldlM (fun '(types, counts) atom =>
            let atomtype := GetStringData tag atom in
            counts' ← incr counts atomtype;
            mret ({[atomtype]} ∪ types, counts'))
         ((∅ : gset string), atom_typecounts) atoms.

(** The body of the loop over the molecules. *)
Definition count_molecule (tag : string) (acc : gmap string nat * gmap string nat)
    (molecule : Mol) : res (gmap string nat * gmap string nat) :=
  '(types_in_this_molecule, atom_typecounts) ←
    count_atoms tag (fst acc) (GetAtoms molecule);
  molecule_typecounts ← foldlM incr (snd acc) (elements types_in_this_molecule);
  mret (atom_typecounts, molecule_typecounts).

(** [compute_type_statistics(typelist, molecules)]. *)
Definition compute_type_statistics (self : AtomTypeSampler)
    (typelist : list (string * string)) (ms : list Mol)
    : res (gmap string nat * gmap string nat) :=
  let zero := foldl (fun d '(smarts, typename) => <[typename := 0]> d)
                    (∅ : gmap string nat) typelist in
  foldlM (count_molecule (typetag self)) (zero, zero) ms.

(** The graph of [best_match_reference_types] and the table it is built
    from: [atoms_in_common], then the nodes and the weighted edges. *)
Definition atoms_in_common (self : AtomTypeSampler)
    (current_atomtypes reference_types : list string)
    (ms refs : list Mol) : res (gmap (string * string) nat) :=
  let zero :=
    foldl (fun d current_atomtype =>
             foldl (fun d reference_atomtype =>
                      <[(current_atomtype, reference_atomtype) := 0]> d)
                   d reference_types)
          (∅ : gmap (string * string) nat) current_atomtypes in
  foldlM (fun d '(current_typed_molecule, reference_typed_molecule) =>
            foldlM (fun d '(current_typed_atom, reference_typed_atom) =>
                      incr d (GetStringData (typetag self) current_typed_atom,
                              GetType reference_typed_atom))
                   d (zip (GetAtoms current_typed_molecule)
                          (GetAtoms reference_typed_molecule)))
         zero (zip ms refs).

Definition match_graph (current_atomtypes reference_types : list string)
    (common : gmap (string * string) nat) : res (gmap string (gmap string nat)) :=
  let nodes := foldl add_node (foldl add_node ∅ current_atomtypes) reference_types in
  foldlM (fun g current_atomtype =>
            foldlM (fun g reference_atomtype =>
                      weight ← getitem common (current_atomtype, reference_atomtype);
                      mret (add_edge g current_atomtype reference_atomtype weight))
                   g reference_types)
         nodes current_atomtypes.

(** "Compute match dictionary and total number of matches." *)
Definition match_table (graph : gmap string (gmap string nat))
    (mate : gmap string string) (current_atomtypes : list string)
    : res (list (string * option string * option nat) * nat) :=
  foldlM (fun '(atom_type_matches, total) current_atomtype =>
            match mate !! current_atomtype with
            | Some reference_atomtype =>
                counts ← edge_weight graph current_atomtype reference_atomtype;
                mret (atom_type_matches
                        ++ [(current_atomtype, Some reference_atomtype, Some counts)],
                      total + counts)
            | None =>
                mret (atom_type_matches ++ [(current_atomtype, None, None)], total)
            end)
         ([], 0) current_atomtypes.

(** [best_match_reference_types(atomtypes, molecules)]; the inner [None]
    is Python's [None]. *)
Definition best_match_reference_types (self : AtomTypeSampler)
    (typelist : list (string * string)) (ms : list Mol)
    : res (option (list (string * option string * option nat) * nat)) :=
  match reference_typed_molecules self with
  | None => mret None
  | Some refs =>
      let current_atomtypes := snd <$> typelist in
      let reference_types := reference_atomtypes self in
      common ← atoms_in_common self current_atomtypes reference_types ms refs;
      graph ← match_graph current_atomtypes reference_types common;
      let mate := max_weight_matching graph in
      r ← match_table graph mate current_atomtypes;
      mret (Some r)
  end.

(** [l[i]]. *)
Definition getindex {A} (l : list A) (i : nat) : res A :=
  match l !! i with Some x => mret x | None => raise IndexError end.

(** The destroy move up to the validity check: [None] is the early
    [return False], [Some] the proposal that goes on to the scorer. *)
Definition propose_destroy (self : AtomTypeSampler) (d : Draws)
    : traced (option (list (string * string) * list Mol)) :=
  let proposed_atomtypes := atomtypes self in
  let proposed_molecules := molecules self in
  let natomtypes := length proposed_atomtypes in
  atomtype_index ← lift (randint0 natomtypes (atomtype_draw d));
  '(atomtype, typename) ← lift (getindex proposed_atomtypes atomtype_index);
  proposed_atomtypes ← lift (list_remove (atomtype, typename) proposed_atomtypes);
  _ ← tell (Call_type_molecules proposed_atomtypes);
  match type_molecules self proposed_atomtypes proposed_molecules with
  | (proposed_molecules, None) => mret (Some (proposed_atomtypes, proposed_molecules))
  | (_, Some (TypingException _ _)) => mret None
  | (_, Some e) => lift (raise e)
  end.

(** The refine move, first part: the parent, the decorator and the new
    atom type made of them.  The value is [(atomtype_index,
    atomtype_typename, proposed_atomtype, proposed_typename)]. *)
Definition refine_candidate (self : AtomTypeSampler)
    (decorator_list : list (string * string)) (d : Draws)
    : res (nat * string * string * string) :=
  let natomtypes := length (atomtypes self) in
  let ndecorators := length decorator_list in
  atomtype_index ← randint0 natomtypes (atomtype_draw d);
  decorator_index ← randint0 ndecorators (decorator_draw d);
  '(atomtype, atomtype_typename) ← getindex (atomtypes self) atomtype_index;
  '(decorator, decorator_typename) ← getindex decorator_list decorator_index;
  inner ← match re_match_bracket atomtype with
          | Some g => mret g
          | None => raise AttributeError
          end;
  let proposed_atomtype := "[" +:+ inner +:+ "&" +:+ decorator +:+ "]" in
  let proposed_typename := atomtype_typename +:+ " " +:+ decorator_typename in
  mret (atomtype_index, atomtype_typename, proposed_atomtype, proposed_typename).

(** The refine move, last part: insertion after the parent, typing, and
    the two checks on the statistics. *)
Definition validate_refine (self : AtomTypeSampler) (atomtype_index : nat)
    (atomtype_typename proposed_atomtype proposed_typename : string)
    : traced (option (list (string * string) * list Mol)) :=
  let proposed_atomtypes :=
    list_insert_at (atomtype_index + 1) (proposed_atomtype, proposed_typename)
                   (atomtypes self) in
  _ ← tell (Call_type_molecules proposed_atomtypes);
  match type_molecules self proposed_atomtypes (molecules self) with
  | (proposed_molecules, None) =>
      _ ← tell (Call_compute_type_statistics proposed_atomtypes);
      '(proposed_atom_typecounts, _) ←
        lift (compute_type_statistics self proposed_atomtypes proposed_molecules);
      n_new ← lift (getitem proposed_atom_typecounts proposed_typename);
      n_parent ← lift (getitem proposed_atom_typecounts atomtype_typename);
      if decide (n_new = 0 ∨ n_parent = 0) then mret None
      else mret (Some (proposed_atomtypes, proposed_molecules))
  | (_, Some (TypingException _ _)) => mret None
  | (_, Some e) => lift (raise e)
  end.

(** The refine move up to the validity check; between the two parts, the
    test "proposed atomtype is already in set". *)
Definition propose_refine (self : AtomTypeSampler)
    (decorator_list : list (string * string)) (d : Draws)
    : traced (option (list (string * string) * list Mol)) :=
  '(atomtype_index, atomtype_typename, proposed_atomtype, proposed_typename) ←
    lift (refine_candidate self decorator_list d);
  let existing_atomtypes : gset string := list_to_set (fst <$> atomtypes self) in
  if decide (proposed_atomtype ∈ existing_atomtypes) then mret None
  else validate_refine self atomtype_index atomtype_typename
                       proposed_atomtype proposed_typename.

#[local] Instance Rlt_decision (x y : R) : Decision (x < y)%R := Rlt_dec x y.
#[local] Instance Req_decision (x y : R) : Decision (x = y) := Req_dec_T x y.

(** The temperature of the acceptance test. *)
Definition effective_temperature (self : AtomTypeSampler) : R :=
  if decide (temperature self = 0%R) then 1%R
  else (INR (total_atoms self) * temperature self)%R.

(** The quotient [log_P_accept] and the acceptance test on it; [u] is the
    value of [numpy.random.uniform()]. *)
Definition metropolis (proposed current : nat) (effective : R) (u : R) : res bool :=
  if decide (effective = 0%R) then raise ZeroDivisionError
  else
    let log_P_accept := (IZR (Z.of_nat proposed - Z.of_nat current) / effective)%R in
    mret (orb (bool_decide (0 < log_P_accept)%R)
              (bool_decide (u < exp log_P_accept)%R)).

(** "Accept." *)
Definition accept (self : AtomTypeSampler) (proposed_atomtypes : list (string * string))
    (proposed_molecules : list Mol)
    (proposed_matches : list (string * option string * option nat))
    (proposed_total : nat) : AtomTypeSampler :=
  mkSampler (verbose self) (typetag self) proposed_atomtypes (decorators self)
            (replacements self) proposed_molecules (total_atoms self)
            (reference_typed_molecules self) (reference_atomtypes self)
            (temperature self) (Some proposed_matches) (Some proposed_total).

(** The second half of [sample_atomtypes]: scorer and acceptance test. *)
Definition decide_proposal (self : AtomTypeSampler) (d : Draws)
    (proposed_atomtypes : list (string * string)) (proposed_molecules : list Mol)
    : traced (bool * AtomTypeSampler) :=
  let effective := effective_temperature self in
  _ ← tell (Call_best_match_reference_types proposed_atomtypes);
  r ← lift (best_match_reference_types self proposed_atomtypes proposed_molecules);
  match r with
  | None => lift (raise TypeError)
  | Some (proposed_matches, proposed_total) =>
      current ← lift (match total_atom_type_matches self with
                      | Some n => mret n
                      | None => raise AttributeError
                      end);
      accepted ← lift (metropolis proposed_total current effective (uniform d));
      if accepted : bool
      then mret (true, accept self proposed_atomtypes proposed_molecules
                              proposed_matches proposed_total)
      else mret (false, self)
  end.

(** The first half of [sample_atomtypes]: the move is drawn and the
    proposal validated; [None] stands for [return False]. *)
Definition propose (self : AtomTypeSampler) (d : Draws)
    : traced (option (list (string * string) * list Mol)) :=
  decorator_list ← lift (match decorators self with
                         | Some ds => mret ds
                         | None => raise TypeError
                         end);
  if decide (move d < 1 / 2)%R then propose_destroy self d
  else propose_refine self decorator_list d.

(** [sample_atomtypes()]: the value returned with the sampler after the
    call, or the exception raised (the sampler is then as it was), and the
    calls made on the way. *)
Definition sample_atomtypes (self : AtomTypeSampler) (d : Draws)
    : traced (bool * AtomTypeSampler) :=
  proposal ← propose self d;
  match proposal with
  | None => mret (false, self)
  | Some (proposed_atomtypes, proposed_molecules) =>
      decide_proposal self d proposed_atomtypes proposed_molecules
  end.

(** [AtomTypeSampler.__init__]; deep copies are the values themselves. *)
Definition AtomTypeSampler_init (fs : gmap string string) (ms : list Mol)
    (basetypes_filename decorators_filename replacements_filename : option string)
    (reference : option (list Mol)) (temp : R) (verb : bool)
    : res AtomTypeSampler :=
  base ← read_typelist fs basetypes_filename;
  decs ← read_typelist fs decorators_filename;
  repl ← read_typelist fs replacements_filename;
  typelist ← match base with Some tl => mret tl | None => raise TypeError end;
  let self0 := mkSampler verb "atomtype" typelist decs repl ms 0 None [] 0%R None None in
  typed_ms ← match type_molecules self0 typelist ms with
              | (typed_ms, None) => mret typed_ms
              | (_, Some e) => raise e
              end;
  _ ← compute_type_statistics self0 typelist typed_ms;
  let total := sum_list (length ∘ GetAtoms <$> typed_ms) in
  match reference with
  | None =>
      mret (mkSampler verb "atomtype" typelist decs repl typed_ms total
                      None [] temp None None)
  | Some refs =>
      let reference_types : gset string :=
        list_to_set (GetType <$> (refs ≫= GetAtoms)) in
      let self1 := mkSampler verb "atomtype" typelist decs repl typed_ms total
                             (Some refs) (elements reference_types) temp None None in
      r ← best_match_reference_types self1 typelist typed_ms;
      match r with
      | Some (matches, total_matches) =>
          mret (mkSampler verb "atomtype" typelist decs repl typed_ms total
                          (Some refs) (elements reference_types) temp
                          (Some matches) (Some total_matches))
      | None => raise TypeError
      end
  end.

(** [show_type_statistics(typelist, atom_typecounts, molecule_typecounts,
    atomtype_matches)] prints a table; the value here is what it prints
    when it returns: one row per rule (index, atoms, molecules, type name,
    SMARTS, and the reference type with its count when there is one), and
    the two numbers of the [TOTAL] line. *)
Definition stat_row : Type :=
  (nat * nat * nat * string * string * option (string * nat))%type.

Definition reference_type_info
    (atomtype_matches : list (string * option string * option nat))
    : gmap string (option string * option nat) :=
  foldl (fun info '(typename, reference_atomtype, count) =>
           <[typename := (reference_atomtype, count)]> info)
        ∅ atomtype_matches.

(** The body of the loop "Print counts"; [%16d] needs a number. *)
Definition show_row (atom_typecounts molecule_typecounts : gmap string nat)
    (info : option (gmap string (option string * option nat)))
    (acc : list stat_row * nat * nat) (rule : string * string)
    : res (list stat_row * nat * nat) :=
  let '(rows, index, natoms) := acc in
  let '(smarts, typename) := rule in
  reference ← match info with
              | Some info => r ← getitem info typename; mret (Some r)
              | None => mret None
              end;
  atoms ← getitem atom_typecounts typename;
  molecules ← getitem molecule_typecounts typename;
  shown ← match reference with
           | Some (Some reference_atomtype, Some reference_count) =>
               mret (Some (reference_atomtype, reference_count))
           | Some (Some _, None) => raise TypeError
           | Some (None, _) => mret None
           | None => mret None
           end;
  mret (rows ++ [(index, atoms, molecules, typename, smarts, shown)],
        index + 1, natoms + atoms).

Definition show_type_statistics (self : AtomTypeSampler)
    (typelist : list (string * string))
    (atom_typecounts molecule_typecounts : gmap string nat)
    (atomtype_matches : option (list (string * option string * option nat)))
    : res (list stat_row * (nat * nat)) :=
  let info := reference_type_info <$> atomtype_matches in
  '(rows, _, natoms) ←
    foldlM (show_row atom_typecounts molecule_typecounts info) ([], 1, 0) typelist;
  let nmolecules := length (molecules self) in
  match atomtype_matches with
  | Some _ =>
      _ ← match total_atom_type_matches self with
          | Some total => mret total
          | None => raise AttributeError
          end;
      if decide (total_atoms self = 0) then raise ZeroDivisionError
      else mret (rows, (natoms, nmolecules))
  | None => mret (rows, (natoms, nmolecules))
  end.

(** What [run] does after a step when [verbose] is set: the statistics of
    the current state are computed and shown with the stored matches. *)
Definition show_state (self : AtomTypeSampler) : res (list stat_row * (nat * nat)) :=
  '(atom_typecounts, molecule_typecounts) ←
    compute_type_statistics self (atomtypes self) (molecules self);
  atomtype_matches ← match atom_type_matches self with
                      | Some matches => mret matches
                      | None => raise AttributeError
                      end;
  show_type_statistics self (atomtypes self) atom_typecounts molecule_typecounts
                       (Some atomtype_matches).

(** [run(niterations)]: one bundle of draws per iteration; the sampler at
    the end, or at the point where an exception stopped the run, and that
    exception. *)
Fixpoint run (self : AtomTypeSampler) (draws : list Draws)
    : AtomTypeSampler * option exn :=
  match draws with
  | [] => (self, None)
  | d :: draws' =>
      match fst (sample_atomtypes self d) with
      | inl e => (self, Some e)
      | inr (accepted, self') =>
          if verbose self' then
            match show_state self' with
            | inl e => (self', Some e)
            | inr _ => run self' draws'
            end
          else run self' draws'
      end
  end.


(** ** Notions the statements use *)

(** The label of atom [j] of [m], if [m] has such an atom. *)
Definition label (tag : string) (m : Mol) (j : nat) : option string :=
  GetStringData tag <$> GetAtoms m !! j.

(** Some embedding of the list covers atom [j]. *)
Definition covers_in (embeddings : list (list nat)) (j : nat) : bool :=
  existsb (fun matchbase => bool_decide (j ∈ matchbase)) embeddings.

(** The pattern has an embedding into [m] that covers atom [j]. *)
Definition covers (pat : string) (m : Mol) (j : nat) : bool :=
  covers_in (Match pat m) j.

(** The type of the last row, from [acc] on, whose pattern covers [j]. *)
Definition winner (acc : option string) (rows : list (string * string * string))
    (m : Mol) (j : nat) : option string :=
  foldl (fun acc row => if covers row.1.1 m j then Some row.1.2 else acc) acc rows.

(** The substructure search does not look at the label slot [tag]. *)
Definition Match_ignores (tag : string) : Prop :=
  forall pat m m', erase_tag tag m = erase_tag tag m' -> Match pat m = Match pat m'.

(** The number of atoms of the molecules that bear the label [type]. *)
Definition count_label (tag type : string) (ms : list Mol) : nat :=
  length (filter (fun a => GetStringData tag a = type) (ms ≫= GetAtoms)).

(** The matching pairs no vertex with itself. *)
Definition no_self_mate : Prop :=
  forall g v w, max_weight_matching g !! v = Some w -> v <> w.

(** The matching pairs a vertex only with one of its neighbours. *)
Definition mate_in_graph : Prop :=
  forall g v w, max_weight_matching g !! v = Some w ->
    exists adj weight, g !! v = Some adj /\ adj !! w = Some weight.

(** Atom by atom, the current labels are the reference type names. *)
Definition same_type_names (tag : string) (ms refs : list Mol) : Prop :=
  Forall2 (fun m ref =>
             Forall2 (fun a b => GetStringData tag a = GetType b)
                     (GetAtoms m) (GetAtoms ref))
          ms refs.

(** Every weight between two distinct names is zero. *)
Definition offdiag0 (common : gmap (string * string) nat) : Prop :=
  forall c r n, c <> r -> common !! (c, r) = Some n -> n = 0.

Definition offdiag0_graph (g : gmap string (gmap string nat)) : Prop :=
  forall u v adj w, u <> v -> g !! u = Some adj -> adj !! v = Some w -> w = 0.

(** Every pair of a current and a reference type name is a key. *)
Definition has_keys (current reference_types : list string)
    (d : gmap (string * string) nat) : Prop :=
  forall c r, c ∈ current -> r ∈ reference_types -> is_Some (d !! (c, r)).

(** [counts] holds, for every type name, the number of atoms seen. *)
Definition counted (tag : string) (names : list string)
    (counts : gmap string nat) (seen : list Atom) : Prop :=
  forall ty, ty ∈ names ->
    counts !! ty = Some (length (filter (fun a => GetStringData tag a = ty) seen)).

(** *** Further notions: tokens and files of rules *)

(** Every character of the string satisfies [p]. *)
Fixpoint string_forall (p : ascii -> bool) (s : string) : bool :=
  match s with
  | EmptyString => true
  | String c s' => andb (p c) (string_forall p s')
  end.

(** A character of a token: neither whitespace nor [%]. *)
Definition token_char (c : ascii) : bool :=
  andb (negb (is_whitespace c)) (negb (Ascii.eqb c percent)).

(** A non-empty string of token characters. *)
Definition is_token (s : string) : bool :=
  andb (negb (bool_decide (s = ""))) (string_forall token_char s).

(** The line of a rule in a file, and the file of a list of rules. *)
Definition rule_line (rule : string * string) : string :=
  rule.1 +:+ " " +:+ rule.2 +:+ String newline EmptyString.

Definition rule_file (typelist : list (string * string)) : string :=
  foldr (fun rule text => rule_line rule +:+ text) "" typelist.

(** *** Further notions: coverage *)

(** Some row of the table has a pattern that covers atom [j]. *)
Definition covered (rows : list (string * string * string)) (m : Mol) (j : nat) : bool :=
  existsb (fun row => covers row.1.1 m j) rows.

(** The type name of the last row that covers atom [j], the empty string
    when no row does. *)
Definition type_of (rows : list (string * string * string)) (m : Mol) (j : nat) : string :=
  default "" (winner None rows m j).

(** *** Further notions: the state of a sampler *)

(** Every atom of the sampler's molecules bears a non-empty type name of
    the sampler's rule list. *)
Definition typed_state (self : AtomTypeSampler) : Prop :=
  forall m a, m ∈ molecules self -> a ∈ GetAtoms m ->
    GetStringData (typetag self) a <> "" /\
    GetStringData (typetag self) a ∈ snd <$> atomtypes self.

(** The stored matches and total are the scorer's on the stored rule list
    and molecules. *)
Definition scored (self : AtomTypeSampler) : Prop :=
  exists matches total,
    atom_type_matches self = Some matches /\
    total_atom_type_matches self = Some total /\
    best_match_reference_types self (atomtypes self) (molecules self)
      = inr (Some (matches, total)).

(** The number of atoms of a corpus. *)
Definition atom_count (ms : list Mol) : nat :=
  sum_list (length ∘ GetAtoms <$> ms).

(** What no step changes. *)
Definition same_setup (self self' : AtomTypeSampler) : Prop :=
  verbose self' = verbose self /\
  typetag self' = typetag self /\
  decorators self' = decorators self /\
  replacements self' = replacements self /\
  total_atoms self' = total_atoms self /\
  reference_typed_molecules self' = reference_typed_molecules self /\
  reference_atomtypes self' = reference_atomtypes self /\
  temperature self' = temperature self /\
  skeleton (typetag self) <$> molecules self'
    = skeleton (typetag self) <$> molecules self.

(** The keys of the dictionary of the atoms in common are pairs of a
    current and a reference type name. *)
Definition keys_within (current reference_types : list string)
    (d : gmap (string * string) nat) : Prop :=
  forall c r, is_Some (d !! (c, r)) -> c ∈ current /\ r ∈ reference_types.

(** *** Further notions: the table of the scorer *)

(** The sum of the counts of the rows of a table of matches. *)
Definition table_total (matches : list (string * option string * option nat)) : nat :=
  sum_list ((fun row => default 0 row.2) <$> matches).

(** The current type names of a table of matches, row by row. *)
Definition table_names (matches : list (string * option string * option nat))
    : list string :=
  (fun row => row.1.1) <$> matches.

(** The atoms the scorer pairs: atom by atom, molecule by molecule, as
    far as both lists go. *)
Definition paired_atoms (ms refs : list Mol) : list (Atom * Atom) :=
  zip ms refs ≫= (fun '(m, ref) => zip (GetAtoms m) (GetAtoms ref)).

(** *** Further notions: statistics *)

(** The number of molecules that have an atom bearing the label [type]. *)
Definition count_molecules_with (tag type : string) (ms : list Mol) : nat :=
  length (filter (fun m => type ∈ GetStringData tag <$> GetAtoms m) ms).

(** *** Further notions: characters of a pattern *)

Definition no_newline (s : string) : bool :=
  string_forall (fun c => negb (Ascii.eqb c newline)) s.

Definition no_close_bracket (s : string) : bool :=
  string_forall (fun c => negb (Ascii.eqb c close_bracket)) s.

(** *** Further notions: the steps of a run *)

(** The steps of a run alone, without what a verbose run shows between
    them. *)
Fixpoint run_steps (self : AtomTypeSampler) (draws : list Draws)
    : AtomTypeSampler * option exn :=
  match draws with
  | [] => (self, None)
  | d :: draws' =>
      match fst (sample_atomtypes self d) with
      | inl e => (self, Some e)
      | inr (_, self') => run_steps self' draws'
      end
  end.

(** ** The typing engine *)

Lemma GetStringData_Set tag v a : GetStringData tag (SetStringData tag v a) = v.
Proof. unfold GetStringData, SetStringData; simpl. by rewrite lookup_insert_eq. Qed.

Lemma erase_tag_atom_Set tag v a :
  erase_tag_atom tag (SetStringData tag v a) = erase_tag_atom tag a.
Proof. unfold erase_tag_atom, SetStringData; simpl. by rewrite delete_insert_eq. Qed.

Lemma erase_tag_set_target tag type m i :
  erase_tag tag (set_target tag type m i) = erase_tag tag m.
Proof.
  unfold erase_tag, set_target, with_atoms; simpl. f_equal.
  apply list_eq; intros j. rewrite !list_lookup_fmap, list_lookup_alter.
  destruct (decide (i = j)) as [->|]; [|done].
  destruct (GetAtoms m !! j); simpl; [|done]. by rewrite erase_tag_atom_Set.
Qed.

Lemma erase_tag_apply_match tag type emb : forall m,
  erase_tag tag (apply_match tag type m emb) = erase_tag tag m.
Proof.
  unfold apply_match. induction emb as [|i emb IH]; intros m; simpl; [done|].
  by rewrite IH, erase_tag_set_target.
Qed.

Lemma erase_tag_apply_matches tag type embs : forall m,
  erase_tag tag (foldl (apply_match tag type) m embs) = erase_tag tag m.
Proof.
  induction embs as [|emb embs IH]; intros m; simpl; [done|].
  by rewrite IH, erase_tag_apply_match.
Qed.

Lemma erase_tag_apply_rule tag m row :
  erase_tag tag (apply_rule tag m row) = erase_tag tag m.
Proof. destruct row as [[pat type] smarts]. apply erase_tag_apply_matches. Qed.

Lemma erase_tag_rules tag rows : forall m,
  erase_tag tag (foldl (apply_rule tag) m rows) = erase_tag tag m.
Proof.
  induction rows as [|row rows IH]; intros m; simpl; [done|].
  by rewrite IH, erase_tag_apply_rule.
Qed.

Lemma label_set_target tag type m i j :
  label tag (set_target tag type m i) j =
  if decide (i = j) then const type <$> label tag m j else label tag m j.
Proof.
  unfold label, set_target; simpl. rewrite list_lookup_alter.
  destruct (decide (i = j)) as [->|]; [|done].
  destruct (GetAtoms m !! j); simpl; [|done]. by rewrite GetStringData_Set.
Qed.

Lemma label_apply_match tag type emb j : forall m,
  label tag (apply_match tag type m emb) j =
  if bool_decide (j ∈ emb) then const type <$> label tag m j else label tag m j.
Proof.
  unfold apply_match. induction emb as [|i emb IH]; intros m; simpl; [done|].
  rewrite IH, label_set_target.
  destruct (decide (i = j)) as [->|Hne].
  - rewrite (bool_decide_eq_true_2 (j ∈ j :: emb)) by left.
    case_bool_decide; [|done]. by destruct (label tag m j).
  - destruct (decide (j ∈ emb)) as [Hin|Hin].
    + rewrite (bool_decide_eq_true_2 _ Hin).
      by rewrite (bool_decide_eq_true_2 (j ∈ i :: emb)) by (by right).
    + rewrite (bool_decide_eq_false_2 _ Hin).
      rewrite (bool_decide_eq_false_2 (j ∈ i :: emb)); [done|].
      intros [->|?]%elem_of_cons; done.
Qed.

Lemma label_apply_matches tag type embs j : forall m,
  label tag (foldl (apply_match tag type) m embs) j =
  if covers_in embs j then const type <$> label tag m j else label tag m j.
Proof.
  induction embs as [|emb embs IH]; intros m; simpl; [done|].
  rewrite IH, label_apply_match.
  destruct (bool_decide (j ∈ emb)), (covers_in embs j); simpl; try done.
  by destruct (label tag m j).
Qed.

Lemma label_apply_rule tag m pat type smarts j :
  label tag (apply_rule tag m (pat, type, smarts)) j =
  if covers pat m j then const type <$> label tag m j else label tag m j.
Proof. apply label_apply_matches. Qed.

Lemma winner_cons acc row rows m j :
  winner acc (row :: rows) m j =
  winner (if covers row.1.1 m j then Some row.1.2 else acc) rows m j.
Proof. done. Qed.

Lemma winner_acc rows m j : forall acc,
  winner acc rows m j =
  match winner None rows m j with Some type => Some type | None => acc end.
Proof.
  unfold winner. induction rows as [|row rows IH]; intros acc; simpl; [done|].
  rewrite IH. rewrite (IH (if covers _ _ _ then _ else None)).
  destruct (foldl _ None rows); [done|]. by destruct (covers _ _ _).
Qed.

Lemma winner_snoc acc rows row m j :
  winner acc (rows ++ [row]) m j =
  if covers row.1.1 m j then Some row.1.2 else winner acc rows m j.
Proof. unfold winner. by rewrite foldl_app. Qed.

(** The winner is the type of the last row whose pattern covers [j]. *)
Lemma winner_last rows m j type :
  winner None rows m j = Some type ->
  exists k pat smarts,
    rows !! k = Some (pat, type, smarts) /\ covers pat m j = true /\
    forall k' pat' type' smarts',
      k < k' -> rows !! k' = Some (pat', type', smarts') -> covers pat' m j = false.
Proof.
  induction rows as [|[[pat1 type1] smarts1] rows IH] using rev_ind; [done|].
  rewrite winner_snoc; simpl. destruct (covers pat1 m j) eqn:Hc.
  - intros [= <-]. exists (length rows), pat1, smarts1. split_and!.
    + by rewrite lookup_app_r, Nat.sub_diag by lia.
    + done.
    + intros k' ???? Hk'. apply lookup_lt_Some in Hk'.
      rewrite length_app in Hk'; simpl in Hk'. lia.
  - intros Hw. destruct (IH Hw) as (k & pat & smarts & Hk & Hcov & Hlater).
    exists k, pat, smarts. split_and!.
    + rewrite lookup_app_l; [done|]. by eapply lookup_lt_Some.
    + done.
    + intros k' pat' type' smarts' Hlt Hk'.
      destruct (decide (k' < length rows)) as [Hin|Hout].
      * rewrite lookup_app_l in Hk' by done. eauto.
      * assert (k' = length rows) as ->.
        { apply lookup_lt_Some in Hk'. rewrite length_app in Hk'; simpl in Hk'. lia. }
        rewrite lookup_app_r, Nat.sub_diag in Hk' by lia. by injection Hk' as <- <- <-.
Qed.

Lemma winner_none rows m j :
  winner None rows m j = None ->
  forall k pat type smarts, rows !! k = Some (pat, type, smarts) -> covers pat m j = false.
Proof.
  induction rows as [|[[pat1 type1] smarts1] rows IH] using rev_ind; [done|].
  rewrite winner_snoc; simpl. destruct (covers pat1 m j) eqn:Hc; [done|].
  intros Hw k pat type smarts Hk.
  destruct (decide (k < length rows)) as [Hin|Hout].
  - rewrite lookup_app_l in Hk by done. eauto.
  - assert (k = length rows) as ->.
    { apply lookup_lt_Some in Hk. rewrite length_app in Hk; simpl in Hk. lia. }
    rewrite lookup_app_r, Nat.sub_diag in Hk by lia. by injection Hk as <- <- <-.
Qed.

(** The labels after the loop over the rows, when the search ignores the
    label slot: the last covering row decides. *)
Lemma label_rules tag rows m0 j :
  Match_ignores tag ->
  forall m, erase_tag tag m = erase_tag tag m0 ->
  label tag (foldl (apply_rule tag) m rows) j =
  match winner None rows m0 j with
  | Some type => const type <$> label tag m j
  | None => label tag m j
  end.
Proof.
  intros Hframe. induction rows as [|[[pat type] smarts] rows IH]; intros m Hm; [done|].
  change (foldl (apply_rule tag) m ((pat, type, smarts) :: rows))
    with (foldl (apply_rule tag) (apply_rule tag m (pat, type, smarts)) rows).
  rewrite IH by (by rewrite erase_tag_apply_rule).
  rewrite label_apply_rule, winner_cons; simpl.
  assert (covers pat m j = covers pat m0 j) as ->.
  { unfold covers. by rewrite (Hframe pat m m0 Hm). }
  destruct (covers pat m0 j); [|done].
  rewrite (winner_acc rows m0 j (Some type)).
  destruct (winner None rows m0 j); [|done].
  by destruct (label tag m j).
Qed.

Lemma label_perceived self mol j :
  label (pattyTag self) (perceived self mol) j = const "" <$> GetAtoms mol !! j.
Proof.
  unfold label, perceived, OEAssignAromaticFlags, assign_null; simpl.
  rewrite list_lookup_imap, list_lookup_fmap.
  destruct (GetAtoms mol !! j); simpl; [|done].
  unfold GetStringData; simpl. by rewrite lookup_insert_eq.
Qed.

Lemma find_index_None {A} (p : A -> bool) l :
  find_index p l = None -> forall j x, l !! j = Some x -> p x = false.
Proof.
  induction l as [|y l IH]; simpl; [done|].
  destruct (p y) eqn:Hp; [done|]. destruct (find_index p l); [done|].
  intros _ [|j] x; simpl; [by intros [= <-]|]. by apply IH.
Qed.

Lemma find_index_Some {A} (p : A -> bool) l : forall i,
  find_index p l = Some i ->
  (exists x, l !! i = Some x /\ p x = true) /\
  forall j x, j < i -> l !! j = Some x -> p x = false.
Proof.
  induction l as [|y l IH]; simpl; [done|]. intros i.
  destruct (p y) eqn:Hp.
  - intros [= <-]. split; [by exists y|]. intros; lia.
  - destruct (find_index p l) as [i'|]; [|done]. intros [= <-].
    destruct (IH i' eq_refl) as [Hx Hbefore]. split; [done|].
    intros [|j] x Hlt; simpl; [by intros [= <-]|]. apply Hbefore. lia.
Qed.

Lemma find_index_exists {A} (p : A -> bool) l j x :
  l !! j = Some x -> p x = true -> exists i, find_index p l = Some i.
Proof.
  intros Hj Hp. destruct (find_index p l) as [i|] eqn:Hf; [by exists i|].
  by rewrite (find_index_None _ _ Hf _ _ Hj) in Hp.
Qed.

Lemma typed_unassigned_None self mol :
  unassigned (pattyTag self) (typed self mol) = None ->
  forall j a, GetAtoms (typed self mol) !! j = Some a ->
              GetStringData (pattyTag self) a <> "".
Proof.
  intros Hnone j a Hj Hempty.
  pose proof (find_index_None _ _ Hnone j a Hj) as Hp. simpl in Hp.
  unfold is_empty_string in Hp. by apply bool_decide_eq_false in Hp.
Qed.

Lemma assignTypes_None self mol m' :
  assignTypes self mol = (m', None) ->
  m' = typed self mol /\
  forall j a, GetAtoms m' !! j = Some a -> GetStringData (pattyTag self) a <> "".
Proof.
  unfold assignTypes.
  destruct (unassigned (pattyTag self) (typed self mol)) eqn:Hun; [done|].
  intros [= <-]. split; [done|]. by apply typed_unassigned_None.
Qed.

(** Last write wins, for one molecule and the rows of the typer. *)
Lemma assignTypes_winner self mol m' :
  Match_ignores (pattyTag self) ->
  assignTypes self mol = (m', None) ->
  forall j a, GetAtoms m' !! j = Some a ->
  exists k pat type smarts,
    smartsList self !! k = Some (pat, type, smarts) /\
    covers pat (perceived self mol) j = true /\
    (forall k' pat' type' smarts',
        k < k' -> smartsList self !! k' = Some (pat', type', smarts') ->
        covers pat' (perceived self mol) j = false) /\
    GetStringData (pattyTag self) a = type.
Proof.
  intros Hframe Hassign j a Hj. unfold assignTypes in Hassign.
  destruct (unassigned (pattyTag self) (typed self mol)) eqn:Hun; [done|].
  injection Hassign as <-.
  pose proof (typed_unassigned_None _ _ Hun j a Hj) as Hne.
  pose proof (label_rules (pattyTag self) (smartsList self) (perceived self mol) j
                Hframe (perceived self mol) eq_refl) as Hlab.
  fold (typed self mol) in Hlab. unfold label at 1 in Hlab.
  rewrite Hj, label_perceived in Hlab. simpl in Hlab.
  destruct (winner None (smartsList self) (perceived self mol) j) as [type|] eqn:Hw.
  - destruct (winner_last _ _ _ _ Hw) as (k & pat & smarts & Hk & Hc & Hlater).
    exists k, pat, type, smarts. split_and!; try done.
    destruct (GetAtoms mol !! j); simpl in Hlab; congruence.
  - destruct (GetAtoms mol !! j); simpl in Hlab; congruence.
Qed.

Lemma type_loop_success atomtyper : forall ms ms',
  type_loop atomtyper ms = (ms', None) ->
  forall i mol, ms !! i = Some mol ->
  exists m', ms' !! i = Some m' /\ assignTypes atomtyper mol = (m', None).
Proof.
  induction ms as [|molecule ms IH]; intros ms' Hloop i mol Hi; [done|].
  simpl in Hloop. destruct (assignTypes atomtyper molecule) as [m [e|]] eqn:Ha; [done|].
  destruct (type_loop atomtyper ms) as [ms'' e'] eqn:Hrest.
  injection Hloop as <- ->. destruct i as [|i]; simpl in *.
  - injection Hi as <-. by exists m.
  - by apply IH.
Qed.

(** C1. On a corpus that [type_molecules] types without a
    [TypingException], the label of every atom is the typename of the last
    entry of the rule list, in list order, whose pattern (the SMARTS after
    the replacement bindings) has an embedding that covers the atom: every
    later entry has no such embedding. *)
Theorem type_molecules_last_write_wins (self : AtomTypeSampler)
    (typelist : list (string * string)) (ms ms' : list Mol) :
  Match_ignores (typetag self) ->
  type_molecules self typelist ms = (ms', None) ->
  forall i mol m' j a,
    ms !! i = Some mol -> ms' !! i = Some m' -> GetAtoms m' !! j = Some a ->
    let atomtyper := AtomTyper_init typelist (typetag self) (replacements self) in
    let pattern smarts := OESmartsLexReplace smarts (bindings_of (replacements self)) in
    exists k smarts typename,
      typelist !! k = Some (smarts, typename) /\
      covers (pattern smarts) (perceived atomtyper mol) j = true /\
      (forall k' smarts' typename',
          k < k' -> typelist !! k' = Some (smarts', typename') ->
          covers (pattern smarts') (perceived atomtyper mol) j = false) /\
      GetStringData (typetag self) a = typename.
Proof.
  intros Hframe Htype i mol m' j a Hi Hi' Hj atomtyper pattern.
  destruct (type_loop_success _ _ _ Htype i mol Hi) as (m'' & Hm'' & Hassign).
  assert (m'' = m') as -> by congruence.
  destruct (assignTypes_winner atomtyper mol m' Hframe Hassign j a Hj)
    as (k & pat & type & smarts0 & Hk & Hc & Hlater & Hlabel).
  unfold atomtyper, AtomTyper_init in Hk; simpl in Hk.
  rewrite list_lookup_fmap in Hk.
  destruct (typelist !! k) as [[smarts typename]|] eqn:Hrule; [|done].
  simpl in Hk. injection Hk as <- <- <-.
  exists k, smarts, typename. split_and!; try done.
  intros k' smarts' typename' Hlt Hk'.
  apply (Hlater k' (pattern smarts') typename' (pattern smarts') Hlt).
  unfold atomtyper, AtomTyper_init; simpl. by rewrite list_lookup_fmap, Hk'.
Qed.

(** C3. [assignTypes] raises a [TypingException] exactly when, after
    every rule has been processed, some atom still has the empty label;
    the exception carries the molecule and the first such atom; a call
    that raises nothing leaves no atom with the empty label. *)
Theorem assignTypes_coverage_error (self : AtomTyper) (mol : Mol) :
  let m := typed self mol in
  let tag := pattyTag self in
  ((exists j a, GetAtoms m !! j = Some a /\ GetStringData tag a = "") <->
   (exists j, assignTypes self mol = (m, Some (TypingException m j)))) /\
  (forall j, assignTypes self mol = (m, Some (TypingException m j)) ->
     (exists a, GetAtoms m !! j = Some a /\ GetStringData tag a = "") /\
     (forall j' a', j' < j -> GetAtoms m !! j' = Some a' ->
                    GetStringData tag a' <> "")) /\
  (forall e, snd (assignTypes self mol) = Some e ->
             exists j, e = TypingException m j) /\
  (forall m', assignTypes self mol = (m', None) ->
     m' = m /\
     forall j a, GetAtoms m' !! j = Some a -> GetStringData tag a <> "").
Proof.
  intros m tag. unfold assignTypes. fold m. fold tag.
  destruct (unassigned tag m) as [i|] eqn:Hun.
  - destruct (find_index_Some _ _ _ Hun) as [(x & Hx & Hpx) Hbefore].
    apply bool_decide_eq_true in Hpx.
    split_and!.
    + split; [by exists i|]. intros _. by exists i, x.
    + intros j [= <-]. split; [by exists x|].
      intros j' a' Hlt Hj' Hempty. specialize (Hbefore j' a' Hlt Hj').
      by apply bool_decide_eq_false in Hbefore.
    + intros e [= <-]. by exists i.
    + done.
  - split_and!.
    + split; [|by intros [j ?]].
      intros (j & a & Hj & Hempty).
      by destruct (typed_unassigned_None self mol Hun j a Hj).
    + done.
    + done.
    + intros m' [= <-]. split; [done|]. by apply typed_unassigned_None.
Qed.

(** *** What a typing pass writes *)

Lemma skeleton_erase_tag tag m m' :
  erase_tag tag m = erase_tag tag m' -> skeleton tag m = skeleton tag m'.
Proof.
  intros He.
  assert (forall x, skeleton tag x =
            mkMol (GetTitle (erase_tag tag x))
                  (SetAromatic false <$> GetAtoms (erase_tag tag x))
                  (SetAromaticBond false <$> GetBonds (erase_tag tag x))) as Hs.
  { intros x. unfold skeleton, erase_tag, with_atoms; simpl.
    by rewrite <- list_fmap_compose. }
  by rewrite !Hs, He.
Qed.

Lemma skeleton_perceived self mol :
  skeleton (pattyTag self) (perceived self mol) = skeleton (pattyTag self) mol.
Proof.
  unfold skeleton, perceived, OEAssignAromaticFlags, assign_null; simpl. f_equal.
  - apply list_eq; intros j.
    rewrite !list_lookup_fmap, list_lookup_imap, list_lookup_fmap.
    destruct (GetAtoms mol !! j) as [a|]; simpl; [|done].
    unfold skeleton_atom, erase_tag_atom, SetAromatic, SetStringData; simpl.
    by rewrite delete_insert_eq.
  - apply list_eq; intros j. rewrite !list_lookup_fmap, list_lookup_imap.
    by destruct (GetBonds mol !! j).
Qed.

Lemma skeleton_typed self mol :
  skeleton (pattyTag self) (typed self mol) = skeleton (pattyTag self) mol.
Proof.
  rewrite <- (skeleton_perceived self mol). apply skeleton_erase_tag, erase_tag_rules.
Qed.

Lemma assignTypes_fst self mol : fst (assignTypes self mol) = typed self mol.
Proof. unfold assignTypes. by destruct (unassigned _ _). Qed.

Lemma skeleton_type_loop atomtyper : forall ms,
  skeleton (pattyTag atomtyper) <$> fst (type_loop atomtyper ms) =
  skeleton (pattyTag atomtyper) <$> ms.
Proof.
  induction ms as [|molecule ms IH]; [done|]. cbn [type_loop].
  pose proof (assignTypes_fst atomtyper molecule) as Hfst.
  destruct (assignTypes atomtyper molecule) as [m [e|]]; cbn [fst] in *; subst m.
  - by rewrite !fmap_cons, skeleton_typed.
  - destruct (type_loop atomtyper ms) as [ms'' e']; cbn [fst] in *.
    by rewrite !fmap_cons, skeleton_typed, IH.
Qed.

(** The aromaticity flags after a call are the verdicts of the model on
    the molecule with its labels reset. *)
Lemma aromatic_typed self mol :
  IsAromatic <$> GetAtoms (typed self mol) =
  imap (fun i _ => aromatic_atom (assign_null (pattyTag self) mol) i) (GetAtoms mol).
Proof.
  assert (IsAromatic <$> GetAtoms (typed self mol) =
          IsAromatic <$> GetAtoms (erase_tag (pattyTag self) (typed self mol))) as ->.
  { unfold erase_tag; simpl. rewrite <- list_fmap_compose. by apply list_fmap_ext. }
  unfold typed. rewrite erase_tag_rules.
  unfold erase_tag, perceived, OEAssignAromaticFlags, assign_null; simpl.
  apply list_eq; intros j.
  rewrite !list_lookup_fmap, !list_lookup_imap, list_lookup_fmap.
  by destruct (GetAtoms mol !! j).
Qed.

(** C6, as the code has it. A typing pass writes the label slot and the
    aromaticity flags of the molecules and nothing else: the number of
    molecules, their titles, the names, atomic numbers, reference types
    and other string data of their atoms, and the atoms and orders of
    their bonds are as before, whether the pass raises or not. *)
Theorem type_molecules_frame (self : AtomTypeSampler)
    (typelist : list (string * string)) (ms : list Mol) :
  skeleton (typetag self) <$> fst (type_molecules self typelist ms) =
  skeleton (typetag self) <$> ms.
Proof. unfold type_molecules. apply (skeleton_type_loop (AtomTyper_init _ _ _)). Qed.

(** ** The sampler *)

(** The laws of [traced] the proofs step with. *)

Lemma bind_lift_ret {A B} (f : A -> traced B) (x : A) :
  mbind f (lift (inr x)) = f x.
Proof. unfold mbind, traced_bind, lift; simpl. by destruct (f x). Qed.

Lemma bind_lift_raise {A B} (f : A -> traced B) (e : exn) :
  mbind f (lift (inl e)) = (inl e, []).
Proof. done. Qed.

Lemma bind_tell {B} (f : unit -> traced B) (c : call) :
  mbind f (tell c) = (fst (f ()), c :: snd (f ())).
Proof. done. Qed.

Lemma bind_ret {A B} (f : A -> traced B) (x : A) :
  mbind f (mret x) = f x.
Proof. apply (bind_lift_ret f x). Qed.

Lemma bind_pair {A B} (f : A -> traced B) (r : res A) (log : list call) :
  mbind f (r, log) =
  match r with
  | inl e => (inl e, log)
  | inr a => (fst (f a), log ++ snd (f a))
  end.
Proof. done. Qed.

Ltac bind_ret_step :=
  match goal with
  | |- context [mbind ?f (lift (inr ?x))] => rewrite (bind_lift_ret f x)
  | |- context [mbind ?f (lift (@mret ?M ?I ?A ?x))] =>
      change (@mret M I A x) with (@inr exn A x); rewrite (bind_lift_ret f x)
  | |- context [mbind ?f (tell ?c)] => rewrite (bind_tell f c)
  end.

(** The scorer is called once in the second half of a step. *)
Lemma decide_proposal_calls self d pa pm :
  snd (decide_proposal self d pa pm) = [Call_best_match_reference_types pa].
Proof.
  unfold decide_proposal. rewrite bind_tell; cbn [snd]. f_equal.
  destruct (best_match_reference_types self pa pm) as [e|[[pmatches ptotal]|]];
    [done| |done].
  bind_ret_step.
  destruct (total_atom_type_matches self) as [current|]; [|done].
  bind_ret_step.
  destruct (metropolis ptotal current (effective_temperature self) (uniform d))
    as [e|[|]]; done.
Qed.

Lemma sample_atomtypes_unfold self d :
  sample_atomtypes self d =
  match propose self d with
  | (inl e, log) => (inl e, log)
  | (inr None, log) => (inr (false, self), log)
  | (inr (Some (pa, pm)), log) =>
      (fst (decide_proposal self d pa pm),
       log ++ [Call_best_match_reference_types pa])
  end.
Proof.
  unfold sample_atomtypes. destruct (propose self d) as [[e|[[pa pm]|]] log].
  - done.
  - rewrite bind_pair. by rewrite decide_proposal_calls.
  - rewrite bind_pair. cbn. by rewrite app_nil_r.
Qed.

(** *** Without reference molecules *)

Lemma best_match_no_reference self typelist ms :
  reference_typed_molecules self = None ->
  best_match_reference_types self typelist ms = inr None.
Proof. unfold best_match_reference_types. by intros ->. Qed.

Lemma decide_proposal_no_reference self d pa pm :
  reference_typed_molecules self = None ->
  decide_proposal self d pa pm = (inl TypeError, [Call_best_match_reference_types pa]).
Proof.
  intros Href. unfold decide_proposal.
  rewrite bind_tell, (best_match_no_reference _ _ _ Href). reflexivity.
Qed.

Lemma init_no_reference fs ms base decs repl temp verb self :
  AtomTypeSampler_init fs ms base decs repl None temp verb = inr self ->
  reference_typed_molecules self = None /\ total_atom_type_matches self = None.
Proof.
  unfold AtomTypeSampler_init.
  destruct (read_typelist fs base) as [e|[typelist|]];
    cbn [mbind res_bind mret res_ret raise]; [discriminate| |].
  2:{ destruct (read_typelist fs decs) as [e|ds];
        cbn [mbind res_bind mret res_ret raise]; [discriminate|].
      destruct (read_typelist fs repl); discriminate. }
  destruct (read_typelist fs decs) as [e|ds];
    cbn [mbind res_bind mret res_ret raise]; [discriminate|].
  destruct (read_typelist fs repl) as [e|rs];
    cbn [mbind res_bind mret res_ret raise]; [discriminate|].
  destruct (type_molecules _ typelist ms) as [typed_ms [e|]];
    cbn [mbind res_bind mret res_ret raise]; [discriminate|].
  destruct (compute_type_statistics _ typelist typed_ms) as [e|stats];
    cbn [mbind res_bind mret res_ret raise]; [discriminate|].
  by intros [= <-].
Qed.

(** C10. A sampler constructed without reference typed molecules has
    none; [best_match_reference_types] then returns [None]; a step whose
    proposal passes validation calls the scorer and raises a [TypeError]
    when it unpacks the result, the sampler staying as it was; so a step
    that returns at all returns [False] from the validation, and a step
    that reaches the acceptance test has reference molecules. *)
Theorem no_reference_no_decision (fs : gmap string string) (ms : list Mol)
    (basetypes_filename decorators_filename replacements_filename : option string)
    (temp : R) (verb : bool) (self : AtomTypeSampler) :
  AtomTypeSampler_init fs ms basetypes_filename decorators_filename
                       replacements_filename None temp verb = inr self ->
  reference_typed_molecules self = None /\
  (forall typelist molecules,
      best_match_reference_types self typelist molecules = inr None) /\
  (forall d pa pm log,
      propose self d = (inr (Some (pa, pm)), log) ->
      sample_atomtypes self d =
        (inl TypeError, log ++ [Call_best_match_reference_types pa])) /\
  (forall d b self',
      fst (sample_atomtypes self d) = inr (b, self') ->
      b = false /\ self' = self /\ fst (propose self d) = inr None).
Proof.
  intros Hinit. destruct (init_no_reference _ _ _ _ _ _ _ _ Hinit) as [Href _].
  split_and!; [done|by intros; apply best_match_no_reference| |].
  - intros d pa pm log Hp. rewrite sample_atomtypes_unfold, Hp.
    by rewrite decide_proposal_no_reference.
  - intros d b self'. rewrite sample_atomtypes_unfold.
    destruct (propose self d) as [[e|[[pa pm]|]] log]; cbn [fst]; [done| |].
    + by rewrite decide_proposal_no_reference.
    + by intros [= <- <-].
Qed.

(** *** The acceptance test *)

Lemma log_P_accept_pos (delta : Z) (effective : R) :
  (0 < effective)%R -> ((0 < IZR delta / effective)%R <-> (0 < delta)%Z).
Proof.
  intros Heff. split.
  - intros Hq. apply lt_IZR.
    replace (IZR delta) with (IZR delta / effective * effective)%R
      by (field; lra).
    by apply Rmult_lt_0_compat.
  - intros Hd. apply IZR_lt in Hd. by apply Rdiv_lt_0_compat.
Qed.

Lemma log_P_accept_neg (delta : Z) (effective : R) :
  (0 < effective)%R -> (delta < 0)%Z -> (IZR delta / effective < 0)%R.
Proof.
  intros Heff Hd. apply IZR_lt in Hd.
  assert (0 < - IZR delta / effective)%R by (apply Rdiv_lt_0_compat; lra).
  replace (IZR delta / effective)%R with (- (- IZR delta / effective))%R
    by (field; lra).
  lra.
Qed.

Lemma metropolis_spec (proposed current : nat) (effective u : R) :
  (0 < effective)%R ->
  let delta := (Z.of_nat proposed - Z.of_nat current)%Z in
  let p := exp (IZR delta / effective) in
  exists accepted : bool,
    metropolis proposed current effective u = inr accepted /\
    (accepted = true <-> (0 < delta)%Z \/ (u < p)%R) /\
    ((0 <= delta)%Z -> (u < 1)%R -> accepted = true) /\
    ((delta < 0)%Z -> (0 < p < 1)%R /\ (accepted = true <-> (u < p)%R)).
Proof.
  intros Heff delta p. unfold metropolis. fold delta. fold p.
  destruct (decide (effective = 0%R)) as [->|_]; [lra|].
  eexists; split; [reflexivity|].
  assert ((0 < delta)%Z \/ (u < p)%R <->
          bool_decide (0 < IZR delta / effective)%R || bool_decide (u < p)%R = true)
    as Hacc.
  { rewrite orb_true_iff, !bool_decide_eq_true.
    by rewrite (log_P_accept_pos delta effective Heff). }
  split_and!.
  - by rewrite Hacc.
  - intros Hd Hu. apply Hacc.
    destruct (decide (delta = 0%Z)) as [H0|Hne]; [|left; lia].
    right. unfold p. rewrite H0. unfold Rdiv. rewrite Rmult_0_l, exp_0. done.
  - intros Hd.
    assert (0 < p < 1)%R as Hp.
    { split; [apply exp_pos|]. rewrite <- exp_0. apply exp_increasing.
      by apply log_P_accept_neg. }
    split; [done|]. rewrite <- Hacc. split; [|by right].
    intros [Hpos|Hlt]; [lia|done].
Qed.

(** C2, as the code has it. For a validated proposal scored
    [proposed_total] against the current [total_atom_type_matches], with
    [delta] their difference, and an effective temperature (the total
    number of atoms times the temperature, or 1 at temperature 0) that is
    positive: the step accepts exactly when [delta > 0] or the draw [u] is
    below [exp (delta / effective_temperature)]; so for [u] in [[0, 1)] it
    accepts always when [delta >= 0], and exactly on [u < p] with
    [0 < p = exp (delta / effective_temperature) < 1] when [delta < 0]. *)
Theorem sample_atomtypes_metropolis (self : AtomTypeSampler) (d : Draws)
    (pa : list (string * string)) (pm : list Mol) (log : list call)
    (proposed_matches : list (string * option string * option nat))
    (proposed_total current : nat) :
  propose self d = (inr (Some (pa, pm)), log) ->
  best_match_reference_types self pa pm = inr (Some (proposed_matches, proposed_total)) ->
  total_atom_type_matches self = Some current ->
  (0 < effective_temperature self)%R ->
  let delta := (Z.of_nat proposed_total - Z.of_nat current)%Z in
  let p := exp (IZR delta / effective_temperature self) in
  exists accepted : bool,
    fst (sample_atomtypes self d) =
      inr (accepted,
           if accepted then accept self pa pm proposed_matches proposed_total
           else self) /\
    (accepted = true <-> (0 < delta)%Z \/ (uniform d < p)%R) /\
    ((0 <= delta)%Z -> (uniform d < 1)%R -> accepted = true) /\
    ((delta < 0)%Z -> (0 < p < 1)%R /\ (accepted = true <-> (uniform d < p)%R)).
Proof.
  intros Hp Hscore Hcur Heff delta p.
  destruct (metropolis_spec proposed_total current (effective_temperature self)
              (uniform d) Heff) as (accepted & Hm & Hspec).
  exists accepted. split; [|exact Hspec].
  rewrite sample_atomtypes_unfold, Hp. cbn [fst].
  unfold decide_proposal. rewrite bind_tell. cbn [fst]. rewrite Hscore.
  bind_ret_step. rewrite Hcur. bind_ret_step. rewrite Hm. bind_ret_step.
  by destruct accepted.
Qed.

(** *** The refine move *)

Lemma randint0_lt n draw i : randint0 n draw = inr i -> i < n.
Proof.
  unfold randint0. destruct (decide (n = 0)); [done|].
  intros [= <-]. by apply Nat.mod_upper_bound.
Qed.

Lemma refine_candidate_eq self ds d atomtype_index decorator_index
    atomtype atomtype_typename decorator decorator_typename inner :
  randint0 (length (atomtypes self)) (atomtype_draw d) = inr atomtype_index ->
  randint0 (length ds) (decorator_draw d) = inr decorator_index ->
  atomtypes self !! atomtype_index = Some (atomtype, atomtype_typename) ->
  ds !! decorator_index = Some (decorator, decorator_typename) ->
  re_match_bracket atomtype = Some inner ->
  refine_candidate self ds d =
    inr (atomtype_index, atomtype_typename,
         "[" +:+ inner +:+ "&" +:+ decorator +:+ "]",
         atomtype_typename +:+ " " +:+ decorator_typename).
Proof.
  intros Hi Hd Ha Hdec Hre. unfold refine_candidate, getindex.
  rewrite Hi; cbn [mbind res_bind]. rewrite Hd; cbn [mbind res_bind].
  rewrite Ha; cbn [mbind res_bind mret res_ret]. rewrite Hdec; cbn [mbind res_bind mret res_ret].
  by rewrite Hre.
Qed.

Lemma propose_refine_move self d ds :
  ~ (move d < 1 / 2)%R -> decorators self = Some ds ->
  propose self d = propose_refine self ds d.
Proof.
  intros Hmove Hdec. unfold propose. rewrite Hdec. bind_ret_step.
  by destruct (decide (move d < 1 / 2)%R).
Qed.

(** C4, as the code has it. In a refine move, when a rule whose SMARTS
    pattern equals the proposed pattern (the parent pattern and the
    decorator joined by [&] inside the brackets) already exists among the
    current rules, the step returns [False] at once: the sampler is
    unchanged, and neither the typing engine nor the statistics nor the
    scorer is called. *)
Theorem refine_existing_pattern_rejected (self : AtomTypeSampler) (d : Draws)
    (ds : list (string * string)) (atomtype_index decorator_index : nat)
    (atomtype atomtype_typename decorator decorator_typename inner : string) :
  ~ (move d < 1 / 2)%R ->
  decorators self = Some ds ->
  randint0 (length (atomtypes self)) (atomtype_draw d) = inr atomtype_index ->
  randint0 (length ds) (decorator_draw d) = inr decorator_index ->
  atomtypes self !! atomtype_index = Some (atomtype, atomtype_typename) ->
  ds !! decorator_index = Some (decorator, decorator_typename) ->
  re_match_bracket atomtype = Some inner ->
  ("[" +:+ inner +:+ "&" +:+ decorator +:+ "]") ∈ fst <$> atomtypes self ->
  sample_atomtypes self d = (inr (false, self), []).
Proof.
  intros Hmove Hdec Hi Hd Ha Hdeco Hre Hdup.
  rewrite sample_atomtypes_unfold, (propose_refine_move _ _ _ Hmove Hdec).
  unfold propose_refine.
  rewrite (refine_candidate_eq _ _ _ _ _ _ _ _ _ _ Hi Hd Ha Hdeco Hre).
  bind_ret_step.
  destruct (decide (_ ∈ _)) as [_|Hnot]; [done|].
  destruct Hnot. by apply elem_of_list_to_set.
Qed.

(** *** Labels after a successful pass, and the statistics on them *)

Lemma label_after_rules tag rows j : forall m,
  label tag (foldl (apply_rule tag) m rows) j = label tag m j \/
  exists row, row ∈ rows /\ label tag (foldl (apply_rule tag) m rows) j = Some row.1.2.
Proof.
  induction rows as [|[[pat type] smarts] rows IH]; intros m; [by left|].
  cbn [foldl].
  destruct (IH (apply_rule tag m (pat, type, smarts))) as [Hsame|(row & Hin & Hrow)].
  - rewrite Hsame, label_apply_rule.
    destruct (covers pat m j); [|by left].
    destruct (label tag m j); [|by left].
    right. exists (pat, type, smarts). split; [left|done].
  - right. exists row. split; [by right|done].
Qed.

Lemma typed_labels self mol j a :
  GetAtoms (typed self mol) !! j = Some a ->
  GetStringData (pattyTag self) a = "" \/
  GetStringData (pattyTag self) a ∈ (fun row => row.1.2) <$> smartsList self.
Proof.
  intros Hj. unfold typed in Hj.
  destruct (label_after_rules (pattyTag self) (smartsList self) j (perceived self mol))
    as [Hsame|(row & Hin & Hrow)].
  - left. fold (typed self mol) in Hsame. unfold label at 1 in Hsame.
    fold (typed self mol) in Hj. rewrite Hj, label_perceived in Hsame.
    destruct (GetAtoms mol !! j); simpl in Hsame; congruence.
  - right. unfold label in Hrow. rewrite Hj in Hrow. injection Hrow as ->.
    apply list_elem_of_fmap. by exists row.
Qed.

Lemma type_loop_labels atomtyper : forall ms ms',
  type_loop atomtyper ms = (ms', None) ->
  forall m' a, m' ∈ ms' -> a ∈ GetAtoms m' ->
  GetStringData (pattyTag atomtyper) a ∈ (fun row => row.1.2) <$> smartsList atomtyper.
Proof.
  induction ms as [|molecule ms IH]; intros ms' Hloop m' a Hm' Ha.
  - injection Hloop as <-. by apply elem_of_nil in Hm'.
  - cbn [type_loop] in Hloop.
    destruct (assignTypes atomtyper molecule) as [m [e|]] eqn:Hassign; [done|].
    destruct (type_loop atomtyper ms) as [ms'' e'] eqn:Hrest.
    injection Hloop as <- ->.
    apply elem_of_cons in Hm' as [->|Hm']; [|by eapply IH].
    destruct (assignTypes_None atomtyper molecule m Hassign) as [-> Hnonempty].
    apply list_elem_of_lookup in Ha as [j Hj].
    destruct (typed_labels atomtyper molecule j a Hj) as [Hempty|Hin]; [|done].
    by destruct (Hnonempty j a Hj).
Qed.

Lemma type_molecules_labels self typelist ms ms' :
  type_molecules self typelist ms = (ms', None) ->
  forall m' a, m' ∈ ms' -> a ∈ GetAtoms m' ->
  GetStringData (typetag self) a ∈ snd <$> typelist.
Proof.
  intros Htype m' a Hm' Ha.
  pose proof (type_loop_labels _ _ _ Htype m' a Hm' Ha) as Hin.
  unfold AtomTyper_init in Hin; simpl in Hin.
  rewrite <- list_fmap_compose in Hin.
  erewrite list_fmap_ext; [exact Hin|]. by intros _ [smarts typename] _.
Qed.

Lemma zero_counts (typelist : list (string * string)) ty : forall d : gmap string nat,
  ty ∈ snd <$> typelist \/ d !! ty = Some 0 ->
  foldl (fun d '(smarts, typename) => <[typename := 0]> d) d typelist !! ty = Some 0.
Proof.
  induction typelist as [|[smarts typename] typelist IH]; intros d Hty.
  - destruct Hty as [Hin|Hd]; [by apply elem_of_nil in Hin|done].
  - cbn [foldl]. apply IH. rewrite fmap_cons in Hty.
    destruct (decide (ty = typename)) as [->|Hne].
    + right. by rewrite lookup_insert_eq.
    + destruct Hty as [Hin|Hd].
      * apply elem_of_cons in Hin as [?|Hin]; [done|by left].
      * right. by rewrite lookup_insert_ne.
Qed.

Lemma incr_Some `{Countable K} (d : gmap K nat) (k : K) (n : nat) :
  d !! k = Some n -> incr d k = inr (<[k := S n]> d).
Proof. intros Hk. unfold incr, getitem. by rewrite Hk. Qed.

Section Statistics.

Variable tag : string.
Variable names : list string.

Lemma count_atoms_spec atoms : forall (types : gset string) counts seen,
  (forall a, a ∈ atoms -> GetStringData tag a ∈ names) ->
  counted tag names counts seen ->
  (forall t, t ∈ types -> t ∈ names) ->
  exists types' counts',
    foldlM (fun '(types, counts) atom =>
              let atomtype := GetStringData tag atom in
              counts' ← incr counts atomtype;
              mret ({[atomtype]} ∪ types, counts'))
           (types, counts) atoms = inr (types', counts') /\
    counted tag names counts' (seen ++ atoms) /\
    (forall t, t ∈ types' -> t ∈ names).
Proof.
  induction atoms as [|a atoms IH]; intros types counts seen Hlabels Hcounted Htypes.
  - exists types, counts. by rewrite app_nil_r.
  - cbn [foldlM].
    assert (GetStringData tag a ∈ names) as Hin by (apply Hlabels; left).
    rewrite (incr_Some _ _ _ (Hcounted _ Hin)). cbn [mbind res_bind mret res_ret].
    destruct (IH ({[GetStringData tag a]} ∪ types)
                 (<[GetStringData tag a :=
                      S (length (filter (fun x => GetStringData tag x = GetStringData tag a) seen))]>
                    counts)
                 (seen ++ [a])) as (types' & counts' & Hfold & Hc & Ht).
    + intros x Hx. apply Hlabels. by right.
    + intros ty Hty. rewrite filter_app, length_app.
      destruct (decide (GetStringData tag a = ty)) as [<-|Hne].
      * rewrite lookup_insert_eq, filter_cons_True by done. simpl. f_equal. lia.
      * rewrite lookup_insert_ne, filter_cons_False by done. simpl.
        rewrite (Hcounted _ Hty). f_equal. lia.
    + intros t [->%elem_of_singleton|Hin']%elem_of_union; [done|by apply Htypes].
    + exists types', counts'. split; [exact Hfold|]. split; [|done].
      by rewrite <- app_assoc in Hc.
Qed.

Lemma incr_all_spec l : forall m : gmap string nat,
  (forall ty, ty ∈ names -> is_Some (m !! ty)) ->
  (forall t, t ∈ l -> t ∈ names) ->
  exists m', foldlM incr m l = inr m' /\ (forall ty, ty ∈ names -> is_Some (m' !! ty)).
Proof.
  induction l as [|t l IH]; intros m Hm Hl; [by exists m|].
  cbn [foldlM].
  destruct (Hm t) as [n Hn]; [apply Hl; left|]. rewrite (incr_Some _ _ _ Hn).
  cbn [mbind res_bind mret res_ret].
  apply IH; [|intros; apply Hl; by right].
  intros ty Hty. destruct (decide (t = ty)) as [->|Hne].
  - rewrite lookup_insert_eq. by eexists.
  - rewrite lookup_insert_ne by done. by apply Hm.
Qed.

Lemma count_molecule_spec m counts mcounts seen :
  (forall a, a ∈ GetAtoms m -> GetStringData tag a ∈ names) ->
  counted tag names counts seen ->
  (forall ty, ty ∈ names -> is_Some (mcounts !! ty)) ->
  exists counts' mcounts',
    count_molecule tag (counts, mcounts) m = inr (counts', mcounts') /\
    counted tag names counts' (seen ++ GetAtoms m) /\
    (forall ty, ty ∈ names -> is_Some (mcounts' !! ty)).
Proof.
  intros Hlabels Hcounted Hm. unfold count_molecule.
  change (fst (counts, mcounts)) with counts.
  change (snd (counts, mcounts)) with mcounts.
  destruct (count_atoms_spec (GetAtoms m) ∅ counts seen)
    as (types' & counts' & Hfold & Hc & Ht); [done|done| |].
  { intros t Hin. by apply not_elem_of_empty in Hin. }
  change (count_atoms tag counts (GetAtoms m) = inr (types', counts')) in Hfold.
  rewrite Hfold. cbn [mbind res_bind].
  destruct (incr_all_spec (elements types') mcounts Hm) as (mcounts' & Hincr & Hm').
  { intros t Hin. apply Ht. by apply elem_of_elements. }
  rewrite Hincr. cbn [mbind res_bind mret res_ret].
  by exists counts', mcounts'.
Qed.

Lemma count_molecules_spec ms : forall counts mcounts seen,
  (forall m a, m ∈ ms -> a ∈ GetAtoms m -> GetStringData tag a ∈ names) ->
  counted tag names counts seen ->
  (forall ty, ty ∈ names -> is_Some (mcounts !! ty)) ->
  exists counts' mcounts',
    foldlM (count_molecule tag) (counts, mcounts) ms = inr (counts', mcounts') /\
    counted tag names counts' (seen ++ ms ≫= GetAtoms).
Proof.
  induction ms as [|m ms IH]; intros counts mcounts seen Hlabels Hcounted Hm.
  - exists counts, mcounts. by rewrite app_nil_r.
  - cbn [foldlM].
    destruct (count_molecule_spec m counts mcounts seen)
      as (counts' & mcounts' & Hone & Hc & Hm'); [|done|done|].
    { intros a Ha. apply (Hlabels m a); [left|done]. }
    rewrite Hone. cbn [mbind res_bind].
    destruct (IH counts' mcounts' (seen ++ GetAtoms m)) as (c'' & mc'' & Hrest & Hc'');
      [|done|done|].
    { intros m0 a Hm0 Ha. apply (Hlabels m0 a); [by right|done]. }
    exists c'', mc''. split; [exact Hrest|].
    by rewrite bind_cons, app_assoc.
Qed.

End Statistics.

(** On molecules whose labels all are type names of the list,
    [compute_type_statistics] raises nothing, and the atom count of every
    type name is the number of atoms that bear it. *)
Lemma compute_type_statistics_spec self typelist ms :
  (forall m a, m ∈ ms -> a ∈ GetAtoms m ->
               GetStringData (typetag self) a ∈ snd <$> typelist) ->
  exists counts mcounts,
    compute_type_statistics self typelist ms = inr (counts, mcounts) /\
    forall ty, ty ∈ snd <$> typelist ->
               counts !! ty = Some (count_label (typetag self) ty ms).
Proof.
  intros Hlabels. unfold compute_type_statistics.
  destruct (count_molecules_spec (typetag self) (snd <$> typelist) ms
              (foldl (fun d '(smarts, typename) => <[typename := 0]> d) ∅ typelist)
              (foldl (fun d '(smarts, typename) => <[typename := 0]> d) ∅ typelist)
              [] Hlabels)
    as (counts & mcounts & Hfold & Hc).
  - intros ty Hty. rewrite zero_counts by (by left). done.
  - intros ty Hty. rewrite zero_counts by (by left). by eexists.
  - exists counts, mcounts. split; [exact Hfold|].
    intros ty Hty. by rewrite (Hc ty Hty).
Qed.

(** *** The refine move after the duplicate test *)

Lemma list_insert_at_before {A} (i k : nat) (x : A) (l : list A) :
  k < i -> k < length l -> list_insert_at i x l !! k = l !! k.
Proof.
  intros Hk Hl. unfold list_insert_at.
  rewrite lookup_app_l by (rewrite length_take; lia). by apply lookup_take_lt.
Qed.

Lemma list_insert_at_here {A} (i : nat) (x : A) (l : list A) :
  i <= length l -> list_insert_at i x l !! i = Some x.
Proof.
  intros Hi. unfold list_insert_at.
  rewrite lookup_app_r by (rewrite length_take; lia).
  by rewrite length_take_le, Nat.sub_diag by done.
Qed.

Lemma list_insert_at_after {A} (i k : nat) (x : A) (l : list A) :
  i <= length l -> i <= k -> list_insert_at i x l !! (S k) = l !! k.
Proof.
  intros Hi Hk. unfold list_insert_at.
  rewrite lookup_app_r by (rewrite length_take; lia).
  rewrite length_take_le by done.
  replace (S k - i) with (S (k - i)) by lia.
  change ((x :: drop i l) !! S (k - i)) with (drop i l !! (k - i)).
  rewrite lookup_drop. f_equal. lia.
Qed.

Lemma validate_refine_calls self atomtype_index atomtype_typename
    proposed_atomtype proposed_typename :
  exists r rest,
    validate_refine self atomtype_index atomtype_typename
                    proposed_atomtype proposed_typename =
    (r, Call_type_molecules
          (list_insert_at (atomtype_index + 1) (proposed_atomtype, proposed_typename)
                          (atomtypes self)) :: rest).
Proof. unfold validate_refine. rewrite bind_tell. by eexists _, _. Qed.

Lemma validate_refine_unused self atomtype_index atomtype_typename
    proposed_atomtype proposed_typename pm :
  let pa := list_insert_at (atomtype_index + 1) (proposed_atomtype, proposed_typename)
                           (atomtypes self) in
  type_molecules self pa (molecules self) = (pm, None) ->
  proposed_typename ∈ snd <$> pa ->
  atomtype_typename ∈ snd <$> pa ->
  count_label (typetag self) proposed_typename pm = 0 \/
  count_label (typetag self) atomtype_typename pm = 0 ->
  validate_refine self atomtype_index atomtype_typename
                  proposed_atomtype proposed_typename =
  (inr None, [Call_type_molecules pa; Call_compute_type_statistics pa]).
Proof.
  intros pa Htype Hnew Hparent Hzero. unfold validate_refine. fold pa.
  rewrite bind_tell, Htype, bind_tell.
  destruct (compute_type_statistics_spec self pa pm
              (type_molecules_labels self pa (molecules self) pm Htype))
    as (counts & mcounts & Hstats & Hcounts).
  rewrite Hstats. bind_ret_step. unfold getitem.
  rewrite (Hcounts _ Hnew). bind_ret_step.
  rewrite (Hcounts _ Hparent). bind_ret_step.
  by destruct (decide (_ \/ _)).
Qed.

(** C5. In a refine move that passes the duplicate test, the new rule
    (the parent pattern and the decorator joined by [&], the two type
    names joined by a space) stands immediately after the parent in the
    proposed list, the rules before and after keeping their order; the
    typing engine is run on that list; and when the typing raises nothing
    and no atom bears the new type name, or no atom bears the parent's,
    the step returns [False] with the sampler unchanged and the scorer
    not called. *)
Theorem refine_inserts_after_parent (self : AtomTypeSampler) (d : Draws)
    (ds : list (string * string)) (atomtype_index decorator_index : nat)
    (atomtype atomtype_typename decorator decorator_typename inner : string) :
  ~ (move d < 1 / 2)%R ->
  decorators self = Some ds ->
  randint0 (length (atomtypes self)) (atomtype_draw d) = inr atomtype_index ->
  randint0 (length ds) (decorator_draw d) = inr decorator_index ->
  atomtypes self !! atomtype_index = Some (atomtype, atomtype_typename) ->
  ds !! decorator_index = Some (decorator, decorator_typename) ->
  re_match_bracket atomtype = Some inner ->
  let proposed_atomtype := "[" +:+ inner +:+ "&" +:+ decorator +:+ "]" in
  let proposed_typename := atomtype_typename +:+ " " +:+ decorator_typename in
  proposed_atomtype ∉ fst <$> atomtypes self ->
  let proposed_atomtypes :=
    list_insert_at (atomtype_index + 1) (proposed_atomtype, proposed_typename)
                   (atomtypes self) in
  (proposed_atomtypes !! atomtype_index = Some (atomtype, atomtype_typename) /\
   proposed_atomtypes !! (atomtype_index + 1) =
     Some (proposed_atomtype, proposed_typename) /\
   (forall k, k <= atomtype_index -> proposed_atomtypes !! k = atomtypes self !! k) /\
   (forall k, atomtype_index < k ->
              proposed_atomtypes !! (S k) = atomtypes self !! k)) /\
  (exists rest,
      snd (sample_atomtypes self d) = Call_type_molecules proposed_atomtypes :: rest) /\
  (forall pm,
      type_molecules self proposed_atomtypes (molecules self) = (pm, None) ->
      count_label (typetag self) proposed_typename pm = 0 \/
      count_label (typetag self) atomtype_typename pm = 0 ->
      sample_atomtypes self d =
        (inr (false, self),
         [Call_type_molecules proposed_atomtypes;
          Call_compute_type_statistics proposed_atomtypes])).
Proof.
  intros Hmove Hdec Hi Hd Ha Hdeco Hre proposed_atomtype proposed_typename Hfresh pa.
  pose proof (randint0_lt _ _ _ Hi) as Hlt.
  assert (forall k, k <= atomtype_index -> pa !! k = atomtypes self !! k) as Hbefore.
  { intros k Hk. apply list_insert_at_before; lia. }
  assert (pa !! (atomtype_index + 1) = Some (proposed_atomtype, proposed_typename))
    as Hhere by (apply list_insert_at_here; lia).
  assert (propose self d =
          validate_refine self atomtype_index atomtype_typename
                          proposed_atomtype proposed_typename) as Hpropose.
  { rewrite (propose_refine_move _ _ _ Hmove Hdec). unfold propose_refine.
    rewrite (refine_candidate_eq _ _ _ _ _ _ _ _ _ _ Hi Hd Ha Hdeco Hre).
    bind_ret_step. fold proposed_atomtype. fold proposed_typename.
    destruct (decide (proposed_atomtype ∈ _)) as [Hin|_]; [|done].
    destruct Hfresh. by apply elem_of_list_to_set in Hin. }
  split_and!.
  - by rewrite Hbefore, Ha.
  - done.
  - done.
  - intros k Hk. replace (atomtype_index + 1) with (S atomtype_index) in * by lia.
    apply list_insert_at_after; lia.
  - rewrite sample_atomtypes_unfold, Hpropose.
    destruct (validate_refine_calls self atomtype_index atomtype_typename
                proposed_atomtype proposed_typename) as (r & rest & ->).
    fold pa. destruct r as [e|[[pa' pm']|]]; by eexists.
  - intros pm Htype Hzero.
    rewrite sample_atomtypes_unfold, Hpropose.
    rewrite (validate_refine_unused self atomtype_index atomtype_typename
               proposed_atomtype proposed_typename pm Htype); [done| | |done].
    + apply list_elem_of_fmap. exists (proposed_atomtype, proposed_typename).
      split; [done|]. apply list_elem_of_lookup. by exists (atomtype_index + 1).
    + apply list_elem_of_fmap. exists (atomtype, atomtype_typename).
      split; [done|]. apply list_elem_of_lookup. exists atomtype_index.
      fold pa. by rewrite Hbefore, Ha.
Qed.

(** *** The scorer on a labeling scored against itself *)

Lemma foldl_invariant {A B} (P : B -> Prop) (f : B -> A -> B) (l : list A) :
  (forall b x, x ∈ l -> P b -> P (f b x)) -> forall b, P b -> P (foldl f b l).
Proof.
  induction l as [|x l IH]; intros Hstep b Hb; [done|]. cbn [foldl].
  apply IH; [intros; apply Hstep; [by right|done]|]. apply Hstep; [left|done].
Qed.

Lemma foldlM_invariant {A B} (P : B -> Prop) (f : B -> A -> res B) (l : list A) :
  (forall b x b', x ∈ l -> P b -> f b x = inr b' -> P b') ->
  forall b b', P b -> foldlM f b l = inr b' -> P b'.
Proof.
  induction l as [|x l IH]; intros Hstep b b' Hb Hfold.
  - by injection Hfold as <-.
  - cbn [foldlM] in Hfold. destruct (f b x) as [e|b1] eqn:Hf; [done|].
    cbn [mbind res_bind] in Hfold.
    eapply IH; [|by eapply (Hstep b x b1); [left|..]|exact Hfold].
    intros; eapply Hstep; [by right|done..].
Qed.

Lemma Forall2_zip_elem {A B} (R : A -> B -> Prop) l k x y :
  Forall2 R l k -> (x, y) ∈ zip l k -> R x y.
Proof.
  induction 1 as [|a b l k Hab _ IH]; cbn [zip zip_with]; intros Hin.
  - by apply elem_of_nil in Hin.
  - apply elem_of_cons in Hin as [[= -> ->]|Hin]; [done|by apply IH].
Qed.

Lemma offdiag0_incr common c common' :
  offdiag0 common -> incr common (c, c) = inr common' -> offdiag0 common'.
Proof.
  intros Hoff Hincr. unfold incr, getitem in Hincr.
  destruct (common !! (c, c)) as [n|]; [|done].
  injection Hincr as <-. intros c1 r1 n1 Hne Hlook.
  rewrite lookup_insert_ne in Hlook by congruence. by eapply Hoff.
Qed.

Lemma atoms_in_common_offdiag self current reference_types ms refs common :
  same_type_names (typetag self) ms refs ->
  atoms_in_common self current reference_types ms refs = inr common ->
  offdiag0 common.
Proof.
  intros Hsame. unfold atoms_in_common.
  apply (foldlM_invariant offdiag0).
  - intros d [m ref] d' Hin Hd. apply (foldlM_invariant offdiag0); [|done].
    intros d1 [a b] d2 Hin' Hd1.
    pose proof (Forall2_zip_elem _ _ _ _ _ Hsame Hin) as Hatoms. cbn beta in Hatoms.
    rewrite (Forall2_zip_elem _ _ _ _ _ Hatoms Hin').
    by apply offdiag0_incr.
  - assert (forall k n,
      foldl (fun d current_atomtype =>
               foldl (fun d reference_atomtype =>
                        <[(current_atomtype, reference_atomtype) := 0]> d)
                     d reference_types)
            (∅ : gmap (string * string) nat) current !! k = Some n -> n = 0) as Hzero.
    { apply (foldl_invariant (fun d : gmap (string * string) nat =>
                                forall k n, d !! k = Some n -> n = 0)).
      - intros d c _ Hd.
        apply (foldl_invariant (fun d : gmap (string * string) nat =>
                                  forall k n, d !! k = Some n -> n = 0)); [|done].
        intros d1 r _ Hd1 k n.
        destruct (decide ((c, r) = k)) as [<-|Hne].
        + rewrite lookup_insert_eq. congruence.
        + rewrite lookup_insert_ne by done. apply Hd1.
      - intros k n. by rewrite lookup_empty. }
    intros c r n _. apply Hzero.
Qed.

Lemma offdiag0_graph_add_node g n : offdiag0_graph g -> offdiag0_graph (add_node g n).
Proof.
  intros Hg. unfold add_node. destruct (g !! n) eqn:Hn; [exact Hg|].
  intros u v adj w Hne Hu Hv. destruct (decide (n = u)) as [->|Hnu].
  - rewrite lookup_insert_eq in Hu. injection Hu as <-. by rewrite lookup_empty in Hv.
  - rewrite lookup_insert_ne in Hu by done. exact (Hg u v adj w Hne Hu Hv).
Qed.

Lemma offdiag0_graph_set g u0 v0 w0 :
  offdiag0_graph g -> (u0 <> v0 -> w0 = 0) ->
  offdiag0_graph (<[u0 := <[v0 := w0]> (default ∅ (g !! u0))]> g).
Proof.
  intros Hg Hw u v adj w Hne Hu Hv. destruct (decide (u0 = u)) as [->|Hnu].
  - rewrite lookup_insert_eq in Hu. injection Hu as <-.
    destruct (decide (v0 = v)) as [->|Hnv].
    + rewrite lookup_insert_eq in Hv. injection Hv as <-. by apply Hw.
    + rewrite lookup_insert_ne in Hv by done.
      destruct (g !! u) as [adj|] eqn:Hgu; simpl in Hv.
      * exact (Hg u v adj w Hne Hgu Hv).
      * by rewrite lookup_empty in Hv.
  - rewrite lookup_insert_ne in Hu by done. exact (Hg u v adj w Hne Hu Hv).
Qed.

Lemma offdiag0_graph_add_edge g u v w :
  offdiag0_graph g -> (u <> v -> w = 0) -> offdiag0_graph (add_edge g u v w).
Proof.
  intros Hg Hw. unfold add_edge.
  apply offdiag0_graph_set; [|intros Hne; apply Hw; congruence].
  apply offdiag0_graph_set; [|done].
  by do 2 apply offdiag0_graph_add_node.
Qed.

Lemma match_graph_offdiag current reference_types common graph :
  offdiag0 common ->
  match_graph current reference_types common = inr graph ->
  offdiag0_graph graph.
Proof.
  intros Hcommon. unfold match_graph. apply (foldlM_invariant offdiag0_graph).
  - intros g c g' _ Hg. apply (foldlM_invariant offdiag0_graph); [|done].
    intros g1 r g2 _ Hg1. unfold getitem.
    destruct (common !! (c, r)) as [weight|] eqn:Hweight; [|done].
    cbn [mbind res_bind mret res_ret]. intros [= <-].
    apply offdiag0_graph_add_edge; [done|]. intros Hne. exact (Hcommon c r weight Hne Hweight).
  - apply (foldl_invariant offdiag0_graph);
      [intros; by apply offdiag0_graph_add_node|].
    apply (foldl_invariant offdiag0_graph);
      [intros; by apply offdiag0_graph_add_node|].
    intros u v adj w _ Hu. by rewrite lookup_empty in Hu.
Qed.

Lemma match_table_zero graph mate current :
  offdiag0_graph graph ->
  (forall v w, mate !! v = Some w -> v <> w) ->
  forall table total, match_table graph mate current = inr (table, total) -> total = 0.
Proof.
  intros Hg Hmate table total Htable. unfold match_table in Htable.
  apply (foldlM_invariant
           (fun acc : list (string * option string * option nat) * nat => acc.2 = 0)
           _ _) in Htable; [done| |done].
  intros [acc n] c [acc' n'] _ Hn. cbn [snd] in *. subst n.
  destruct (mate !! c) as [r|] eqn:Hr; [|by intros [= _ <-]].
  unfold edge_weight, getitem.
  destruct (graph !! c) as [adj|] eqn:Hc; [|done]. cbn [mbind res_bind mret res_ret].
  destruct (adj !! r) as [counts|] eqn:Hadj; [|done]. cbn [mbind res_bind mret res_ret].
  intros [= _ <-]. by rewrite (Hg c r adj counts (Hmate c r Hr) Hc Hadj).
Qed.

Lemma foldlM_success {A B} (P : B -> Prop) (f : B -> A -> res B) (l : list A) :
  (forall b x, x ∈ l -> P b -> exists b', f b x = inr b' /\ P b') ->
  forall b, P b -> exists b', foldlM f b l = inr b' /\ P b'.
Proof.
  induction l as [|x l IH]; intros Hstep b Hb; [by exists b|].
  cbn [foldlM]. destruct (Hstep b x) as (b1 & Hf & Hb1); [left|done|].
  rewrite Hf. cbn [mbind res_bind].
  apply IH; [|done]. intros b0 y Hy. apply Hstep. by right.
Qed.

Lemma zero_row_keys c (rs : list string) k : forall d : gmap (string * string) nat,
  is_Some (d !! k) \/ (exists r, r ∈ rs /\ k = (c, r)) ->
  is_Some (foldl (fun d r => <[(c, r) := 0]> d) d rs !! k).
Proof.
  induction rs as [|r rs IH]; intros d Hk; cbn [foldl].
  - destruct Hk as [?|(r & Hr & _)]; [done|by apply elem_of_nil in Hr].
  - apply IH. destruct (decide ((c, r) = k)) as [<-|Hne].
    + left. rewrite lookup_insert_eq. by eexists.
    + rewrite lookup_insert_ne by done.
      destruct Hk as [?|(r' & Hr' & ->)]; [by left|].
      apply elem_of_cons in Hr' as [->|Hr']; [done|]. right. by exists r'.
Qed.

Lemma zero_table_keys (cs rs : list string) k : forall d : gmap (string * string) nat,
  is_Some (d !! k) \/ (exists c r, c ∈ cs /\ r ∈ rs /\ k = (c, r)) ->
  is_Some (foldl (fun d c => foldl (fun d r => <[(c, r) := 0]> d) d rs) d cs !! k).
Proof.
  induction cs as [|c cs IH]; intros d Hk; cbn [foldl].
  - destruct Hk as [?|(c & r & Hc & _)]; [done|by apply elem_of_nil in Hc].
  - apply IH. destruct Hk as [?|(c' & r & Hc' & Hr & ->)].
    + left. apply zero_row_keys. by left.
    + apply elem_of_cons in Hc' as [->|Hc'].
      * left. apply zero_row_keys. right. by exists r.
      * right. by exists c', r.
Qed.

Lemma atoms_in_common_success self current reference_types ms refs :
  (forall m a, m ∈ ms -> a ∈ GetAtoms m -> GetStringData (typetag self) a ∈ current) ->
  (forall ref b, ref ∈ refs -> b ∈ GetAtoms ref -> GetType b ∈ reference_types) ->
  exists common,
    atoms_in_common self current reference_types ms refs = inr common /\
    has_keys current reference_types common.
Proof.
  intros Hlabels Htypes. unfold atoms_in_common.
  apply (foldlM_success (has_keys current reference_types)).
  - intros d [m ref] Hin Hd.
    apply (foldlM_success (has_keys current reference_types)); [|done].
    intros d1 [a b] Hin' Hd1.
    destruct (Hd1 (GetStringData (typetag self) a) (GetType b)) as [n Hn].
    { eapply Hlabels; [by eapply elem_of_zip_l|by eapply elem_of_zip_l]. }
    { eapply Htypes; [by eapply elem_of_zip_r|by eapply elem_of_zip_r]. }
    rewrite (incr_Some _ _ _ Hn). eexists; split; [done|].
    intros c r Hc Hr. destruct (decide ((GetStringData (typetag self) a, GetType b) = (c, r)))
      as [<-|Hne].
    + rewrite lookup_insert_eq. by eexists.
    + rewrite lookup_insert_ne by done. by apply Hd1.
  - intros c r Hc Hr. apply zero_table_keys. right. by exists c, r.
Qed.

Lemma match_graph_success current reference_types common :
  has_keys current reference_types common ->
  exists graph, match_graph current reference_types common = inr graph.
Proof.
  intros Hkeys. unfold match_graph.
  destruct (foldlM_success (fun _ : gmap string (gmap string nat) => True)
              (fun g current_atomtype =>
                 foldlM (fun g reference_atomtype =>
                           weight ← getitem common (current_atomtype, reference_atomtype);
                           mret (add_edge g current_atomtype reference_atomtype weight))
                        g reference_types)
              current) with (b := foldl add_node (foldl add_node ∅ current) reference_types)
    as (graph & Hgraph & _); [|done|by exists graph].
  intros g c Hc _.
  apply (foldlM_success (fun _ : gmap string (gmap string nat) => True)); [|done].
  intros g1 r Hr _. destruct (Hkeys c r Hc Hr) as [weight Hweight].
  unfold getitem. rewrite Hweight. by eexists.
Qed.

Lemma match_table_success graph mate current :
  (forall v w, mate !! v = Some w ->
     exists adj weight, graph !! v = Some adj /\ adj !! w = Some weight) ->
  exists r, match_table graph mate current = inr r.
Proof.
  intros Hmate. unfold match_table.
  destruct (foldlM_success
              (fun _ : list (string * option string * option nat) * nat => True)
              (fun '(atom_type_matches, total) current_atomtype =>
                 match mate !! current_atomtype with
                 | Some reference_atomtype =>
                     counts ← edge_weight graph current_atomtype reference_atomtype;
                     mret (atom_type_matches
                             ++ [(current_atomtype, Some reference_atomtype, Some counts)],
                           total + counts)
                 | None =>
                     mret (atom_type_matches ++ [(current_atomtype, None, None)], total)
                 end)
              current) with (b := ([] : list (string * option string * option nat), 0))
    as (r & Hr & _); [|done|by exists r].
  intros [acc n] c _ _. destruct (mate !! c) as [r|] eqn:Hr; [|by eexists].
  destruct (Hmate c r Hr) as (adj & weight & Hadj & Hweight).
  unfold edge_weight, getitem. rewrite Hadj. cbn [mbind res_bind mret res_ret].
  rewrite Hweight. by eexists.
Qed.

(** C7, on the code. When the matching is a matching of the graph (it
    pairs a name only with a neighbour, and never with itself), the
    current labels are type names of the rule list, the reference types
    are those recorded at construction, and the current labels are, atom
    by atom, the reference type names, [best_match_reference_types]
    returns the total 0, whatever the number of atoms: the current and
    the reference names are the same nodes of the graph, the atoms in
    common sit on self-loops, and every edge between two distinct names
    has weight 0. *)
Theorem self_score_is_zero (self : AtomTypeSampler)
    (typelist : list (string * string)) (ms refs : list Mol) :
  no_self_mate ->
  mate_in_graph ->
  reference_typed_molecules self = Some refs ->
  (forall m a, m ∈ ms -> a ∈ GetAtoms m ->
               GetStringData (typetag self) a ∈ snd <$> typelist) ->
  (forall ref b, ref ∈ refs -> b ∈ GetAtoms ref ->
                 GetType b ∈ reference_atomtypes self) ->
  same_type_names (typetag self) ms refs ->
  exists table, best_match_reference_types self typelist ms = inr (Some (table, 0)).
Proof.
  intros Hself Hedges Href Hlabels Htypes Hsame.
  unfold best_match_reference_types. rewrite Href.
  destruct (atoms_in_common_success self (snd <$> typelist) (reference_atomtypes self)
              ms refs Hlabels Htypes) as (common & Hcommon & Hkeys).
  rewrite Hcommon. cbn [mbind res_bind].
  destruct (match_graph_success _ _ _ Hkeys) as [graph Hgraph].
  rewrite Hgraph. cbn [mbind res_bind].
  destruct (match_table_success graph (max_weight_matching graph) (snd <$> typelist)
              (Hedges graph)) as [[table total] Htable].
  rewrite Htable. cbn [mbind res_bind mret res_ret].
  exists table. do 3 f_equal.
  eapply match_table_zero; [| |exact Htable].
  - eapply match_graph_offdiag; [|exact Hgraph].
    by eapply atoms_in_common_offdiag.
  - intros v w. apply Hself.
Qed.

(** *** The reader of type lists *)

(** C8, as the code has it. [read_typelist] raises on a file that does
    not exist and on nothing else: on a file that exists it returns the
    pairs of the lines that, the comment stripped, split into exactly two
    tokens, in file order; every other line (blank or not) is skipped
    without an error. Without a file name it returns [None]. *)
Theorem read_typelist_skips_other_lines (fs : gmap string string) (f : string) :
  match fs !! f with
  | None =>
      read_typelist fs (Some f) = inl (Exception ("File '" +:+ f +:+ "' not found."))
  | Some text =>
      exists typelist,
        read_typelist fs (Some f) = inr (Some typelist) /\
        typelist =
          omap (fun line => match split (strip_comment line) with
                            | [smarts; typename] => Some (smarts, typename)
                            | _ => None
                            end) (readlines text) /\
        forall smarts typename,
          (smarts, typename) ∈ typelist <->
          exists line, line ∈ readlines text /\
                       split (strip_comment line) = [smarts; typename]
  end /\
  read_typelist fs None = inr None.
Proof.
  split; [|done]. unfold read_typelist. destruct (fs !! f) as [text|]; [|done].
  eexists; split; [reflexivity|].
  assert (readlines text ≫= parse_line =
          omap (fun line => match split (strip_comment line) with
                            | [smarts; typename] => Some (smarts, typename)
                            | _ => None
                            end) (readlines text)) as Homap.
  { induction (readlines text) as [|line lines IH]; [done|].
    rewrite bind_cons, IH. cbn [omap list_omap]. unfold parse_line.
    by destruct (split (strip_comment line)) as [|s1 [|s2 [|s3 rest]]]. }
  split; [done|].
  intros smarts typename. rewrite list_elem_of_bind. unfold parse_line. split.
  - intros (line & Hpair & Hline). exists line. split; [done|].
    destruct (split (strip_comment line)) as [|s1 [|s2 [|s3 rest]]];
      try by apply elem_of_nil in Hpair.
    by apply list_elem_of_singleton in Hpair as [= -> ->].
  - intros (line & Hline & Hsplit). exists line. rewrite Hsplit.
    split; [by apply list_elem_of_singleton|done].
Qed.

(** ** Further properties *)

(** *** The reader of type lists: tokens, round trip, comments *)

Lemma string_app_cons (x : ascii) (a b : string) :
  String x a +:+ b = String x (a +:+ b).
Proof. reflexivity. Qed.

Lemma string_app_nil_l (b : string) : "" +:+ b = b.
Proof. reflexivity. Qed.

Lemma string_app_assoc (a b c : string) : (a +:+ b) +:+ c = a +:+ (b +:+ c).
Proof.
  induction a as [|x a IH]; [done|]. by rewrite !string_app_cons, IH.
Qed.

Lemma string_app_nil_r (a : string) : a +:+ "" = a.
Proof. induction a as [|x a IH]; [done|]. by rewrite string_app_cons, IH. Qed.

Lemma string_forall_app p (s t : string) :
  string_forall p (s +:+ t) = andb (string_forall p s) (string_forall p t).
Proof.
  induction s as [|c s IH]; [done|]. rewrite string_app_cons. cbn.
  rewrite IH. by destruct (p c).
Qed.

Lemma string_forall_and p q (s : string) :
  string_forall (fun c => andb (p c) (q c)) s
  = andb (string_forall p s) (string_forall q s).
Proof.
  induction s as [|c s IH]; [done|]. cbn. rewrite IH.
  destruct (p c), (q c), (string_forall p s); done.
Qed.

Lemma string_forall_impl (p q : ascii -> bool) (s : string) :
  (forall c, p c = true -> q c = true) ->
  string_forall p s = true -> string_forall q s = true.
Proof.
  intros Hpq. induction s as [|c s IH]; [done|]. cbn.
  intros [Hc Hs]%andb_true_iff. by rewrite (Hpq c Hc), IH.
Qed.

Lemma split_go_forall p (s : string) : forall cur,
  string_forall p cur = true -> string_forall p s = true ->
  Forall (fun t => string_forall p t = true) (split_go cur s).
Proof.
  induction s as [|c s IH]; intros cur Hcur Hs; cbn.
  - destruct (decide (cur = "")); by repeat constructor.
  - cbn in Hs. apply andb_true_iff in Hs as [Hc Hs].
    destruct (is_whitespace c).
    + destruct (decide (cur = "")); [by apply IH|].
      constructor; [done|]. by apply IH.
    + apply IH; [|done]. rewrite string_forall_app, Hcur. cbn. by rewrite Hc.
Qed.

Lemma split_go_words (s : string) : forall cur,
  string_forall (fun c => negb (is_whitespace c)) cur = true ->
  Forall (fun t => t <> "" /\
                   string_forall (fun c => negb (is_whitespace c)) t = true)
         (split_go cur s).
Proof.
  induction s as [|c s IH]; intros cur Hcur; cbn.
  - destruct (decide (cur = "")); by repeat constructor.
  - destruct (is_whitespace c) eqn:Hc.
    + destruct (decide (cur = "")); [by apply IH|].
      constructor; [done|]. by apply IH.
    + apply IH. rewrite string_forall_app, Hcur. cbn. by rewrite Hc.
Qed.

Lemma strip_comment_no_percent (line : string) :
  string_forall (fun c => negb (Ascii.eqb c percent)) (strip_comment line) = true.
Proof.
  induction line as [|c line IH]; [done|]. cbn.
  destruct (Ascii.eqb c percent) eqn:Hc; [done|]. cbn. by rewrite Hc, IH.
Qed.

Lemma split_tokens (line : string) :
  Forall (fun t => is_token t = true) (split (strip_comment line)).
Proof.
  unfold split.
  pose proof (split_go_words (strip_comment line) "" eq_refl) as Hwords.
  pose proof (split_go_forall (fun c => negb (Ascii.eqb c percent))
                (strip_comment line) "" eq_refl (strip_comment_no_percent line))
    as Hpercent.
  rewrite Forall_forall in *. intros t Ht.
  destruct (Hwords t Ht) as [Hne Hws]. specialize (Hpercent t Ht).
  unfold is_token, token_char. rewrite string_forall_and, Hws, Hpercent.
  by rewrite bool_decide_eq_false_2.
Qed.

Lemma read_typelist_Forall_tokens (fs : gmap string string) (f : string)
    (typelist : list (string * string)) :
  read_typelist fs (Some f) = inr (Some typelist) ->
  Forall (fun rule => is_token rule.1 = true /\ is_token rule.2 = true) typelist.
Proof.
  unfold read_typelist. destruct (fs !! f) as [text|]; [|done].
  intros [= <-]. apply Forall_forall. intros [smarts typename] Hin.
  apply list_elem_of_bind in Hin as (line & Hin & _). unfold parse_line in Hin.
  pose proof (split_tokens line) as Htokens.
  destruct (split (strip_comment line)) as [|s1 [|s2 [|s3 rest]]];
    try by apply elem_of_nil in Hin.
  apply list_elem_of_singleton in Hin as [= -> ->].
  apply Forall_cons in Htokens as [H1 Htokens].
  apply Forall_cons in Htokens as [H2 _]. done.
Qed.

(** X1. Every rule that [read_typelist] returns has a pattern and a type
    name that are non-empty and contain neither whitespace nor [%]. *)
Theorem read_typelist_tokens (fs : gmap string string) (f : string)
    (typelist : list (string * string)) :
  read_typelist fs (Some f) = inr (Some typelist) ->
  Forall (fun rule => is_token rule.1 = true /\ is_token rule.2 = true) typelist.
Proof. apply read_typelist_Forall_tokens. Qed.

Lemma is_token_spec (s : string) :
  is_token s = true ->
  s <> "" /\
  string_forall (fun c => negb (is_whitespace c)) s = true /\
  string_forall (fun c => negb (Ascii.eqb c percent)) s = true /\
  string_forall (fun c => negb (Ascii.eqb c newline)) s = true.
Proof.
  unfold is_token, token_char. rewrite string_forall_and.
  intros [Hne [Hws Hp]%andb_true_iff]%andb_true_iff.
  apply negb_true_iff, bool_decide_eq_false in Hne. split_and!; try done.
  eapply string_forall_impl; [|exact Hws]. intros c Hc.
  destruct (Ascii.eqb c newline) eqn:Hnl; [|done].
  apply Ascii.eqb_eq in Hnl. by subst c.
Qed.

Lemma readlines_line (l rest : string) :
  string_forall (fun c => negb (Ascii.eqb c newline)) l = true ->
  readlines (l +:+ String newline rest)
  = (l +:+ String newline EmptyString) :: readlines rest.
Proof.
  induction l as [|c l IH]; [done|]. rewrite !string_app_cons.
  cbn [readlines string_forall].
  intros [Hc Hl]%andb_true_iff. apply negb_true_iff in Hc. rewrite Hc.
  by rewrite (IH Hl).
Qed.

Lemma strip_comment_id (s : string) :
  string_forall (fun c => negb (Ascii.eqb c percent)) s = true ->
  strip_comment s = s.
Proof.
  induction s as [|c s IH]; [done|]. cbn.
  intros [Hc Hs]%andb_true_iff. apply negb_true_iff in Hc. by rewrite Hc, IH.
Qed.

Lemma split_go_word (w rest : string) : forall cur,
  string_forall (fun c => negb (is_whitespace c)) w = true ->
  split_go cur (w +:+ rest) = split_go (cur +:+ w) rest.
Proof.
  induction w as [|c w IH]; intros cur Hw.
  - by rewrite string_app_nil_r.
  - cbn in Hw. apply andb_true_iff in Hw as [Hc Hw]. apply negb_true_iff in Hc.
    rewrite string_app_cons. cbn [split_go].
    rewrite Hc, (IH _ Hw), string_app_assoc. done.
Qed.

Lemma split_rule_line (smarts typename : string) :
  is_token smarts = true -> is_token typename = true ->
  split (rule_line (smarts, typename)) = [smarts; typename].
Proof.
  intros (Hs & Hsw & _)%is_token_spec (Ht & Htw & _)%is_token_spec.
  unfold split, rule_line; cbn [fst snd].
  rewrite (split_go_word smarts _ "" Hsw), string_app_nil_l.
  rewrite string_app_cons, string_app_nil_l. cbn [split_go].
  change (is_whitespace " ") with true. cbv iota.
  destruct (decide (smarts = "")); [done|]. f_equal.
  rewrite (split_go_word typename _ "" Htw), string_app_nil_l. cbn [split_go].
  change (is_whitespace newline) with true. cbv iota.
  by destruct (decide (typename = "")).
Qed.

Lemma parse_rule_line (smarts typename : string) :
  is_token smarts = true -> is_token typename = true ->
  parse_line (rule_line (smarts, typename)) = [(smarts, typename)].
Proof.
  intros Hs Ht. unfold parse_line.
  rewrite strip_comment_id; [by rewrite split_rule_line|].
  destruct (is_token_spec _ Hs) as (_ & _ & Hsp & _).
  destruct (is_token_spec _ Ht) as (_ & _ & Htp & _).
  unfold rule_line; cbn [fst snd].
  rewrite !string_forall_app, Hsp, Htp. done.
Qed.

Lemma readlines_rule_file (typelist : list (string * string)) :
  Forall (fun rule => is_token rule.1 = true /\ is_token rule.2 = true) typelist ->
  readlines (rule_file typelist) = rule_line <$> typelist.
Proof.
  induction 1 as [|[smarts typename] typelist [Hs Ht] _ IH]; [done|].
  cbn [rule_file foldr fmap list_fmap]. fold (rule_file typelist).
  destruct (is_token_spec _ Hs) as (_ & _ & _ & Hsn).
  destruct (is_token_spec _ Ht) as (_ & _ & _ & Htn).
  cbn [fst snd] in *. unfold rule_line at 1; cbn [fst snd].
  replace ((smarts +:+ " " +:+ typename +:+ String newline "") +:+ rule_file typelist)
    with ((smarts +:+ " " +:+ typename) +:+ String newline (rule_file typelist))
    by (by rewrite !string_app_assoc).
  rewrite readlines_line.
  - rewrite IH. f_equal. unfold rule_line; cbn [fst snd].
    by rewrite !string_app_assoc.
  - rewrite !string_forall_app, Hsn, Htn. done.
Qed.

(** X2. A file that holds one line [pattern typename] per rule, each
    ended by a newline, is read back as exactly these rules in their
    order, when the patterns and type names are tokens (non-empty, free
    of whitespace and of [%]). *)
Theorem read_typelist_round_trip (fs : gmap string string) (f : string)
    (typelist : list (string * string)) :
  Forall (fun rule => is_token rule.1 = true /\ is_token rule.2 = true) typelist ->
  fs !! f = Some (rule_file typelist) ->
  read_typelist fs (Some f) = inr (Some typelist).
Proof.
  intros Htokens Hfile. unfold read_typelist. rewrite Hfile.
  rewrite (readlines_rule_file _ Htokens). do 2 f_equal. clear Hfile.
  induction Htokens as [|[smarts typename] typelist [Hs Ht] _ IH]; [done|].
  cbn [fst snd] in Hs, Ht.
  rewrite fmap_cons, bind_cons, IH. by rewrite (parse_rule_line _ _ Hs Ht).
Qed.

Lemma strip_comment_app_percent (line comment : string) :
  strip_comment (line +:+ String percent comment) = strip_comment line.
Proof.
  induction line as [|c line IH]; [done|]. rewrite string_app_cons.
  cbn [strip_comment]. destruct (Ascii.eqb c percent); [done|]. by rewrite IH.
Qed.

Lemma split_go_blank (s : string) :
  string_forall is_whitespace s = true -> split_go "" s = [].
Proof.
  induction s as [|c s IH]; [done|]. cbn.
  intros [Hc Hs]%andb_true_iff. rewrite Hc. by apply IH.
Qed.

(** X3. What follows the first [%] of a line is not read: a line and the
    same line with a comment appended give the same rules; a line that is
    blank up to its comment gives none. *)
Theorem parse_line_ignores_comment (line comment : string) :
  parse_line (line +:+ String percent comment) = parse_line line /\
  (string_forall is_whitespace (strip_comment line) = true -> parse_line line = []).
Proof.
  split.
  - unfold parse_line. by rewrite strip_comment_app_percent.
  - intros Hblank. unfold parse_line, split. by rewrite split_go_blank.
Qed.

(** *** The typing engine: the labels in closed form, coverage *)

Lemma length_typed self mol :
  length (GetAtoms (typed self mol)) = length (GetAtoms mol).
Proof.
  pose proof (f_equal (fun m => length (GetAtoms m)) (skeleton_typed self mol)) as Hlen.
  simpl in Hlen. by rewrite !length_fmap in Hlen.
Qed.

Lemma label_typed self mol j :
  Match_ignores (pattyTag self) ->
  label (pattyTag self) (typed self mol) j
  = const (type_of (smartsList self) (perceived self mol) j) <$> GetAtoms mol !! j.
Proof.
  intros Hframe. unfold typed, type_of.
  rewrite (label_rules (pattyTag self) (smartsList self) (perceived self mol) j
             Hframe (perceived self mol) eq_refl).
  rewrite label_perceived.
  destruct (winner None (smartsList self) (perceived self mol) j); [|done].
  by destruct (GetAtoms mol !! j).
Qed.

Lemma getTypeList_typed self mol :
  Match_ignores (pattyTag self) ->
  getTypeList self (typed self mol)
  = type_of (smartsList self) (perceived self mol) <$> seq 0 (length (GetAtoms mol)).
Proof.
  intros Hframe. apply list_eq; intros j. unfold getTypeList.
  rewrite !list_lookup_fmap.
  change (GetStringData (pattyTag self) <$> GetAtoms (typed self mol) !! j)
    with (label (pattyTag self) (typed self mol) j).
  rewrite (label_typed self mol j Hframe).
  destruct (decide (j < length (GetAtoms mol))) as [Hlt|Hge].
  - rewrite lookup_seq_lt by done.
    destruct (lookup_lt_is_Some_2 _ _ Hlt) as [a ->]. done.
  - rewrite lookup_seq_ge by lia. by rewrite lookup_ge_None_2 by lia.
Qed.

(** X4. Whether [assignTypes] raises or not, [getTypeList] on the
    molecule it leaves gives, atom by atom, the type name of the last rule
    whose pattern covers the atom, and the empty string for an atom that
    no pattern covers; the list has one entry per atom. *)
Theorem getTypeList_after_assignTypes (self : AtomTyper) (mol : Mol) :
  Match_ignores (pattyTag self) ->
  getTypeList self (fst (assignTypes self mol))
  = type_of (smartsList self) (perceived self mol) <$> seq 0 (length (GetAtoms mol)).
Proof. intros Hframe. rewrite assignTypes_fst. by apply getTypeList_typed. Qed.

Lemma covered_snoc rows row m j :
  covered (rows ++ [row]) m j = orb (covered rows m j) (covers row.1.1 m j).
Proof. unfold covered. rewrite existsb_app. simpl. by rewrite orb_false_r. Qed.

Lemma winner_None_covered rows m j :
  winner None rows m j = None <-> covered rows m j = false.
Proof.
  induction rows as [|row rows IH] using rev_ind; [done|].
  rewrite winner_snoc, covered_snoc.
  destruct (covers row.1.1 m j); [by rewrite orb_true_r|].
  by rewrite orb_false_r.
Qed.

Lemma winner_Some_row rows m j type :
  winner None rows m j = Some type -> type ∈ (fun row => row.1.2) <$> rows.
Proof.
  intros Hw. destruct (winner_last _ _ _ _ Hw) as (k & pat & smarts & Hk & _).
  apply list_elem_of_fmap. exists (pat, type, smarts). split; [done|].
  apply list_elem_of_lookup. by exists k.
Qed.

Lemma type_of_covered rows m j :
  (forall row, row ∈ rows -> row.1.2 <> "") ->
  type_of rows m j <> "" <-> covered rows m j = true.
Proof.
  intros Hnames. unfold type_of.
  destruct (winner None rows m j) as [type|] eqn:Hw; simpl.
  - assert (covered rows m j = true) as ->.
    { destruct (covered rows m j) eqn:Hc; [done|].
      apply winner_None_covered in Hc. congruence. }
    split; [done|]. intros _ ->.
    apply winner_Some_row, list_elem_of_fmap in Hw as (row & Heq & Hin).
    by apply (Hnames row Hin).
  - apply winner_None_covered in Hw. rewrite Hw. done.
Qed.

Lemma unassigned_None_iff tag m :
  unassigned tag m = None <->
  Forall (fun type => type <> "") (GetStringData tag <$> GetAtoms m).
Proof.
  unfold unassigned. split.
  - intros Hnone. apply Forall_forall. intros type Hin.
    apply list_elem_of_fmap in Hin as (a & -> & Hin).
    apply list_elem_of_lookup in Hin as [j Hj].
    pose proof (find_index_None _ _ Hnone j a Hj) as Hp. simpl in Hp.
    by apply bool_decide_eq_false in Hp.
  - intros Hall.
    destruct (find_index _ (GetAtoms m)) as [i|] eqn:Hfind; [|done].
    destruct (find_index_Some _ _ _ Hfind) as [(a & Ha & Hp) _].
    apply bool_decide_eq_true in Hp. rewrite Forall_forall in Hall.
    destruct (Hall (GetStringData tag a)); [|done].
    apply list_elem_of_fmap. exists a. split; [done|].
    apply list_elem_of_lookup. by exists i.
Qed.

Lemma assignTypes_snd_None self mol :
  snd (assignTypes self mol) = None <->
  unassigned (pattyTag self) (typed self mol) = None.
Proof. unfold assignTypes. by destruct (unassigned _ _). Qed.

Lemma assignTypes_success_type_of self mol :
  Match_ignores (pattyTag self) ->
  snd (assignTypes self mol) = None <->
  forall j, j < length (GetAtoms mol) ->
            type_of (smartsList self) (perceived self mol) j <> "".
Proof.
  intros Hframe. rewrite assignTypes_snd_None, unassigned_None_iff.
  change (GetStringData (pattyTag self) <$> GetAtoms (typed self mol))
    with (getTypeList self (typed self mol)).
  rewrite (getTypeList_typed self mol Hframe), Forall_fmap, Forall_forall.
  split.
  - intros Hall j Hj. apply Hall. apply elem_of_seq. lia.
  - intros Hall j Hj. apply Hall. apply elem_of_seq in Hj. lia.
Qed.

Lemma assignTypes_covered_success self mol :
  Match_ignores (pattyTag self) ->
  (forall row, row ∈ smartsList self -> row.1.2 <> "") ->
  (forall j, j < length (GetAtoms mol) ->
             covered (smartsList self) (perceived self mol) j = true) ->
  snd (assignTypes self mol) = None.
Proof.
  intros Hframe Hnames Hall. apply (assignTypes_success_type_of self mol Hframe).
  intros j Hj. apply (type_of_covered _ _ _ Hnames). by apply Hall.
Qed.

(** X5. With type names that are not empty, [assignTypes] raises nothing
    exactly when every atom of the molecule is covered by the pattern of
    some rule: the order of the rules and their type names decide the
    labels, not whether the typing succeeds. *)
Theorem assignTypes_succeeds_iff_covered (self : AtomTyper) (mol : Mol) :
  Match_ignores (pattyTag self) ->
  (forall row, row ∈ smartsList self -> row.1.2 <> "") ->
  snd (assignTypes self mol) = None <->
  forall j, j < length (GetAtoms mol) ->
            covered (smartsList self) (perceived self mol) j = true.
Proof.
  intros Hframe Hnames. rewrite (assignTypes_success_type_of self mol Hframe).
  split; intros Hall j Hj; apply (type_of_covered _ _ _ Hnames); by apply Hall.
Qed.

(** X6. When the pattern of the last rule covers every atom and its type
    name is not empty, [assignTypes] raises nothing and every atom bears
    that type name, whatever the rules before it: a catch-all rule placed
    last hides all the others. *)
Theorem catch_all_last_rule_wins (self : AtomTyper) (mol : Mol)
    (rows : list (string * string * string)) (pat type smarts : string) :
  Match_ignores (pattyTag self) ->
  smartsList self = rows ++ [(pat, type, smarts)] ->
  type <> "" ->
  (forall j, j < length (GetAtoms mol) -> covers pat (perceived self mol) j = true) ->
  snd (assignTypes self mol) = None /\
  getTypeList self (fst (assignTypes self mol))
  = replicate (length (GetAtoms mol)) type.
Proof.
  intros Hframe Hrows Htype Hall.
  assert (forall j, j < length (GetAtoms mol) ->
                    type_of (smartsList self) (perceived self mol) j = type) as Hty.
  { intros j Hj. unfold type_of. rewrite Hrows, winner_snoc. simpl.
    by rewrite (Hall j Hj). }
  split.
  - apply (assignTypes_success_type_of self mol Hframe).
    intros j Hj. by rewrite (Hty j Hj).
  - rewrite assignTypes_fst, (getTypeList_typed self mol Hframe).
    apply list_eq; intros j. rewrite list_lookup_fmap.
    destruct (decide (j < length (GetAtoms mol))) as [Hlt|Hge].
    + rewrite lookup_seq_lt, lookup_replicate_2 by done. simpl. by rewrite Hty.
    + rewrite lookup_seq_ge by lia. symmetry. apply lookup_replicate_None. lia.
Qed.

(** *** More rules never break the typing *)

Lemma covered_true_iff rows m j :
  covered rows m j = true <-> exists row, row ∈ rows /\ covers row.1.1 m j = true.
Proof.
  unfold covered. rewrite existsb_exists. split.
  - intros (row & Hin & Hc). exists row. by rewrite list_elem_of_In.
  - intros (row & Hin & Hc). exists row. by rewrite <- list_elem_of_In.
Qed.

Lemma type_loop_snd_None atomtyper ms :
  snd (type_loop atomtyper ms) = None <->
  Forall (fun mol => snd (assignTypes atomtyper mol) = None) ms.
Proof.
  induction ms as [|molecule ms IH]; [by split; [constructor|]|].
  cbn [type_loop]. rewrite Forall_cons, <- IH.
  destruct (assignTypes atomtyper molecule) as [m [e|]]; cbn [snd].
  - split; [done|]. by intros [? _].
  - destruct (type_loop atomtyper ms) as [ms' e]; cbn [snd]. by split; [|intros [_ ?]].
Qed.

Lemma type_loop_exception atomtyper ms e :
  snd (type_loop atomtyper ms) = Some e -> exists m atom, e = TypingException m atom.
Proof.
  induction ms as [|molecule ms IH]; [done|]. cbn [type_loop].
  unfold assignTypes at 1.
  destruct (unassigned (pattyTag atomtyper) (typed atomtyper molecule)) as [atom|].
  - intros [= <-]. by eexists _, _.
  - destruct (type_loop atomtyper ms) as [ms' e']; cbn [snd] in *. done.
Qed.

Lemma smartsList_init typelist tag repl :
  smartsList (AtomTyper_init typelist tag repl)
  = (fun rule => (OESmartsLexReplace rule.1 (bindings_of repl), rule.2,
                  OESmartsLexReplace rule.1 (bindings_of repl))) <$> typelist.
Proof.
  unfold AtomTyper_init; simpl. apply list_fmap_ext. by intros _ [smarts typename] _.
Qed.

Lemma assignTypes_more_rules self self' mol :
  Match_ignores (pattyTag self) ->
  pattyTag self' = pattyTag self ->
  (forall row, row ∈ smartsList self' -> row.1.2 <> "") ->
  (forall row, row ∈ smartsList self ->
     exists row', row' ∈ smartsList self' /\ row'.1.1 = row.1.1) ->
  snd (assignTypes self mol) = None -> snd (assignTypes self' mol) = None.
Proof.
  intros Hframe Htag Hnames Hincl Hok.
  assert (perceived self' mol = perceived self mol) as Hper
    by (unfold perceived; by rewrite Htag).
  apply assignTypes_covered_success; [by rewrite Htag|done|].
  intros j Hj. rewrite Hper.
  pose proof (proj1 (assignTypes_success_type_of self mol Hframe) Hok j Hj) as Hty.
  unfold type_of in Hty.
  destruct (winner None (smartsList self) (perceived self mol) j) as [type|] eqn:Hw;
    [|done].
  destruct (covered (smartsList self) (perceived self mol) j) eqn:Hc;
    [|apply winner_None_covered in Hc; congruence].
  apply covered_true_iff in Hc as (row & Hin & Hcov).
  destruct (Hincl row Hin) as (row' & Hin' & Hpat).
  apply covered_true_iff. exists row'. by rewrite Hpat.
Qed.

Lemma type_molecules_monotone (self : AtomTypeSampler)
    (typelist typelist' : list (string * string)) (ms : list Mol) :
  Match_ignores (typetag self) ->
  (forall rule, rule ∈ typelist' -> rule.2 <> "") ->
  (forall rule, rule ∈ typelist ->
     exists rule', rule' ∈ typelist' /\ rule'.1 = rule.1) ->
  snd (type_molecules self typelist ms) = None ->
  snd (type_molecules self typelist' ms) = None.
Proof.
  intros Hframe Hnames Hincl. unfold type_molecules.
  rewrite !type_loop_snd_None. intros Hok.
  eapply Forall_impl; [exact Hok|]. intros mol.
  apply assignTypes_more_rules; [done|done| |].
  - intros row. rewrite smartsList_init.
    intros (rule & -> & Hin)%list_elem_of_fmap. simpl. by apply Hnames.
  - intros row. rewrite !smartsList_init.
    intros (rule & -> & Hin)%list_elem_of_fmap.
    destruct (Hincl rule Hin) as (rule' & Hin' & Hpat).
    eexists. split; [apply list_elem_of_fmap; by exists rule'|].
    simpl. by rewrite Hpat.
Qed.

(** X7. A corpus that one rule list types without a [TypingException] is
    typed without one by every rule list that holds at least the same
    patterns and no empty type name: inserting, duplicating or reordering
    rules never makes [type_molecules] raise. *)
Theorem type_molecules_more_rules (self : AtomTypeSampler)
    (typelist typelist' : list (string * string)) (ms : list Mol) :
  Match_ignores (typetag self) ->
  (forall rule, rule ∈ typelist' -> rule.2 <> "") ->
  (forall rule, rule ∈ typelist ->
     exists rule', rule' ∈ typelist' /\ rule'.1 = rule.1) ->
  snd (type_molecules self typelist ms) = None ->
  snd (type_molecules self typelist' ms) = None.
Proof. apply type_molecules_monotone. Qed.

(** *** What a step returns *)

Lemma fst_bind {A B} (f : A -> traced B) (x : traced A) :
  fst (mbind f x) = match fst x with inl e => inl e | inr a => fst (f a) end.
Proof. unfold mbind, traced_bind. by destruct (fst x). Qed.

Lemma list_remove_Permutation `{EqDecision A} (x : A) (l : list A) : forall l',
  list_remove x l = inr l' -> l ≡ₚ x :: l'.
Proof.
  induction l as [|y l IH]; intros l'; cbn [list_remove]; [done|].
  destruct (decide (x = y)) as [->|Hne]; [by intros [= ->]|].
  destruct (list_remove x l) as [e|l'']; cbn [mbind res_bind mret res_ret]; [done|].
  intros [= <-]. rewrite (IH l'' eq_refl). apply Permutation_swap.
Qed.

Lemma list_remove_inr `{EqDecision A} (x : A) (l : list A) :
  x ∈ l -> exists l', list_remove x l = inr l'.
Proof.
  induction l as [|y l IH]; [by intros ?%elem_of_nil|]. cbn [list_remove].
  destruct (decide (x = y)) as [->|Hne]; [by eexists|].
  intros [->|Hin]%elem_of_cons; [done|].
  destruct (IH Hin) as (l' & ->). by eexists.
Qed.

Lemma type_loop_nonempty atomtyper : forall ms ms',
  type_loop atomtyper ms = (ms', None) ->
  forall m' a, m' ∈ ms' -> a ∈ GetAtoms m' ->
  GetStringData (pattyTag atomtyper) a <> "".
Proof.
  induction ms as [|molecule ms IH]; intros ms' Hloop m' a Hm' Ha.
  - injection Hloop as <-. by apply elem_of_nil in Hm'.
  - cbn [type_loop] in Hloop.
    destruct (assignTypes atomtyper molecule) as [m [e|]] eqn:Hassign; [done|].
    destruct (type_loop atomtyper ms) as [ms'' e'] eqn:Hrest.
    injection Hloop as <- ->.
    apply elem_of_cons in Hm' as [->|Hm']; [|by eapply IH].
    destruct (assignTypes_None atomtyper molecule m Hassign) as [_ Hnonempty].
    apply list_elem_of_lookup in Ha as [j Hj]. by eapply Hnonempty.
Qed.

Lemma type_molecules_nonempty self typelist ms ms' :
  type_molecules self typelist ms = (ms', None) ->
  forall m' a, m' ∈ ms' -> a ∈ GetAtoms m' -> GetStringData (typetag self) a <> "".
Proof.
  exact (type_loop_nonempty
           (AtomTyper_init typelist (typetag self) (replacements self)) ms ms').
Qed.

Lemma propose_destroy_Some self d pa pm :
  fst (propose_destroy self d) = inr (Some (pa, pm)) ->
  exists rule, list_remove rule (atomtypes self) = inr pa /\
               type_molecules self pa (molecules self) = (pm, None).
Proof.
  unfold propose_destroy. rewrite fst_bind. cbn [lift fst].
  destruct (randint0 _ _) as [e|i]; [done|].
  rewrite fst_bind. cbn [lift fst]. unfold getindex.
  destruct (atomtypes self !! i) as [[atomtype typename]|]; [|done].
  cbn [mret res_ret]. rewrite fst_bind. cbn [lift fst].
  destruct (list_remove _ _) as [e|pa'] eqn:Hrm; [done|].
  rewrite fst_bind. cbn [tell fst].
  destruct (type_molecules self pa' (molecules self)) as [pm' [e|]] eqn:Ht.
  - by destruct e.
  - intros [= <- <-]. eauto.
Qed.

Lemma refine_candidate_inr self ds d i parent_typename pat typename :
  refine_candidate self ds d = inr (i, parent_typename, pat, typename) ->
  exists atomtype decorator decorator_typename inner,
    atomtypes self !! i = Some (atomtype, parent_typename) /\
    (decorator, decorator_typename) ∈ ds /\
    re_match_bracket atomtype = Some inner /\
    pat = "[" +:+ inner +:+ "&" +:+ decorator +:+ "]" /\
    typename = parent_typename +:+ " " +:+ decorator_typename.
Proof.
  unfold refine_candidate, getindex.
  destruct (randint0 _ (atomtype_draw d)) as [e|i']; [done|].
  cbn [mbind res_bind].
  destruct (randint0 _ (decorator_draw d)) as [e|k]; [done|].
  cbn [mbind res_bind].
  destruct (atomtypes self !! i') as [[atomtype atomtype_typename]|] eqn:Hi; [|done].
  cbn [mbind res_bind mret res_ret].
  destruct (ds !! k) as [[decorator decorator_typename]|] eqn:Hk; [|done].
  cbn [mbind res_bind mret res_ret].
  destruct (re_match_bracket atomtype) as [inner|] eqn:Hre; [|done].
  cbn [mbind res_bind mret res_ret].
  intros [= <- <- <- <-]. exists atomtype, decorator, decorator_typename, inner.
  split_and!; [done|by eapply list_elem_of_lookup_2|done..].
Qed.

Lemma validate_refine_Some self i parent_typename pat typename pa pm :
  fst (validate_refine self i parent_typename pat typename) = inr (Some (pa, pm)) ->
  pa = list_insert_at (i + 1) (pat, typename) (atomtypes self) /\
  type_molecules self pa (molecules self) = (pm, None) /\
  exists counts mcounts n_new n_parent,
    compute_type_statistics self pa pm = inr (counts, mcounts) /\
    counts !! typename = Some n_new /\ n_new <> 0 /\
    counts !! parent_typename = Some n_parent /\ n_parent <> 0.
Proof.
  unfold validate_refine. rewrite fst_bind. cbn [tell fst].
  destruct (type_molecules self _ (molecules self)) as [pm' [e|]] eqn:Ht;
    [by destruct e|].
  rewrite fst_bind. cbn [tell fst]. rewrite fst_bind. cbn [lift fst].
  destruct (compute_type_statistics self _ pm') as [e|[counts mcounts]] eqn:Hstat;
    [done|].
  rewrite fst_bind. cbn [lift fst]. unfold getitem.
  destruct (counts !! typename) as [n_new|] eqn:Hnew; [|done].
  cbn [mret res_ret]. rewrite fst_bind. cbn [lift fst].
  destruct (counts !! parent_typename) as [n_parent|] eqn:Hparent; [|done].
  cbn [mret res_ret].
  destruct (decide (n_new = 0 ∨ n_parent = 0)) as [|Hused]; [done|].
  intros [= <- <-]. split_and!; [done..|].
  exists counts, mcounts, n_new, n_parent. split_and!; [done..|tauto|done|tauto].
Qed.

Lemma propose_refine_Some self ds d pa pm :
  fst (propose_refine self ds d) = inr (Some (pa, pm)) ->
  exists i parent_typename pat typename,
    refine_candidate self ds d = inr (i, parent_typename, pat, typename) /\
    (pat ∉ fst <$> atomtypes self) /\
    fst (validate_refine self i parent_typename pat typename) = inr (Some (pa, pm)).
Proof.
  unfold propose_refine. rewrite fst_bind. cbn [lift fst].
  destruct (refine_candidate self ds d) as [e|[[[i parent_typename] pat] typename]];
    [done|].
  destruct (decide (pat ∈ (list_to_set (fst <$> atomtypes self) : gset string)))
    as [|Hnew]; [done|].
  intros Hv. exists i, parent_typename, pat, typename.
  split_and!; [done| |done]. by rewrite elem_of_list_to_set in Hnew.
Qed.

Lemma propose_Some self d pa pm :
  fst (propose self d) = inr (Some (pa, pm)) ->
  exists ds, decorators self = Some ds /\
    if decide (move d < 1 / 2)%R
    then fst (propose_destroy self d) = inr (Some (pa, pm))
    else fst (propose_refine self ds d) = inr (Some (pa, pm)).
Proof.
  unfold propose. rewrite fst_bind. cbn [lift fst].
  destruct (decorators self) as [ds|]; [|done]. cbn [mret res_ret].
  intros Hp. exists ds. split; [done|]. by destruct (decide (move d < 1 / 2)%R).
Qed.

Lemma decide_proposal_inr self d pa pm accepted self' :
  fst (decide_proposal self d pa pm) = inr (accepted, self') ->
  (accepted = false /\ self' = self) \/
  (accepted = true /\
   exists matches total,
     best_match_reference_types self pa pm = inr (Some (matches, total)) /\
     self' = accept self pa pm matches total).
Proof.
  unfold decide_proposal. rewrite fst_bind. cbn [tell fst].
  rewrite fst_bind. cbn [lift fst].
  destruct (best_match_reference_types self pa pm) as [e|[[matches total]|]];
    [done| |done].
  rewrite fst_bind. cbn [lift fst].
  destruct (total_atom_type_matches self) as [current|]; [|done].
  cbn [mret res_ret]. rewrite fst_bind. cbn [lift fst].
  destruct (metropolis _ _ _ _) as [e|[|]]; [done| |].
  - intros [= <- <-]. right. split; [done|]. by exists matches, total.
  - intros [= <- <-]. by left.
Qed.

Lemma sample_atomtypes_inr self d accepted self' :
  fst (sample_atomtypes self d) = inr (accepted, self') ->
  (accepted = false /\ self' = self) \/
  (accepted = true /\
   exists pa pm matches total,
     fst (propose self d) = inr (Some (pa, pm)) /\
     best_match_reference_types self pa pm = inr (Some (matches, total)) /\
     self' = accept self pa pm matches total).
Proof.
  unfold sample_atomtypes. rewrite fst_bind.
  destruct (fst (propose self d)) as [e|[[pa pm]|]] eqn:Hp; [done| |].
  - intros [Hrej|(-> & matches & total & Hscore & ->)]%decide_proposal_inr;
      [by left|].
    right. split; [done|]. by exists pa, pm, matches, total.
  - intros [= <- <-]. by left.
Qed.

(** A proposal that reaches the scorer is the typing of the sampler's
    molecules by the proposed list, which is the sampler's list without
    one of its rules or with one rule more. *)
Lemma propose_valid self d pa pm :
  fst (propose self d) = inr (Some (pa, pm)) ->
  type_molecules self pa (molecules self) = (pm, None) /\
  if decide (move d < 1 / 2)%R
  then exists rule, list_remove rule (atomtypes self) = inr pa
  else exists i rule, pa = list_insert_at i rule (atomtypes self).
Proof.
  intros (ds & Hds & Hp)%propose_Some.
  destruct (decide (move d < 1 / 2)%R).
  - apply propose_destroy_Some in Hp as (rule & Hrm & Ht). eauto.
  - apply propose_refine_Some in Hp as (i & ptn & pat & tn & _ & _ & Hv).
    apply validate_refine_Some in Hv as (-> & Ht & _). eauto.
Qed.

Lemma elem_of_list_insert_at {A} (i : nat) (x y : A) (l : list A) :
  y ∈ list_insert_at i x l <-> y = x \/ y ∈ l.
Proof.
  unfold list_insert_at. rewrite elem_of_app, elem_of_cons.
  rewrite <- (take_drop i l) at 3. rewrite elem_of_app. tauto.
Qed.

Lemma length_list_insert_at {A} (i : nat) (x : A) (l : list A) :
  length (list_insert_at i x l) = S (length l).
Proof.
  unfold list_insert_at. rewrite length_app. cbn [length].
  rewrite <- (take_drop i l) at 3. rewrite length_app. lia.
Qed.

Lemma best_match_accept self pa pm matches total typelist ms :
  best_match_reference_types (accept self pa pm matches total) typelist ms
  = best_match_reference_types self typelist ms.
Proof. reflexivity. Qed.

Lemma skeleton_type_molecules self typelist ms ms' e :
  type_molecules self typelist ms = (ms', e) ->
  skeleton (typetag self) <$> ms' = skeleton (typetag self) <$> ms.
Proof.
  intros Ht.
  pose proof (skeleton_type_loop
                (AtomTyper_init typelist (typetag self) (replacements self)) ms) as Hsk.
  unfold type_molecules in Ht. by rewrite Ht in Hsk.
Qed.

(** X8. A step that returns [False] leaves the sampler as it was; a step
    that returns [True] has removed one rule of the list (destroy move) or
    inserted one rule whose pattern is new (refine move).  No step changes
    the tag, the decorators, the replacements, the temperature, the
    reference or the atom total, and the molecules keep everything but
    their labels and aromaticity flags. *)
Theorem step_changes_one_rule (self : AtomTypeSampler) (d : Draws)
    (accepted : bool) (self' : AtomTypeSampler) :
  fst (sample_atomtypes self d) = inr (accepted, self') ->
  same_setup self self' /\
  (accepted = false -> self' = self) /\
  (accepted = true -> (move d < 1 / 2)%R ->
     (exists rule, rule ∈ atomtypes self /\
                   list_remove rule (atomtypes self) = inr (atomtypes self')) /\
     S (length (atomtypes self')) = length (atomtypes self)) /\
  (accepted = true -> ~ (move d < 1 / 2)%R ->
     (exists i rule, (rule.1 ∉ fst <$> atomtypes self) /\
                     atomtypes self' = list_insert_at i rule (atomtypes self)) /\
     length (atomtypes self') = S (length (atomtypes self))).
Proof.
  intros [[-> ->]|(-> & pa & pm & matches & total & Hp & Hscore & ->)]%sample_atomtypes_inr.
  { split_and!; [by repeat split|done|done|done]. }
  pose proof (propose_valid self d pa pm Hp) as [Ht _].
  split_and!.
  - repeat split. cbn [accept molecules typetag].
    by eapply skeleton_type_molecules.
  - done.
  - intros _ Hmove. apply propose_Some in Hp as (ds & Hds & Hp).
    destruct (decide (move d < 1 / 2)%R); [|done].
    apply propose_destroy_Some in Hp as (rule & Hrm & _).
    pose proof (list_remove_Permutation _ _ _ Hrm) as Hperm.
    cbn [accept atomtypes]. split.
    + exists rule. split; [|done]. rewrite Hperm. by left.
    + by rewrite Hperm.
  - intros _ Hmove. apply propose_Some in Hp as (ds & Hds & Hp).
    destruct (decide (move d < 1 / 2)%R); [done|].
    apply propose_refine_Some in Hp as (i & ptn & pat & tn & _ & Hnew & Hv).
    apply validate_refine_Some in Hv as (-> & _ & _).
    cbn [accept atomtypes]. split; [|by apply length_list_insert_at].
    by exists (i + 1), (pat, tn).
Qed.

(** X9. Steps keep the sampler's molecules typed: if every atom bears a
    non-empty type name of the rule list before a step that returns, so
    it does after it. *)
Theorem step_keeps_molecules_typed (self : AtomTypeSampler) (d : Draws)
    (accepted : bool) (self' : AtomTypeSampler) :
  typed_state self ->
  fst (sample_atomtypes self d) = inr (accepted, self') ->
  typed_state self'.
Proof.
  intros Hinv
    [[-> ->]|(-> & pa & pm & matches & total & Hp & Hscore & ->)]%sample_atomtypes_inr;
    [done|].
  pose proof (propose_valid self d pa pm Hp) as [Ht _].
  intros m a Hm Ha. cbn [accept molecules typetag atomtypes] in *. split.
  - by eapply type_molecules_nonempty.
  - by eapply type_molecules_labels.
Qed.

(** X10. Steps keep the stored score in step with the stored state: if
    the stored matches and total are what the scorer returns on the
    sampler's rule list and molecules before a step that returns, so they
    are after it. *)
Theorem step_keeps_score (self : AtomTypeSampler) (d : Draws)
    (accepted : bool) (self' : AtomTypeSampler) :
  scored self ->
  fst (sample_atomtypes self d) = inr (accepted, self') ->
  scored self'.
Proof.
  intros Hinv
    [[-> ->]|(-> & pa & pm & matches & total & Hp & Hscore & ->)]%sample_atomtypes_inr;
    [done|].
  exists matches, total. split_and!; [done..|].
  cbn [accept atomtypes molecules]. by rewrite best_match_accept.
Qed.

Lemma typename_not_empty (parent decorator : string) :
  parent +:+ " " +:+ decorator <> "".
Proof.
  destruct parent; [rewrite string_app_nil_l|rewrite string_app_cons]; discriminate.
Qed.

(** X11. After an accepted refine move, the new rule stands right after
    its parent, its pattern is the parent's with a decorator joined by
    [&] inside the brackets, its name is the parent's name, a space and
    the decorator's name, and in the newly typed molecules at least one
    atom bears the new name and at least one still bears the parent's. *)
Theorem accepted_refinement_is_used (self : AtomTypeSampler) (d : Draws)
    (self' : AtomTypeSampler) :
  ~ (move d < 1 / 2)%R ->
  fst (sample_atomtypes self d) = inr (true, self') ->
  exists i parent decorator inner,
    atomtypes self !! i = Some parent /\
    (exists ds, decorators self = Some ds /\ decorator ∈ ds) /\
    re_match_bracket parent.1 = Some inner /\
    let child := ("[" +:+ inner +:+ "&" +:+ decorator.1 +:+ "]",
                  parent.2 +:+ " " +:+ decorator.2) in
    atomtypes self' = list_insert_at (i + 1) child (atomtypes self) /\
    count_label (typetag self) child.2 (molecules self') <> 0 /\
    count_label (typetag self) parent.2 (molecules self') <> 0.
Proof.
  intros Hmove
    [[? _]|(_ & pa & pm & matches & total & Hp & Hscore & ->)]%sample_atomtypes_inr;
    [done|].
  apply propose_Some in Hp as (ds & Hds & Hp).
  destruct (decide (move d < 1 / 2)%R); [done|].
  apply propose_refine_Some in Hp as (i & ptn & pat & tn & Hcand & Hnew & Hv).
  apply refine_candidate_inr in Hcand
    as (atomtype & decorator & dtn & inner & Hi & Hdec & Hre & -> & ->).
  apply validate_refine_Some in Hv
    as (-> & Ht & counts & mcounts & n_new & n_parent & Hstat & Hn & Hn0 & Hpn & Hp0).
  exists i, (atomtype, ptn), (decorator, dtn), inner.
  split_and!; [done|by exists ds|done|]. cbn [fst snd accept atomtypes molecules].
  split; [done|].
  destruct (compute_type_statistics_spec self _ pm (type_molecules_labels _ _ _ _ Ht))
    as (counts' & mcounts' & Hstat' & Hcount).
  rewrite Hstat in Hstat'. injection Hstat' as <- <-.
  split.
  - rewrite Hcount in Hn; [congruence|].
    apply list_elem_of_fmap. eexists (_, _). split; [done|].
    apply elem_of_list_insert_at. by left.
  - rewrite Hcount in Hpn; [congruence|].
    apply list_elem_of_fmap. exists (atomtype, ptn). split; [done|].
    apply elem_of_list_insert_at. right. by eapply list_elem_of_lookup_2.
Qed.

(** X12. When the current rules have non-empty names and type the
    sampler's molecules, the typing of a refine proposal never raises: the
    [TypingException] branch of the refine move is not taken. *)
Theorem refinement_typing_succeeds (self : AtomTypeSampler)
    (ds : list (string * string)) (d : Draws)
    (i : nat) (parent_typename pat typename : string) :
  Match_ignores (typetag self) ->
  (forall rule, rule ∈ atomtypes self -> rule.2 <> "") ->
  snd (type_molecules self (atomtypes self) (molecules self)) = None ->
  refine_candidate self ds d = inr (i, parent_typename, pat, typename) ->
  snd (type_molecules self
         (list_insert_at (i + 1) (pat, typename) (atomtypes self))
         (molecules self)) = None.
Proof.
  intros Hframe Hnames Hok Hcand.
  apply refine_candidate_inr in Hcand as (a & dec & dtn & inner & _ & _ & _ & _ & ->).
  apply (type_molecules_monotone self (atomtypes self)); [done| | |done].
  - intros rule [->|Hin]%elem_of_list_insert_at; [apply typename_not_empty|by apply Hnames].
  - intros rule Hin. exists rule. split; [|done].
    apply elem_of_list_insert_at. by right.
Qed.

(** *** The destroy move *)

Lemma propose_destroy_move self d ds :
  (move d < 1 / 2)%R -> decorators self = Some ds ->
  propose self d = propose_destroy self d.
Proof.
  intros Hmove Hdec. unfold propose. rewrite Hdec. bind_ret_step.
  by destruct (decide (move d < 1 / 2)%R).
Qed.

Lemma propose_destroy_eq self d i rule pa :
  randint0 (length (atomtypes self)) (atomtype_draw d) = inr i ->
  atomtypes self !! i = Some rule ->
  list_remove rule (atomtypes self) = inr pa ->
  propose_destroy self d =
  (match type_molecules self pa (molecules self) with
   | (pm, None) => inr (Some (pa, pm))
   | (_, Some (TypingException _ _)) => inr None
   | (_, Some e) => inl e
   end, [Call_type_molecules pa]).
Proof.
  intros Hrand Hi Hrm. unfold propose_destroy. rewrite Hrand. bind_ret_step.
  unfold getindex. rewrite Hi. destruct rule as [atomtype typename].
  bind_ret_step. rewrite Hrm. bind_ret_step. rewrite bind_tell.
  destruct (type_molecules self pa (molecules self)) as [pm [e|]]; [|done].
  by destruct e.
Qed.

(** X13. A destroy move whose removed rule leaves some atom of some
    molecule covered by no remaining pattern returns [False] after the one
    typing call: the sampler is unchanged and the scorer is not called.
    In particular the only rule of a list cannot be destroyed while a
    molecule has an atom. *)
Theorem destroy_uncovering_rejected (self : AtomTypeSampler) (d : Draws)
    (ds : list (string * string)) (i : nat) (rule : string * string)
    (pa : list (string * string)) (mol : Mol) (j : nat) :
  let atomtyper := AtomTyper_init pa (typetag self) (replacements self) in
  Match_ignores (typetag self) ->
  (move d < 1 / 2)%R -> decorators self = Some ds ->
  randint0 (length (atomtypes self)) (atomtype_draw d) = inr i ->
  atomtypes self !! i = Some rule ->
  list_remove rule (atomtypes self) = inr pa ->
  mol ∈ molecules self -> j < length (GetAtoms mol) ->
  covered (smartsList atomtyper) (perceived atomtyper mol) j = false ->
  sample_atomtypes self d = (inr (false, self), [Call_type_molecules pa]).
Proof.
  intros atomtyper Hframe Hmove Hds Hrand Hi Hrm Hmol Hj Hcov.
  rewrite sample_atomtypes_unfold, (propose_destroy_move self d ds Hmove Hds).
  rewrite (propose_destroy_eq self d i rule pa Hrand Hi Hrm).
  destruct (type_molecules self pa (molecules self)) as [pm [e|]] eqn:Ht.
  - destruct (type_loop_exception atomtyper (molecules self) e) as (m & atom & ->);
      [|done].
    unfold type_molecules in Ht. fold atomtyper in Ht. by rewrite Ht.
  - exfalso.
    assert (snd (type_loop atomtyper (molecules self)) = None) as Hok.
    { unfold type_molecules in Ht. fold atomtyper in Ht. by rewrite Ht. }
    apply type_loop_snd_None in Hok. rewrite Forall_forall in Hok.
    specialize (Hok mol Hmol).
    pose proof (proj1 (assignTypes_success_type_of atomtyper mol Hframe) Hok j Hj)
      as Hty.
    unfold type_of in Hty. apply winner_None_covered in Hcov. by rewrite Hcov in Hty.
Qed.

(** *** The constructor *)

Lemma atom_count_skeleton tag ms ms' :
  skeleton tag <$> ms' = skeleton tag <$> ms -> atom_count ms' = atom_count ms.
Proof.
  intros Hsk. unfold atom_count.
  assert (forall l : list Mol,
             length ∘ GetAtoms <$> l = length ∘ GetAtoms <$> (skeleton tag <$> l))
    as Hlen.
  { intros l. rewrite <- list_fmap_compose. apply list_fmap_ext.
    intros _ m _. simpl. by rewrite length_fmap. }
  by rewrite (Hlen ms'), (Hlen ms), Hsk.
Qed.

(** What [__init__] has done when it returns. *)
Lemma AtomTypeSampler_init_inr fs ms base decs repl reference temp verb self :
  AtomTypeSampler_init fs ms base decs repl reference temp verb = inr self ->
  exists typelist ds rs typed_ms,
    read_typelist fs base = inr (Some typelist) /\
    read_typelist fs decs = inr ds /\
    read_typelist fs repl = inr rs /\
    type_molecules self typelist ms = (typed_ms, None) /\
    self = mkSampler verb "atomtype" typelist ds rs typed_ms (atom_count typed_ms)
                     reference (reference_atomtypes self) temp
                     (atom_type_matches self) (total_atom_type_matches self) /\
    match reference with
    | None => atom_type_matches self = None /\ total_atom_type_matches self = None
    | Some refs =>
        reference_atomtypes self
          = elements (list_to_set (GetType <$> (refs ≫= GetAtoms)) : gset string) /\
        exists matches total,
          best_match_reference_types self typelist typed_ms
            = inr (Some (matches, total)) /\
          atom_type_matches self = Some matches /\
          total_atom_type_matches self = Some total
    end.
Proof.
  unfold AtomTypeSampler_init.
  destruct (read_typelist fs base) as [e|[typelist|]];
    cbn [mbind res_bind mret res_ret raise]; [discriminate| |].
  2:{ destruct (read_typelist fs decs) as [e|ds];
        cbn [mbind res_bind mret res_ret raise]; [discriminate|].
      destruct (read_typelist fs repl); discriminate. }
  destruct (read_typelist fs decs) as [e|ds];
    cbn [mbind res_bind mret res_ret raise]; [discriminate|].
  destruct (read_typelist fs repl) as [e|rs];
    cbn [mbind res_bind mret res_ret raise]; [discriminate|].
  destruct (type_molecules _ typelist ms) as [typed_ms [e|]] eqn:Ht;
    cbn [mbind res_bind mret res_ret raise]; [discriminate|].
  destruct (compute_type_statistics _ typelist typed_ms) as [e|stats];
    cbn [mbind res_bind mret res_ret raise]; [discriminate|].
  destruct reference as [refs|].
  - destruct (best_match_reference_types _ typelist typed_ms)
      as [e|[[matches total]|]] eqn:Hscore;
      cbn [mbind res_bind mret res_ret raise]; [discriminate| |discriminate].
    intros [= <-]. exists typelist, ds, rs, typed_ms.
    split_and!; [done..|]. by exists matches, total.
  - intros [= <-]. exists typelist, ds, rs, typed_ms. by split_and!.
Qed.

(** X14. A sampler that [__init__] returns (verbose output off) holds the
    rules of the base types file; its molecules are the given ones up to
    labels and aromaticity flags, and every atom bears a non-empty type
    name of these rules; [total_atoms] is the number of atoms of the
    given molecules; with reference molecules, the stored matches and
    total are the scorer's on this state. *)
Theorem init_establishes_state (fs : gmap string string) (ms : list Mol)
    (basetypes_filename decorators_filename replacements_filename : option string)
    (reference : option (list Mol)) (temp : R) (self : AtomTypeSampler) :
  AtomTypeSampler_init fs ms basetypes_filename decorators_filename
                       replacements_filename reference temp false = inr self ->
  read_typelist fs basetypes_filename = inr (Some (atomtypes self)) /\
  read_typelist fs decorators_filename = inr (decorators self) /\
  read_typelist fs replacements_filename = inr (replacements self) /\
  typetag self = "atomtype" /\
  temperature self = temp /\
  reference_typed_molecules self = reference /\
  skeleton "atomtype" <$> molecules self = skeleton "atomtype" <$> ms /\
  total_atoms self = atom_count ms /\
  typed_state self /\
  (is_Some reference -> scored self).
Proof.
  intros (typelist & ds & rs & typed_ms & Hbase & Hdecs & Hrepl & Ht & Hself & Href)
    %AtomTypeSampler_init_inr.
  assert (typetag self = "atomtype") as Htag by (by rewrite Hself).
  assert (atomtypes self = typelist) as Hat by (by rewrite Hself).
  assert (molecules self = typed_ms) as Hms by (by rewrite Hself).
  pose proof (skeleton_type_molecules _ _ _ _ _ Ht) as Hsk. rewrite Htag in Hsk.
  split_and!; try (rewrite Hself; done).
  - rewrite <- (atom_count_skeleton "atomtype" ms typed_ms Hsk). by rewrite Hself.
  - intros m a Hm Ha. rewrite Hat. rewrite Hms in Hm. split.
    + by eapply type_molecules_nonempty.
    + by eapply type_molecules_labels.
  - intros [refs ->]. destruct Href as (_ & matches & total & Hscore & Hm & Htot).
    exists matches, total. by rewrite Hat, Hms.
Qed.

(** *** The scorer *)

Lemma sum_list_append (l k : list nat) : sum_list (l ++ k) = sum_list l + sum_list k.
Proof. induction l as [|x l IH]; [done|]. cbn. rewrite IH. lia. Qed.

Lemma match_table_rows (graph : gmap string (gmap string nat))
    (mate : gmap string string) current : forall acc n acc' n',
  foldlM (fun '(atom_type_matches, total) current_atomtype =>
            match mate !! current_atomtype with
            | Some reference_atomtype =>
                counts ← edge_weight graph current_atomtype reference_atomtype;
                mret (atom_type_matches
                        ++ [(current_atomtype, Some reference_atomtype, Some counts)],
                      total + counts)
            | None =>
                mret (atom_type_matches ++ [(current_atomtype, None, None)], total)
            end)
         (acc, n) current = inr (acc', n') ->
  table_names acc' = table_names acc ++ current /\
  n' + table_total acc = n + table_total acc' /\
  (Forall (fun row => is_Some row.1.2 <-> is_Some row.2) acc ->
   Forall (fun row => is_Some row.1.2 <-> is_Some row.2) acc').
Proof.
  induction current as [|c current IH]; intros acc n acc' n' Hfold.
  - injection Hfold as <- <-. by rewrite app_nil_r.
  - cbn [foldlM] in Hfold.
    destruct (mate !! c) as [r|].
    + destruct (edge_weight graph c r) as [e|counts]; [done|].
      cbn [mbind res_bind mret res_ret] in Hfold.
      apply IH in Hfold as (Hnames & Htotal & Hrows).
      unfold table_names, table_total in *.
      rewrite fmap_app, sum_list_append in Htotal. rewrite fmap_app in Hnames.
      cbn in Htotal, Hnames. rewrite <- app_assoc in Hnames.
      split_and!; [done|lia|].
      intros Hacc. apply Hrows. apply Forall_app. split; [done|].
      apply Forall_singleton. by split.
    + cbn [mbind res_bind mret res_ret] in Hfold.
      apply IH in Hfold as (Hnames & Htotal & Hrows).
      unfold table_names, table_total in *.
      rewrite fmap_app, sum_list_append in Htotal. rewrite fmap_app in Hnames.
      cbn in Htotal, Hnames. rewrite <- app_assoc in Hnames.
      split_and!; [done|lia|].
      intros Hacc. apply Hrows. apply Forall_app. split; [done|].
      apply Forall_singleton. split; by intros [? ?].
Qed.

Lemma best_match_table self typelist ms matches total :
  best_match_reference_types self typelist ms = inr (Some (matches, total)) ->
  table_names matches = snd <$> typelist /\
  total = table_total matches /\
  Forall (fun row => is_Some row.1.2 <-> is_Some row.2) matches.
Proof.
  unfold best_match_reference_types.
  destruct (reference_typed_molecules self) as [refs|]; [|done].
  destruct (atoms_in_common _ _ _ _ _) as [e|common]; [done|].
  cbn [mbind res_bind].
  destruct (match_graph _ _ _) as [e|graph]; [done|]. cbn [mbind res_bind].
  destruct (match_table _ _ _) as [e|[matches' total']] eqn:Htable; [done|].
  cbn [mbind res_bind mret res_ret]. intros [= <- <-].
  apply match_table_rows in Htable as (Hnames & Htotal & Hrows).
  split_and!; [done| |by apply Hrows].
  unfold table_total in Htotal at 1. cbn in Htotal. lia.
Qed.

Lemma best_match_success self typelist ms refs :
  mate_in_graph ->
  reference_typed_molecules self = Some refs ->
  (forall m a, m ∈ ms -> a ∈ GetAtoms m ->
               GetStringData (typetag self) a ∈ snd <$> typelist) ->
  (forall ref b, ref ∈ refs -> b ∈ GetAtoms ref ->
                 GetType b ∈ reference_atomtypes self) ->
  exists matches total,
    best_match_reference_types self typelist ms = inr (Some (matches, total)).
Proof.
  intros Hedges Href Hlabels Htypes.
  unfold best_match_reference_types. rewrite Href.
  destruct (atoms_in_common_success self (snd <$> typelist) (reference_atomtypes self)
              ms refs Hlabels Htypes) as (common & Hcommon & Hkeys).
  rewrite Hcommon. cbn [mbind res_bind].
  destruct (match_graph_success _ _ _ Hkeys) as [graph Hgraph].
  rewrite Hgraph. cbn [mbind res_bind].
  destruct (match_table_success graph (max_weight_matching graph) (snd <$> typelist)
              (Hedges graph)) as [[table total] Htable].
  rewrite Htable. cbn [mbind res_bind mret res_ret]. by exists table, total.
Qed.

(** X15. With reference molecules whose types are the recorded reference
    types, on molecules whose labels are type names of the rule list
    (verbose output off, and the matching pairs a name only with a
    neighbour), the scorer raises nothing: it returns a table with one row
    per rule, in the order of the list, a row has a count exactly when it
    has a reference type, and the total is the sum of the counts. *)
Theorem scorer_returns_table (self : AtomTypeSampler)
    (typelist : list (string * string)) (ms refs : list Mol) :
  mate_in_graph ->
  verbose self = false ->
  reference_typed_molecules self = Some refs ->
  (forall m a, m ∈ ms -> a ∈ GetAtoms m ->
               GetStringData (typetag self) a ∈ snd <$> typelist) ->
  (forall ref b, ref ∈ refs -> b ∈ GetAtoms ref ->
                 GetType b ∈ reference_atomtypes self) ->
  exists matches total,
    best_match_reference_types self typelist ms = inr (Some (matches, total)) /\
    table_names matches = snd <$> typelist /\
    total = table_total matches /\
    Forall (fun row => is_Some row.1.2 <-> is_Some row.2) matches.
Proof.
  intros Hedges _ Href Hlabels Htypes.
  destruct (best_match_success self typelist ms refs Hedges Href Hlabels Htypes)
    as (matches & total & Hscore).
  exists matches, total. split; [done|]. by apply (best_match_table self typelist ms).
Qed.

Lemma foldlM_exception {A B} (P : exn -> Prop) (f : B -> A -> res B) (l : list A) :
  (forall b x e, f b x = inl e -> P e) ->
  forall b e, foldlM f b l = inl e -> P e.
Proof.
  intros Hstep. induction l as [|x l IH]; intros b e Hfold; [done|].
  cbn [foldlM] in Hfold. destruct (f b x) as [e'|b1] eqn:Hf.
  - injection Hfold as <-. by eapply Hstep.
  - by eapply IH.
Qed.

(** In a fold that returns, every element was folded in, from a state
    that satisfies the invariant. *)
Lemma foldlM_each {A B} (P : B -> Prop) (f : B -> A -> res B) (l : list A) :
  (forall b x b', P b -> f b x = inr b' -> P b') ->
  forall b b', P b -> foldlM f b l = inr b' ->
  forall x, x ∈ l -> exists b0 b1, P b0 /\ f b0 x = inr b1.
Proof.
  intros Hstep. induction l as [|y l IH]; intros b b' Hb Hfold x Hx;
    [by apply elem_of_nil in Hx|].
  cbn [foldlM] in Hfold. destruct (f b y) as [e|b1] eqn:Hf; [done|].
  cbn [mbind res_bind] in Hfold.
  apply elem_of_cons in Hx as [->|Hx]; [by exists b, b1|].
  eapply (IH b1 b'); [by eapply Hstep|done|done].
Qed.

Lemma incr_inr `{Countable K} (d d' : gmap K nat) (k : K) :
  incr d k = inr d' ->
  is_Some (d !! k) /\ forall k', is_Some (d' !! k') -> is_Some (d !! k').
Proof.
  unfold incr, getitem. destruct (d !! k) as [n|] eqn:Hk; [|done].
  cbn [mbind res_bind mret res_ret]. intros [= <-]. split; [done|].
  intros k'. destruct (decide (k' = k)) as [->|Hne].
  - by rewrite Hk.
  - by rewrite lookup_insert_ne.
Qed.

Lemma incr_exception `{Countable K} (d : gmap K nat) (k : K) e :
  incr d k = inl e -> e = KeyError.
Proof.
  unfold incr, getitem. destruct (d !! k); [done|].
  cbn [mbind res_bind raise]. by intros [= <-].
Qed.

Lemma keys_within_zero current reference_types :
  keys_within current reference_types
    (foldl (fun d current_atomtype =>
              foldl (fun d reference_atomtype =>
                       <[(current_atomtype, reference_atomtype) := 0]> d)
                    d reference_types)
           (∅ : gmap (string * string) nat) current).
Proof.
  apply (foldl_invariant (keys_within current reference_types)).
  - intros d c Hc Hd.
    apply (foldl_invariant (keys_within current reference_types)); [|done].
    intros d' r Hr Hd' c' r'.
    destruct (decide ((c', r') = (c, r))) as [[= -> ->]|Hne]; [done|].
    rewrite lookup_insert_ne by done. apply Hd'.
  - intros c r. rewrite lookup_empty. by intros [? ?].
Qed.

Lemma atoms_in_common_inr self current reference_types ms refs common :
  atoms_in_common self current reference_types ms refs = inr common ->
  forall a b, (a, b) ∈ paired_atoms ms refs ->
    GetStringData (typetag self) a ∈ current /\ GetType b ∈ reference_types.
Proof.
  unfold atoms_in_common. intros Hfold a b Hin.
  apply list_elem_of_bind in Hin as ([m ref] & Hin & Hzip).
  assert (forall d d' (ab : Atom * Atom),
             keys_within current reference_types d ->
             (let '(current_typed_atom, reference_typed_atom) := ab in
              incr d (GetStringData (typetag self) current_typed_atom,
                      GetType reference_typed_atom)) = inr d' ->
             keys_within current reference_types d') as Hinner.
  { intros d d' [a' b'] Hd Hincr c r Hk.
    apply incr_inr in Hincr as [_ Hkeys]. by apply Hd, Hkeys. }
  eapply (foldlM_each (keys_within current reference_types)) with (x := (m, ref))
    in Hfold as (d0 & d1 & Hd0 & Hmol);
    [|intros d [m' ref'] d' Hd Hf;
      exact (foldlM_invariant (keys_within current reference_types) _ _
               (fun b x b' _ => Hinner b b' x) d d' Hd Hf)
     |apply keys_within_zero|done].
  destruct (foldlM_each (keys_within current reference_types) _ _
              (fun b x b' => Hinner b b' x) _ _ Hd0 Hmol (a, b) Hin)
    as (d2 & d3 & Hd2 & Hincr).
  apply incr_inr in Hincr as [Hkey _]. by apply Hd2.
Qed.

Lemma atoms_in_common_exception self current reference_types ms refs e :
  atoms_in_common self current reference_types ms refs = inl e -> e = KeyError.
Proof.
  unfold atoms_in_common.
  apply (foldlM_exception (fun e => e = KeyError)).
  intros d [m ref] e'. apply (foldlM_exception (fun e => e = KeyError)).
  intros d' [a b] e''. apply incr_exception.
Qed.

(** X16. With reference molecules, when some atom the scorer pairs bears
    a label that is no type name of the rule list, or faces a reference
    atom whose type is not among the recorded reference types, the scorer
    raises [KeyError]. *)
Theorem scorer_KeyError (self : AtomTypeSampler)
    (typelist : list (string * string)) (ms refs : list Mol) (a b : Atom) :
  reference_typed_molecules self = Some refs ->
  (a, b) ∈ paired_atoms ms refs ->
  GetStringData (typetag self) a ∉ snd <$> typelist \/
  GetType b ∉ reference_atomtypes self ->
  best_match_reference_types self typelist ms = inl KeyError.
Proof.
  intros Href Hin Hout. unfold best_match_reference_types. rewrite Href.
  destruct (atoms_in_common self (snd <$> typelist) (reference_atomtypes self) ms refs)
    as [e|common] eqn:Hcommon.
  - by rewrite (atoms_in_common_exception _ _ _ _ _ _ Hcommon).
  - destruct (atoms_in_common_inr _ _ _ _ _ _ Hcommon a b Hin). tauto.
Qed.

Lemma read_typelist_names_not_empty fs filename typelist :
  read_typelist fs filename = inr (Some typelist) ->
  forall rule, rule ∈ typelist -> rule.2 <> "".
Proof.
  destruct filename as [f|]; [|done]. intros Hread rule Hin.
  pose proof (read_typelist_Forall_tokens fs f typelist Hread) as Htokens.
  rewrite Forall_forall in Htokens. destruct (Htokens rule Hin) as [_ Ht].
  by destruct (is_token_spec _ Ht).
Qed.

Lemma elem_of_reference_types (refs : list Mol) ref b :
  ref ∈ refs -> b ∈ GetAtoms ref ->
  GetType b ∈ elements (list_to_set (GetType <$> (refs ≫= GetAtoms)) : gset string).
Proof.
  intros Href Hb. apply elem_of_elements, elem_of_list_to_set, list_elem_of_fmap.
  exists b. split; [done|]. apply list_elem_of_bind. by exists ref.
Qed.

(** X17. With files that can be read, [__init__] (verbose output off)
    returns a sampler when every atom of every molecule is covered by the
    pattern of some base type, and raises [TypingException] when some atom
    is covered by none. *)
Theorem init_returns_iff_covered (fs : gmap string string) (ms : list Mol)
    (basetypes_filename decorators_filename replacements_filename : option string)
    (reference : option (list Mol)) (temp : R)
    (typelist : list (string * string)) (ds rs : option (list (string * string))) :
  let atomtyper := AtomTyper_init typelist "atomtype" rs in
  Match_ignores "atomtype" ->
  mate_in_graph ->
  read_typelist fs basetypes_filename = inr (Some typelist) ->
  read_typelist fs decorators_filename = inr ds ->
  read_typelist fs replacements_filename = inr rs ->
  ((forall mol j, mol ∈ ms -> j < length (GetAtoms mol) ->
      covered (smartsList atomtyper) (perceived atomtyper mol) j = true) ->
   exists self,
     AtomTypeSampler_init fs ms basetypes_filename decorators_filename
                          replacements_filename reference temp false = inr self) /\
  (forall mol j, mol ∈ ms -> j < length (GetAtoms mol) ->
     covered (smartsList atomtyper) (perceived atomtyper mol) j = false ->
   exists m atom,
     AtomTypeSampler_init fs ms basetypes_filename decorators_filename
                          replacements_filename reference temp false
     = inl (TypingException m atom)).
Proof.
  intros atomtyper Hframe Hedges Hbase Hdecs Hrepl.
  unfold AtomTypeSampler_init. rewrite Hbase, Hdecs, Hrepl.
  cbn [mbind res_bind mret res_ret].
  change (type_molecules _ typelist ms) with (type_loop atomtyper ms).
  destruct (type_loop atomtyper ms) as [typed_ms e] eqn:Ht. split.
  - intros Hcov.
    assert (e = None) as ->.
    { change e with (snd (typed_ms, e)). rewrite <- Ht.
      apply type_loop_snd_None, Forall_forall. intros mol Hmol.
      apply assignTypes_covered_success; [done| |intros j Hj; by apply Hcov].
      intros row. unfold atomtyper. rewrite smartsList_init.
      intros (rule & -> & Hin)%list_elem_of_fmap. simpl.
      by eapply read_typelist_names_not_empty. }
    cbn [mbind res_bind mret res_ret].
    set (self0 := mkSampler false "atomtype" typelist ds rs ms 0 None [] 0%R None None).
    assert (type_molecules self0 typelist ms = (typed_ms, None)) as Htm by exact Ht.
    destruct (compute_type_statistics_spec self0 typelist typed_ms
                (type_molecules_labels _ _ _ _ Htm)) as (counts & mcounts & -> & _).
    cbn [mbind res_bind mret res_ret].
    destruct reference as [refs|]; [|by eexists].
    match goal with
    | |- context [best_match_reference_types ?self1 typelist typed_ms] =>
        destruct (best_match_success self1 typelist typed_ms refs Hedges eq_refl
                    (type_molecules_labels _ _ _ _ Htm)
                    (elem_of_reference_types refs))
          as (matches & total & ->)
    end.
    cbn [mbind res_bind mret res_ret]. by eexists.
  - intros mol j Hmol Hj Hcov.
    destruct e as [e|].
    + destruct (type_loop_exception atomtyper ms e) as (m & atom & ->);
        [by rewrite Ht|].
      cbn [mbind res_bind raise]. by exists m, atom.
    + exfalso.
      assert (snd (type_loop atomtyper ms) = None) as Hok by (by rewrite Ht).
      apply type_loop_snd_None in Hok. rewrite Forall_forall in Hok.
      pose proof (proj1 (assignTypes_success_type_of atomtyper mol Hframe)
                    (Hok mol Hmol) j Hj) as Hty.
      unfold type_of in Hty. apply winner_None_covered in Hcov.
      by rewrite Hcov in Hty.
Qed.

(** X18. A sampler that [__init__] built on an empty list of molecules,
    with reference molecules and a temperature other than 0, has
    [total_atoms] 0: every destroy move on a non-empty rule list passes
    the validation, is scored, and raises [ZeroDivisionError] in the
    acceptance test. *)
Theorem empty_corpus_ZeroDivisionError (fs : gmap string string)
    (basetypes_filename decorators_filename replacements_filename : option string)
    (refs : list Mol) (temp : R) (self : AtomTypeSampler) (d : Draws) :
  mate_in_graph ->
  AtomTypeSampler_init fs [] basetypes_filename decorators_filename
                       replacements_filename (Some refs) temp false = inr self ->
  temp <> 0%R ->
  is_Some (decorators self) ->
  atomtypes self <> [] ->
  (move d < 1 / 2)%R ->
  fst (sample_atomtypes self d) = inl ZeroDivisionError.
Proof.
  intros Hedges
    (typelist & ds & rs & typed_ms & _ & _ & _ & Ht & Hself & Hrefs & m0 & t0 & _ & _ & Ht0)
    %AtomTypeSampler_init_inr Htemp [ds' Hds] Hrules Hmove.
  injection Ht as <-.
  assert (molecules self = []) as Hms by (by rewrite Hself).
  assert (total_atoms self = 0) as Hatoms by (by rewrite Hself).
  assert (temperature self = temp) as Htemp' by (by rewrite Hself).
  assert (reference_typed_molecules self = Some refs) as Href by (by rewrite Hself).
  clear Hself.
  destruct (atomtypes self) as [|rule0 rules] eqn:Hat; [done|]. clear Hrules.
  rewrite sample_atomtypes_unfold, (propose_destroy_move self d ds' Hmove Hds).
  assert (exists i, randint0 (length (atomtypes self)) (atomtype_draw d) = inr i)
    as [i Hi].
  { unfold randint0. rewrite Hat. destruct (decide _) as [Hz|_]; [done|by eexists]. }
  destruct (lookup_lt_is_Some_2 (atomtypes self) i (randint0_lt _ _ _ Hi))
    as [rule Hrule].
  destruct (list_remove_inr rule (atomtypes self)) as [pa Hpa];
    [by eapply list_elem_of_lookup_2|].
  rewrite (propose_destroy_eq self d i rule pa Hi Hrule Hpa), Hms.
  change (type_molecules self pa []) with (([] : list Mol), (None : option exn)).
  cbn [fst]. unfold decide_proposal. rewrite fst_bind. cbn [tell fst].
  rewrite fst_bind. cbn [lift fst].
  destruct (best_match_success self pa [] refs Hedges Href)
    as (matches & total & ->).
  { intros m a Hm. by apply elem_of_nil in Hm. }
  { intros ref b Href' Hb. rewrite Hrefs. by apply (elem_of_reference_types refs ref). }
  rewrite fst_bind. cbn [lift fst]. rewrite Ht0. cbn [mret res_ret].
  rewrite fst_bind. cbn [lift fst].
  unfold metropolis, effective_temperature. rewrite Htemp', Hatoms.
  destruct (decide (temp = 0%R)) as [|_]; [done|].
  destruct (decide (INR 0 * temp = 0)%R) as [|Hne]; [done|].
  exfalso. apply Hne. simpl. lra.
Qed.

(** *** The statistics *)

Lemma option_fmap_add_0 (x : option nat) : (fun n => n + 0) <$> x = x.
Proof. destruct x as [n|]; [|done]. simpl. f_equal. lia. Qed.

Lemma incr_lookup `{Countable K} (d d' : gmap K nat) (k : K) :
  incr d k = inr d' ->
  forall k', d' !! k' = (fun n => n + if decide (k' = k) then 1 else 0) <$> d !! k'.
Proof.
  unfold incr, getitem. destruct (d !! k) as [n|] eqn:Hk; [|done].
  cbn [mbind res_bind mret res_ret]. intros [= <-] k'.
  destruct (decide (k' = k)) as [->|Hne].
  - rewrite lookup_insert_eq, Hk. simpl. f_equal. lia.
  - rewrite lookup_insert_ne by done. by rewrite option_fmap_add_0.
Qed.

Lemma count_atoms_lookup tag atoms : forall (types : gset string) counts types' counts',
  foldlM (fun '(types, counts) atom =>
            let atomtype := GetStringData tag atom in
            counts' ← incr counts atomtype;
            mret ({[atomtype]} ∪ types, counts'))
         (types, counts) atoms = inr (types', counts') ->
  types' = list_to_set (GetStringData tag <$> atoms) ∪ types /\
  forall ty, counts' !! ty
             = (fun n => n + length (filter (fun a => GetStringData tag a = ty) atoms))
                 <$> counts !! ty.
Proof.
  induction atoms as [|a atoms IH]; intros types counts types' counts' Hfold.
  - injection Hfold as <- <-. split; [set_solver|].
    intros ty. by rewrite option_fmap_add_0.
  - cbn [foldlM] in Hfold.
    destruct (incr counts (GetStringData tag a)) as [e|c1] eqn:Hincr; [done|].
    cbn [mbind res_bind mret res_ret] in Hfold.
    apply IH in Hfold as [-> Hc]. split; [set_solver|].
    intros ty. rewrite Hc, (incr_lookup _ _ _ Hincr ty).
    destruct (counts !! ty) as [n|]; [|done]. simpl. f_equal.
    rewrite filter_cons.
    destruct (decide (ty = GetStringData tag a)) as [->|Hne].
    + rewrite decide_True by done. simpl. lia.
    + rewrite decide_False by done. lia.
Qed.

Lemma incr_all_lookup (l : list string) : NoDup l -> forall m m' : gmap string nat,
  foldlM incr m l = inr m' ->
  forall ty, m' !! ty = (fun n => n + if decide (ty ∈ l) then 1 else 0) <$> m !! ty.
Proof.
  induction 1 as [|t l Hnotin Hnodup IH]; intros m m' Hfold ty.
  - injection Hfold as <-. rewrite decide_False by apply not_elem_of_nil.
    by rewrite option_fmap_add_0.
  - cbn [foldlM] in Hfold. destruct (incr m t) as [e|m1] eqn:Hincr; [done|].
    cbn [mbind res_bind] in Hfold.
    rewrite (IH m1 m' Hfold ty), (incr_lookup _ _ _ Hincr ty).
    destruct (m !! ty) as [n|]; [|done]. simpl. f_equal.
    destruct (decide (ty = t)) as [->|Hne].
    + rewrite (decide_False (P := t ∈ l)) by done.
      rewrite decide_True by (by left). lia.
    + destruct (decide (ty ∈ l)) as [Hin|Hout].
      * rewrite decide_True by (by right). lia.
      * rewrite decide_False; [lia|]. by intros [?|?]%elem_of_cons.
Qed.

Lemma count_molecule_lookup tag counts mcounts m counts' mcounts' :
  count_molecule tag (counts, mcounts) m = inr (counts', mcounts') ->
  forall ty,
    counts' !! ty
    = (fun n => n + length (filter (fun a => GetStringData tag a = ty) (GetAtoms m)))
        <$> counts !! ty /\
    mcounts' !! ty
    = (fun n => n + if decide (ty ∈ GetStringData tag <$> GetAtoms m) then 1 else 0)
        <$> mcounts !! ty.
Proof.
  unfold count_molecule, count_atoms.
  change (fst (counts, mcounts)) with counts.
  change (snd (counts, mcounts)) with mcounts.
  destruct (foldlM _ (∅, counts) (GetAtoms m)) as [e|[types c1]] eqn:Hatoms; [done|].
  cbn [mbind res_bind].
  destruct (foldlM incr mcounts (elements types)) as [e|mc1] eqn:Hincr; [done|].
  cbn [mbind res_bind mret res_ret]. intros [= <- <-] ty.
  apply count_atoms_lookup in Hatoms as [-> Hc]. split; [done|].
  rewrite (incr_all_lookup _ (NoDup_elements _) _ _ Hincr ty).
  destruct (mcounts !! ty) as [n|]; [|done]. simpl. f_equal.
  destruct (decide (ty ∈ GetStringData tag <$> GetAtoms m)) as [Hin|Hout].
  - rewrite decide_True; [done|]. apply elem_of_elements. set_solver.
  - rewrite decide_False; [done|]. rewrite elem_of_elements. set_solver.
Qed.

Lemma count_molecules_lookup tag ms : forall counts mcounts counts' mcounts',
  foldlM (count_molecule tag) (counts, mcounts) ms = inr (counts', mcounts') ->
  forall ty,
    counts' !! ty = (fun n => n + count_label tag ty ms) <$> counts !! ty /\
    mcounts' !! ty = (fun n => n + count_molecules_with tag ty ms) <$> mcounts !! ty.
Proof.
  induction ms as [|m ms IH]; intros counts mcounts counts' mcounts' Hfold ty.
  - injection Hfold as <- <-. unfold count_label, count_molecules_with.
    by rewrite !option_fmap_add_0.
  - cbn [foldlM] in Hfold.
    destruct (count_molecule tag (counts, mcounts) m) as [e|[c1 mc1]] eqn:Hone; [done|].
    cbn [mbind res_bind] in Hfold.
    destruct (IH _ _ _ _ Hfold ty) as [Hc Hm].
    destruct (count_molecule_lookup _ _ _ _ _ _ Hone ty) as [Hc1 Hm1].
    rewrite Hc, Hc1, Hm, Hm1. unfold count_label, count_molecules_with.
    rewrite bind_cons, filter_app, length_app, filter_cons. split.
    + destruct (counts !! ty) as [n|]; [|done]. simpl. f_equal. lia.
    + destruct (mcounts !! ty) as [n|]; [|done]. simpl. f_equal.
      destruct (decide (ty ∈ GetStringData tag <$> GetAtoms m)); simpl; lia.
Qed.

Lemma zero_counts_None (typelist : list (string * string)) ty :
  forall d : gmap string nat,
  ty ∉ snd <$> typelist -> d !! ty = None ->
  foldl (fun d '(smarts, typename) => <[typename := 0]> d) d typelist !! ty = None.
Proof.
  induction typelist as [|[smarts typename] typelist IH]; intros d Hty Hd; [done|].
  cbn [foldl]. rewrite fmap_cons in Hty. apply not_elem_of_cons in Hty as [Hne Hty].
  apply IH; [done|]. by rewrite lookup_insert_ne.
Qed.

Lemma compute_type_statistics_values (self : AtomTypeSampler)
    (typelist : list (string * string)) (ms : list Mol) :
  (forall m a, m ∈ ms -> a ∈ GetAtoms m ->
               GetStringData (typetag self) a ∈ snd <$> typelist) ->
  exists counts mcounts,
    compute_type_statistics self typelist ms = inr (counts, mcounts) /\
    (forall ty, ty ∈ snd <$> typelist ->
       counts !! ty = Some (count_label (typetag self) ty ms) /\
       mcounts !! ty = Some (count_molecules_with (typetag self) ty ms)) /\
    (forall ty, ty ∉ snd <$> typelist -> counts !! ty = None /\ mcounts !! ty = None).
Proof.
  intros Hlabels.
  destruct (compute_type_statistics_spec self typelist ms Hlabels)
    as (counts & mcounts & Hstat & _).
  exists counts, mcounts. split; [done|].
  unfold compute_type_statistics in Hstat.
  pose proof (count_molecules_lookup _ _ _ _ _ _ Hstat) as Hlookup.
  split; intros ty Hty; destruct (Hlookup ty) as [-> ->].
  - rewrite zero_counts by (by left). done.
  - rewrite zero_counts_None by done. done.
Qed.

(** X19. On molecules whose labels all are type names of the list,
    [compute_type_statistics] raises nothing: the keys of both
    dictionaries are the type names of the list, the atom count of a name
    is the number of atoms that bear it, and its molecule count is the
    number of molecules with at least one such atom. *)
Theorem compute_type_statistics_counts (self : AtomTypeSampler)
    (typelist : list (string * string)) (ms : list Mol) :
  (forall m a, m ∈ ms -> a ∈ GetAtoms m ->
               GetStringData (typetag self) a ∈ snd <$> typelist) ->
  exists counts mcounts,
    compute_type_statistics self typelist ms = inr (counts, mcounts) /\
    (forall ty, ty ∈ snd <$> typelist ->
       counts !! ty = Some (count_label (typetag self) ty ms) /\
       mcounts !! ty = Some (count_molecules_with (typetag self) ty ms)) /\
    (forall ty, ty ∉ snd <$> typelist -> counts !! ty = None /\ mcounts !! ty = None).
Proof. apply compute_type_statistics_values. Qed.

Lemma count_atoms_keys tag atoms : forall (types : gset string) counts r,
  foldlM (fun '(types, counts) atom =>
            let atomtype := GetStringData tag atom in
            counts' ← incr counts atomtype;
            mret ({[atomtype]} ∪ types, counts'))
         (types, counts) atoms = inr r ->
  forall a, a ∈ atoms -> is_Some (counts !! GetStringData tag a).
Proof.
  induction atoms as [|a atoms IH]; intros types counts r Hfold a' Ha';
    [by apply elem_of_nil in Ha'|].
  cbn [foldlM] in Hfold.
  destruct (incr counts (GetStringData tag a)) as [e|c1] eqn:Hincr; [done|].
  cbn [mbind res_bind mret res_ret] in Hfold.
  apply incr_inr in Hincr as [Hkey Hkeys].
  apply elem_of_cons in Ha' as [->|Ha']; [done|].
  by eapply Hkeys, IH.
Qed.

Lemma count_molecule_exception tag acc m e :
  count_molecule tag acc m = inl e -> e = KeyError.
Proof.
  unfold count_molecule, count_atoms.
  destruct (foldlM _ (∅, fst acc) (GetAtoms m)) as [e'|[types c1]] eqn:Hatoms.
  - cbn [mbind res_bind]. intros [= <-]. revert Hatoms.
    apply (foldlM_exception (fun e => e = KeyError)).
    intros [types counts] a e Hstep.
    destruct (incr counts (GetStringData tag a)) as [e0|c] eqn:Hincr; [|done].
    injection Hstep as <-. by eapply incr_exception.
  - cbn [mbind res_bind].
    destruct (foldlM incr (snd acc) (elements types)) as [e'|mc1] eqn:Hincr; [|done].
    cbn [mbind res_bind]. intros [= <-]. revert Hincr.
    apply (foldlM_exception (fun e => e = KeyError)).
    intros d k e. apply incr_exception.
Qed.

(** X20. When some atom bears a label that is no type name of the list,
    [compute_type_statistics] raises [KeyError]. *)
Theorem compute_type_statistics_KeyError (self : AtomTypeSampler)
    (typelist : list (string * string)) (ms : list Mol) (m : Mol) (a : Atom) :
  m ∈ ms -> a ∈ GetAtoms m ->
  GetStringData (typetag self) a ∉ snd <$> typelist ->
  compute_type_statistics self typelist ms = inl KeyError.
Proof.
  intros Hm Ha Hout.
  destruct (compute_type_statistics self typelist ms) as [e|[counts mcounts]] eqn:Hstat.
  - unfold compute_type_statistics in Hstat.
    by rewrite (foldlM_exception (fun e => e = KeyError) _ _
                  (count_molecule_exception (typetag self)) _ _ Hstat).
  - exfalso. unfold compute_type_statistics in Hstat.
    set (names_only := fun acc : gmap string nat * gmap string nat =>
           forall ty, is_Some (acc.1 !! ty) -> ty ∈ snd <$> typelist).
    eapply (foldlM_each names_only) with (x := m) in Hstat
      as ([c0 mc0] & [c1 mc1] & Hnames & Hone); [| | |done].
    + unfold count_molecule, count_atoms in Hone.
      change (fst (c0, mc0)) with c0 in Hone.
      destruct (foldlM _ (∅, c0) (GetAtoms m)) as [e|r] eqn:Hatoms; [done|].
      apply Hout, (Hnames (GetStringData (typetag self) a)).
      by eapply count_atoms_keys.
    + intros [c mc] m' [c' mc'] Hacc Hstep ty Hkey.
      apply (Hacc ty).
      destruct (count_molecule_lookup _ _ _ _ _ _ Hstep ty) as [Hc _].
      cbn [fst] in *. rewrite Hc in Hkey.
      destruct (c !! ty); [done|]. by destruct Hkey.
    + intros ty Hkey. cbn [fst] in Hkey.
      destruct (decide (ty ∈ snd <$> typelist)) as [|Hnot]; [done|].
      rewrite zero_counts_None in Hkey by done. by destruct Hkey.
Qed.

(** *** The regular expression of the refine move *)

Lemma take_line_app (g t : string) :
  no_newline g = true -> take_line (g +:+ t) = g +:+ take_line t.
Proof.
  induction g as [|c g IH]; [done|]. rewrite !string_app_cons. cbn.
  intros [Hc Hg]%andb_true_iff. apply negb_true_iff in Hc. by rewrite Hc, IH.
Qed.

Lemma take_line_split (s : string) :
  no_newline (take_line s) = true /\
  exists rest, s = take_line s +:+ rest /\ take_line rest = "".
Proof.
  induction s as [|c s [IHn (rest & IHs & IHr)]].
  - split; [done|]. by exists "".
  - cbn [take_line]. destruct (Ascii.eqb c newline) eqn:Hc.
    + split; [done|]. exists (String c s). split; [done|]. cbn. by rewrite Hc.
    + split; [cbn; by rewrite Hc|]. exists rest.
      rewrite string_app_cons. by rewrite <- IHs.
Qed.

Lemma before_last_bracket_None (r : string) :
  before_last_bracket r = None <-> no_close_bracket r = true.
Proof.
  induction r as [|c r IH]; [done|]. cbn.
  destruct (before_last_bracket r) as [p|].
  - split; [done|]. intros [_ Hr]%andb_true_iff. by apply IH in Hr.
  - destruct (Ascii.eqb c close_bracket); [done|]. simpl. by rewrite <- IH.
Qed.

Lemma before_last_bracket_app (g r : string) :
  no_close_bracket r = true ->
  before_last_bracket (g +:+ String close_bracket r) = Some g.
Proof.
  intros Hr. induction g as [|c g IH].
  - rewrite string_app_nil_l. cbn [before_last_bracket].
    apply before_last_bracket_None in Hr. rewrite Hr. by rewrite Ascii.eqb_refl.
  - rewrite string_app_cons. cbn [before_last_bracket]. by rewrite IH.
Qed.

Lemma before_last_bracket_Some (t : string) : forall g,
  before_last_bracket t = Some g ->
  exists r, t = g +:+ String close_bracket r /\ no_close_bracket r = true.
Proof.
  induction t as [|c t IH]; intros g; [done|]. cbn [before_last_bracket].
  destruct (before_last_bracket t) as [p|] eqn:Hp.
  - intros [= <-]. destruct (IH p eq_refl) as (r & -> & Hr).
    exists r. by rewrite string_app_cons.
  - destruct (Ascii.eqb c close_bracket) eqn:Hc; [|done]. intros [= <-].
    apply Ascii.eqb_eq in Hc as ->. exists t. split; [done|].
    by apply before_last_bracket_None.
Qed.

Lemma re_match_bracket_Some (s g : string) :
  re_match_bracket s = Some g ->
  g <> "" /\ no_newline g = true /\
  exists rest, s = "[" +:+ g +:+ "]" +:+ rest /\
               no_close_bracket (take_line rest) = true.
Proof.
  unfold re_match_bracket. destruct s as [|c s]; [done|].
  destruct (Ascii.eqb c open_bracket) eqn:Hc; [|done].
  apply Ascii.eqb_eq in Hc as ->.
  destruct (before_last_bracket (take_line s)) as [g'|] eqn:Hg; [|done].
  destruct (decide (g' = "")) as [|Hne]; [done|]. intros [= ->].
  apply before_last_bracket_Some in Hg as (r & Hline & Hr).
  destruct (take_line_split s) as [Hnl (rest & Hs & Hrest)].
  rewrite Hline in Hnl. unfold no_newline in Hnl.
  rewrite string_forall_app in Hnl. apply andb_true_iff in Hnl as [Hg Hr'].
  cbn [string_forall] in Hr'. apply andb_true_iff in Hr' as [_ Hr'].
  split_and!; [done..|]. exists (r +:+ rest). split.
  + rewrite Hs, Hline at 1. rewrite string_app_assoc. reflexivity.
  + by rewrite take_line_app, Hrest, string_app_nil_r.
Qed.

Lemma re_match_bracket_bracketed (g rest : string) :
  g <> "" -> no_newline g = true -> no_close_bracket (take_line rest) = true ->
  re_match_bracket ("[" +:+ g +:+ "]" +:+ rest) = Some g.
Proof.
  intros Hne Hnl Hrest.
  rewrite string_app_cons, string_app_nil_l. unfold re_match_bracket.
  change (Ascii.eqb "[" open_bracket) with true. cbv iota.
  rewrite take_line_app by done.
  rewrite string_app_cons, string_app_nil_l. cbn [take_line].
  change (Ascii.eqb "]" newline) with false. cbv iota.
  change (String "]" (take_line rest))
    with (String close_bracket (take_line rest)).
  rewrite before_last_bracket_app by done.
  by destruct (decide (g = "")).
Qed.

(** X21. The regular expression of the refine move matches exactly the
    patterns that start with [[], go on with a non-empty group without
    newline and a []], after which the first line holds no further []];
    the group is what the refine move decorates. *)
Theorem re_match_bracket_spec (s g : string) :
  re_match_bracket s = Some g <->
  g <> "" /\ no_newline g = true /\
  exists rest, s = "[" +:+ g +:+ "]" +:+ rest /\
               no_close_bracket (take_line rest) = true.
Proof.
  split; [apply re_match_bracket_Some|].
  intros (Hne & Hnl & rest & -> & Hrest). by apply re_match_bracket_bracketed.
Qed.

(** X22. A rule made by the refine move can be refined again: when the
    decorators are tokens, as those read from a file are, the proposed
    pattern is a bracket around the parent's group, [&] and the decorator,
    and the regular expression of the refine move finds this group in it. *)
Theorem refinement_can_be_refined (self : AtomTypeSampler)
    (ds : list (string * string)) (d : Draws)
    (i : nat) (parent_typename pat typename : string) :
  Forall (fun decorator => is_token decorator.1 = true) ds ->
  refine_candidate self ds d = inr (i, parent_typename, pat, typename) ->
  exists inner decorator,
    pat = "[" +:+ (inner +:+ "&" +:+ decorator) +:+ "]" /\
    re_match_bracket pat = Some (inner +:+ "&" +:+ decorator).
Proof.
  intros Htokens
    (atomtype & decorator & dtn & inner & _ & Hdec & Hre & -> & _)%refine_candidate_inr.
  apply re_match_bracket_Some in Hre as (Hne & Hnl & _).
  rewrite Forall_forall in Htokens.
  destruct (is_token_spec _ (Htokens _ Hdec)) as (_ & _ & _ & Hdnl).
  exists inner, decorator.
  assert ("[" +:+ inner +:+ "&" +:+ decorator +:+ "]"
          = "[" +:+ (inner +:+ "&" +:+ decorator) +:+ "]" +:+ "") as Hpat.
  { rewrite !string_app_assoc. reflexivity. }
  split; [by rewrite !string_app_assoc|]. rewrite Hpat.
  apply (re_match_bracket_bracketed (inner +:+ "&" +:+ decorator) "").
  - destruct inner; [done|]. by rewrite string_app_cons.
  - unfold no_newline in *. rewrite !string_forall_app, Hnl. cbn [fst] in Hdnl.
    by rewrite Hdnl.
  - done.
Qed.

(** *** Steps on degenerate lists *)

Lemma sample_atomtypes_raise self d e log :
  propose self d = (inl e, log) -> sample_atomtypes self d = (inl e, log).
Proof. intros Hp. by rewrite sample_atomtypes_unfold, Hp. Qed.

(** X23. A sampler without decorators ([decorators_filename] was [None])
    raises [TypeError] at every step; with decorators, a step on an empty
    rule list raises [ValueError], and so does a refine move with an empty
    decorator list.  In each case nothing is called and the sampler is as
    it was. *)
Theorem step_raises_on_degenerate_lists (self : AtomTypeSampler) (d : Draws) :
  (decorators self = None -> sample_atomtypes self d = (inl TypeError, [])) /\
  (is_Some (decorators self) -> atomtypes self = [] ->
   sample_atomtypes self d = (inl ValueError, [])) /\
  (decorators self = Some [] -> ~ (move d < 1 / 2)%R ->
   sample_atomtypes self d = (inl ValueError, [])).
Proof.
  split_and!.
  - intros Hdec. apply sample_atomtypes_raise. unfold propose. by rewrite Hdec.
  - intros [ds Hdec] Hat. apply sample_atomtypes_raise.
    unfold propose. rewrite Hdec. bind_ret_step.
    destruct (decide (move d < 1 / 2)%R).
    + unfold propose_destroy. by rewrite Hat.
    + unfold propose_refine, refine_candidate. by rewrite Hat.
  - intros Hdec Hmove. apply sample_atomtypes_raise.
    rewrite (propose_refine_move self d [] Hmove Hdec).
    unfold propose_refine, refine_candidate, randint0.
    by destruct (decide (length (atomtypes self) = 0)).
Qed.

(** X24. A refine move whose parent pattern the regular expression does
    not match (it does not start with [[], or has no []] with something
    before it on its first line) raises [AttributeError]: nothing is
    called and the sampler is as it was. *)
Theorem refine_unbracketed_parent_raises (self : AtomTypeSampler) (d : Draws)
    (ds : list (string * string)) (i : nat) (atomtype typename : string) :
  ~ (move d < 1 / 2)%R ->
  decorators self = Some ds -> ds <> [] ->
  randint0 (length (atomtypes self)) (atomtype_draw d) = inr i ->
  atomtypes self !! i = Some (atomtype, typename) ->
  re_match_bracket atomtype = None ->
  sample_atomtypes self d = (inl AttributeError, []).
Proof.
  intros Hmove Hdec Hds Hi Hrule Hre. apply sample_atomtypes_raise.
  rewrite (propose_refine_move self d ds Hmove Hdec).
  unfold propose_refine, refine_candidate, getindex.
  rewrite Hi. cbn [mbind res_bind].
  assert (exists k, randint0 (length ds) (decorator_draw d) = inr k) as [k Hk].
  { unfold randint0. destruct (decide (length ds = 0)) as [Hz|_]; [|by eexists].
    by destruct ds. }
  rewrite Hk. cbn [mbind res_bind]. rewrite Hrule. cbn [mbind res_bind mret res_ret].
  destruct (lookup_lt_is_Some_2 ds k (randint0_lt _ _ _ Hk)) as [[dec dtn] ->].
  cbn [mbind res_bind mret res_ret]. by rewrite Hre.
Qed.

(** *** The display of the statistics and the run *)

Lemma sum_indicator (x : string) (names : list string) :
  NoDup names ->
  sum_list ((fun ty => if decide (x = ty) then 1 else 0) <$> names)
  = if decide (x ∈ names) then 1 else 0.
Proof.
  induction 1 as [|ty names Hnotin Hnodup IH]; [done|].
  rewrite fmap_cons. cbn [sum_list]. rewrite IH.
  destruct (decide (x = ty)) as [->|Hne].
  - rewrite (decide_False (P := ty ∈ names)) by done.
    by rewrite decide_True by (by left).
  - destruct (decide (x ∈ names)) as [Hin|Hout].
    + by rewrite decide_True by (by right).
    + rewrite decide_False; [done|]. by intros [?|?]%elem_of_cons.
Qed.

Lemma sum_list_fmap_add {A} (g h : A -> nat) (l : list A) :
  sum_list ((fun x => g x + h x) <$> l) = sum_list (g <$> l) + sum_list (h <$> l).
Proof. induction l as [|x l IH]; [done|]. rewrite !fmap_cons. cbn. lia. Qed.

Lemma sum_filter_labels (f : Atom -> string) (names : list string) (atoms : list Atom) :
  NoDup names -> (forall a, a ∈ atoms -> f a ∈ names) ->
  sum_list ((fun ty => length (filter (fun a => f a = ty) atoms)) <$> names)
  = length atoms.
Proof.
  intros Hnodup. induction atoms as [|a atoms IH]; intros Hlabels.
  - change (sum_list ((fun _ : string => 0) <$> names) = 0).
    rewrite sum_list_fmap_const. lia.
  - rewrite (list_fmap_ext _
               (fun ty => (if decide (f a = ty) then 1 else 0)
                          + length (filter (fun a' => f a' = ty) atoms))).
    2:{ intros _ ty _. rewrite filter_cons. by destruct (decide (f a = ty)). }
    rewrite sum_list_fmap_add, (sum_indicator (f a) names Hnodup).
    rewrite decide_True by (apply Hlabels; left).
    rewrite IH by (intros; apply Hlabels; by right). done.
Qed.

Lemma atom_count_bind (ms : list Mol) : atom_count ms = length (ms ≫= GetAtoms).
Proof.
  unfold atom_count. induction ms as [|m ms IH]; [done|].
  rewrite fmap_cons, bind_cons, length_app. cbn [sum_list]. by rewrite IH.
Qed.

Lemma reference_type_info_lookup matches typename :
  Forall (fun row => is_Some row.1.2 <-> is_Some row.2) matches ->
  typename ∈ table_names matches ->
  exists r c, reference_type_info matches !! typename = Some (r, c) /\
              (is_Some r <-> is_Some c).
Proof.
  unfold reference_type_info, table_names.
  assert (forall info0 : gmap string (option string * option nat),
             Forall (fun row => is_Some row.1.2 <-> is_Some row.2) matches ->
             typename ∈ (fun row => row.1.1) <$> matches \/
             (exists r c, info0 !! typename = Some (r, c) /\ (is_Some r <-> is_Some c)) ->
             exists r c,
               foldl (fun info '(typename, reference_atomtype, count) =>
                        <[typename := (reference_atomtype, count)]> info)
                     info0 matches !! typename = Some (r, c) /\
               (is_Some r <-> is_Some c)) as Hgen.
  { induction matches as [|[[tn r0] c0] matches IH]; intros info0 Hrows Hin.
    - destruct Hin as [Hin|Hin]; [by apply elem_of_nil in Hin|done].
    - apply Forall_cons in Hrows as [Hrow Hrows]. cbn [foldl].
      apply IH; [done|]. rewrite fmap_cons in Hin.
      destruct (decide (typename = tn)) as [->|Hne].
      + right. exists r0, c0. by rewrite lookup_insert_eq.
      + destruct Hin as [[?|Hin]%elem_of_cons|Hin]; [done|by left|].
        right. by rewrite lookup_insert_ne. }
  intros Hrows Hin. apply Hgen; [done|by left].
Qed.

Lemma show_rows_spec (counts mcounts : gmap string nat)
    (info : gmap string (option string * option nat))
    (atoms_of molecules_of : string -> nat) (typelist : list (string * string)) :
  (forall rule, rule ∈ typelist ->
     counts !! rule.2 = Some (atoms_of rule.2) /\
     mcounts !! rule.2 = Some (molecules_of rule.2) /\
     exists r c, info !! rule.2 = Some (r, c) /\ (is_Some r <-> is_Some c)) ->
  forall rows index natoms,
  exists rows',
    foldlM (show_row counts mcounts (Some info)) (rows, index, natoms) typelist
    = inr (rows ++ rows', index + length typelist,
           natoms + sum_list ((fun rule => atoms_of rule.2) <$> typelist)) /\
    length rows' = length typelist /\
    forall k smarts typename, typelist !! k = Some (smarts, typename) ->
      exists shown,
        rows' !! k = Some (index + k, atoms_of typename, molecules_of typename,
                           typename, smarts, shown).
Proof.
  induction typelist as [|[smarts typename] typelist IH]; intros Hkeys rows index natoms.
  - exists []. rewrite app_nil_r. cbn. by rewrite !Nat.add_0_r.
  - destruct (Hkeys (smarts, typename)) as (Hc & Hm & r & c & Hinfo & Hrc); [left|].
    cbn [fst snd] in *. cbn [foldlM].
    assert (exists shown,
               show_row counts mcounts (Some info) (rows, index, natoms) (smarts, typename)
               = inr (rows ++ [(index, atoms_of typename, molecules_of typename,
                                typename, smarts, shown)],
                      index + 1, natoms + atoms_of typename)) as [shown Hrow].
    { unfold show_row, getitem. rewrite Hinfo, Hc, Hm.
      cbn [mbind res_bind mret res_ret].
      destruct r as [r|], c as [c|]; cbn [mbind res_bind mret res_ret raise];
        [by eexists| |by eexists..].
      destruct Hrc as [Hrc _]. by destruct Hrc. }
    rewrite Hrow. cbn [mbind res_bind].
    destruct (IH (fun rule Hin => Hkeys rule (list_elem_of_further _ _ _ Hin))
                 (rows ++ [(index, atoms_of typename, molecules_of typename,
                            typename, smarts, shown)])
                 (index + 1) (natoms + atoms_of typename))
      as (rows' & Hfold & Hlen & Hrows).
    exists ((index, atoms_of typename, molecules_of typename, typename, smarts, shown)
            :: rows').
    rewrite Hfold, <- app_assoc, fmap_cons. cbn [sum_list length app fst snd].
    change (Datatypes.id (atoms_of typename)) with (atoms_of typename).
    split; [f_equal; rewrite !pair_equal_spec; split_and!; [done|lia|lia]|].
    split; [by rewrite Hlen|].
    intros [|k] smarts' typename' Hk; cbn in Hk.
    + injection Hk as <- <-. exists shown. cbn. by rewrite Nat.add_0_r.
    + destruct (Hrows k smarts' typename' Hk) as [shown' Hk'].
      exists shown'. replace (index + S k) with (index + 1 + k) by lia. exact Hk'.
Qed.

Lemma show_state_shown (self : AtomTypeSampler) :
  typed_state self -> scored self -> total_atoms self <> 0 ->
  exists rows natoms,
    show_state self = inr (rows, (natoms, length (molecules self))) /\
    length rows = length (atomtypes self) /\
    (forall k smarts typename, atomtypes self !! k = Some (smarts, typename) ->
       exists shown,
         rows !! k = Some (S k, count_label (typetag self) typename (molecules self),
                           count_molecules_with (typetag self) typename (molecules self),
                           typename, smarts, shown)) /\
    natoms = sum_list ((fun rule => count_label (typetag self) rule.2 (molecules self))
                         <$> atomtypes self) /\
    (NoDup (snd <$> atomtypes self) -> natoms = atom_count (molecules self)).
Proof.
  intros Htyped (matches & total & Hmatches & Htotal & Hscore) Hatoms.
  assert (forall m a, m ∈ molecules self -> a ∈ GetAtoms m ->
            GetStringData (typetag self) a ∈ snd <$> atomtypes self) as Hlabels.
  { intros m a Hm Ha. by destruct (Htyped m a Hm Ha). }
  destruct (compute_type_statistics_values self (atomtypes self) (molecules self) Hlabels)
    as (counts & mcounts & Hstat & Hin & _).
  apply best_match_table in Hscore as (Hnames & _ & Hrows).
  destruct (show_rows_spec counts mcounts (reference_type_info matches)
              (fun ty => count_label (typetag self) ty (molecules self))
              (fun ty => count_molecules_with (typetag self) ty (molecules self))
              (atomtypes self)) with (rows := @nil stat_row) (index := 1) (natoms := 0)
    as (rows & Hfold & Hlen & Hshown).
  { intros rule Hrule.
    assert (rule.2 ∈ snd <$> atomtypes self) as Hname
      by (apply list_elem_of_fmap; by exists rule).
    destruct (Hin _ Hname) as [Hc Hm]. split_and!; [done..|].
    apply reference_type_info_lookup; [done|]. by rewrite Hnames. }
  exists rows, (sum_list ((fun rule => count_label (typetag self) rule.2 (molecules self))
                           <$> atomtypes self)).
  split_and!; [|done|done|done|].
  - unfold show_state. rewrite Hstat. cbn [mbind res_bind]. rewrite Hmatches.
    cbn [mbind res_bind mret res_ret]. unfold show_type_statistics.
    cbn [fmap option_fmap option_map]. rewrite Hfold. cbn [mbind res_bind app].
    rewrite Htotal. cbn [mbind res_bind mret res_ret].
    by destruct (decide (total_atoms self = 0)).
  - intros Hnodup.
    assert ((fun rule : string * string =>
               count_label (typetag self) rule.2 (molecules self)) <$> atomtypes self
            = (fun ty => count_label (typetag self) ty (molecules self))
                <$> (snd <$> atomtypes self)) as ->
      by (by rewrite <- list_fmap_compose).
    unfold count_label. rewrite atom_count_bind.
    apply sum_filter_labels; [done|].
    intros a (m & Ha & Hm)%list_elem_of_bind. by apply (Hlabels m a).
Qed.

(** X25. On a sampler whose molecules are typed by its rules, whose
    stored matches are the scorer's and whose atom total is not 0, the
    display that a verbose run makes after a step raises nothing: it
    shows one row per rule, in order and numbered from 1, with the number
    of atoms that bear the rule's name and the number of molecules that
    have such an atom; the atom number of its [TOTAL] line is the sum of
    the rows' atom numbers, which is the number of atoms of the molecules
    when the type names are distinct. *)
Theorem show_state_succeeds (self : AtomTypeSampler) :
  typed_state self -> scored self -> total_atoms self <> 0 ->
  exists rows natoms,
    show_state self = inr (rows, (natoms, length (molecules self))) /\
    length rows = length (atomtypes self) /\
    (forall k smarts typename, atomtypes self !! k = Some (smarts, typename) ->
       exists shown,
         rows !! k = Some (S k, count_label (typetag self) typename (molecules self),
                           count_molecules_with (typetag self) typename (molecules self),
                           typename, smarts, shown)) /\
    natoms = sum_list ((fun rule => count_label (typetag self) rule.2 (molecules self))
                         <$> atomtypes self) /\
    (NoDup (snd <$> atomtypes self) -> natoms = atom_count (molecules self)).
Proof. apply show_state_shown. Qed.

Lemma same_setup_refl self : same_setup self self.
Proof. by repeat split. Qed.

Lemma same_setup_trans self1 self2 self3 :
  same_setup self1 self2 -> same_setup self2 self3 -> same_setup self1 self3.
Proof.
  intros (Hv & Htag & Hd & Hr & Ha & Hrm & Hra & Ht & Hsk)
         (Hv' & Htag' & Hd' & Hr' & Ha' & Hrm' & Hra' & Ht' & Hsk').
  rewrite Htag in Hsk'.
  repeat split; try (etrans; [eassumption|eassumption]).
Qed.

Lemma step_same_setup self d accepted self' :
  fst (sample_atomtypes self d) = inr (accepted, self') -> same_setup self self'.
Proof.
  intros [[-> ->]|(-> & pa & pm & matches & total & Hp & Hscore & ->)]%sample_atomtypes_inr;
    [apply same_setup_refl|].
  pose proof (propose_valid self d pa pm Hp) as [Ht _].
  repeat split. cbn [accept molecules typetag]. by eapply skeleton_type_molecules.
Qed.

Lemma step_typed_state self d accepted self' :
  typed_state self -> fst (sample_atomtypes self d) = inr (accepted, self') ->
  typed_state self'.
Proof.
  intros Hinv
    [[-> ->]|(-> & pa & pm & matches & total & Hp & Hscore & ->)]%sample_atomtypes_inr;
    [done|].
  pose proof (propose_valid self d pa pm Hp) as [Ht _].
  intros m a Hm Ha. cbn [accept molecules typetag atomtypes] in *. split.
  - by eapply type_molecules_nonempty.
  - by eapply type_molecules_labels.
Qed.

Lemma step_scored self d accepted self' :
  scored self -> fst (sample_atomtypes self d) = inr (accepted, self') ->
  scored self'.
Proof.
  intros Hinv
    [[-> ->]|(-> & pa & pm & matches & total & Hp & Hscore & ->)]%sample_atomtypes_inr;
    [done|].
  exists matches, total. split_and!; [done..|].
  cbn [accept atomtypes molecules]. by rewrite best_match_accept.
Qed.

(** X26. A run keeps what its steps keep, for any number of iterations
    and whether it ends or is stopped by an exception: at its end the
    molecules are typed by the rules, the stored matches are the
    scorer's, and the tag, the decorators, the replacements, the
    temperature, the reference and the atom total are those it started
    with (for a sampler that has atoms, or whose verbose output is off). *)
Theorem run_keeps_state (self : AtomTypeSampler) (draws : list Draws) :
  typed_state self -> scored self ->
  (verbose self = true -> total_atoms self <> 0) ->
  same_setup self (fst (run self draws)) /\
  typed_state (fst (run self draws)) /\
  scored (fst (run self draws)).
Proof.
  intros Htyped Hscored _. revert self Htyped Hscored.
  induction draws as [|d draws IH]; intros self Htyped Hscored.
  { split_and!; [apply same_setup_refl|done..]. }
  cbn [run].
  destruct (fst (sample_atomtypes self d)) as [e|[accepted self']] eqn:Hstep.
  { split_and!; [apply same_setup_refl|done..]. }
  pose proof (step_same_setup _ _ _ _ Hstep) as Hsetup.
  pose proof (step_typed_state _ _ _ _ Htyped Hstep) as Htyped'.
  pose proof (step_scored _ _ _ _ Hscored Hstep) as Hscored'.
  destruct (IH self' Htyped' Hscored') as (Hsetup' & Htyped'' & Hscored'').
  assert (same_setup self (fst (run self' draws))) as Hall
    by (by eapply same_setup_trans).
  destruct (verbose self'); [|done].
  destruct (show_state self') as [e|shown]; [done|done].
Qed.

(** X27. On a sampler whose molecules are typed by its rules, whose
    stored matches are the scorer's and whose atom total is not 0, what a
    verbose run shows between the steps never raises: the run ends in the
    state, and with the exception if any, of its steps alone. *)
Theorem run_is_its_steps (self : AtomTypeSampler) (draws : list Draws) :
  typed_state self -> scored self -> total_atoms self <> 0 ->
  run self draws = run_steps self draws.
Proof.
  intros Htyped Hscored Hatoms. revert self Htyped Hscored Hatoms.
  induction draws as [|d draws IH]; intros self Htyped Hscored Hatoms; [done|].
  cbn [run run_steps].
  destruct (fst (sample_atomtypes self d)) as [e|[accepted self']] eqn:Hstep; [done|].
  pose proof (step_same_setup _ _ _ _ Hstep) as (_ & _ & _ & _ & Ha & _).
  pose proof (step_typed_state _ _ _ _ Htyped Hstep) as Htyped'.
  pose proof (step_scored _ _ _ _ Hscored Hstep) as Hscored'.
  assert (total_atoms self' <> 0) as Hatoms' by (by rewrite Ha).
  destruct (show_state_shown self' Htyped' Hscored' Hatoms') as (rows & natoms & -> & _).
  rewrite (IH self' Htyped' Hscored' Hatoms'). by destruct (verbose self').
Qed.

Lemma step_without_reference self d accepted self' :
  reference_typed_molecules self = None ->
  fst (sample_atomtypes self d) = inr (accepted, self') -> self' = self.
Proof.
  intros Href
    [[_ ->]|(_ & pa & pm & matches & total & _ & Hscore & _)]%sample_atomtypes_inr;
    [done|].
  by rewrite (best_match_no_reference self pa pm Href) in Hscore.
Qed.

(** X28. Without reference molecules a run never changes the sampler,
    whatever the draws; a verbose run of at least one iteration, on a
    sampler that [__init__] left without stored matches, is stopped by an
    exception in its first iteration. *)
Theorem run_without_reference (self : AtomTypeSampler) (draws : list Draws) :
  reference_typed_molecules self = None ->
  fst (run self draws) = self /\
  (verbose self = true -> atom_type_matches self = None -> draws <> [] ->
   exists e, run self draws = (self, Some e)).
Proof.
  intros Href. split.
  - induction draws as [|d draws IH]; [done|]. cbn [run].
    destruct (fst (sample_atomtypes self d)) as [e|[accepted self']] eqn:Hstep; [done|].
    rewrite (step_without_reference _ _ _ _ Href Hstep).
    destruct (verbose self); [|done]. by destruct (show_state self).
  - intros Hverbose Hmatches Hdraws. destruct draws as [|d draws]; [done|].
    cbn [run].
    destruct (fst (sample_atomtypes self d)) as [e|[accepted self']] eqn:Hstep;
      [by exists e|].
    rewrite (step_without_reference _ _ _ _ Href Hstep), Hverbose.
    unfold show_state.
    destruct (compute_type_statistics self (atomtypes self) (molecules self))
      as [e|[counts mcounts]]; cbn [mbind res_bind]; [by exists e|].
    rewrite Hmatches. by exists AttributeError.
Qed.

Lemma list_insert_at_Permutation {A} (i : nat) (x : A) (l : list A) :
  list_insert_at i x l ≡ₚ x :: l.
Proof.
  unfold list_insert_at. rewrite <- (take_drop i l) at 3.
  by rewrite Permutation_middle.
Qed.

(** X29. Steps keep the patterns of the rule list distinct: if no two
    rules have the same SMARTS pattern before a step that returns, none
    have after it.  (Type names may repeat: two decorators can share a
    name.) *)
Theorem step_keeps_patterns_distinct (self : AtomTypeSampler) (d : Draws)
    (accepted : bool) (self' : AtomTypeSampler) :
  NoDup (fst <$> atomtypes self) ->
  fst (sample_atomtypes self d) = inr (accepted, self') ->
  NoDup (fst <$> atomtypes self').
Proof.
  intros Hnodup
    [[-> ->]|(-> & pa & pm & matches & total & Hp & Hscore & ->)]%sample_atomtypes_inr;
    [done|].
  cbn [accept atomtypes].
  apply propose_Some in Hp as (ds & Hds & Hp).
  destruct (decide (move d < 1 / 2)%R).
  - apply propose_destroy_Some in Hp as (rule & Hrm & _).
    apply list_remove_Permutation in Hrm. rewrite Hrm, fmap_cons in Hnodup.
    by apply NoDup_cons in Hnodup as [_ ?].
  - apply propose_refine_Some in Hp as (i & ptn & pat & tn & _ & Hnew & Hv).
    apply validate_refine_Some in Hv as (-> & _ & _).
    rewrite list_insert_at_Permutation, fmap_cons. by apply NoDup_cons.
Qed.

End Smarty.

(** ** Two runs of the typing engine *)

Section TwoRuns.

Variable OESmartsLexReplace : string -> list (string * string) -> string.
Variable aromatic_atom : Mol -> nat -> bool.
Variable aromatic_bond : Mol -> nat -> bool.
(** The answers of the substructure search in the first and in the second
    run. *)
Variable Match1 Match2 : string -> Mol -> list (list nat).





End TwoRuns.

(** ** The stand-ins meet what the theorems ask of the toolkits *)

Lemma omap_imap_ext {A B C} (h : B -> option C) (l : list A) :
  forall f1 f2 : nat -> A -> B,
    (forall i a, h (f1 i a) = h (f2 i a)) -> omap h (imap f1 l) = omap h (imap f2 l).
Proof.
  induction l as [|a l IH]; intros f1 f2 Hext; [done|].
  rewrite !imap_cons. cbn [omap list_omap]. rewrite Hext.
  rewrite (IH (f1 ∘ S) (f2 ∘ S)); [done|]. intros i x. apply Hext.
Qed.

Lemma atom_Match_erase_tag tag smarts m :
  atom_Match smarts (erase_tag tag m) = atom_Match smarts m.
Proof.
  unfold atom_Match. destruct (re_match_bracket smarts) as [inner|]; [|done].
  unfold erase_tag; simpl. rewrite imap_fmap. by apply omap_imap_ext.
Qed.

Lemma atom_Match_ignores tag : Match_ignores atom_Match tag.
Proof.
  intros pat m m' Herase.
  by rewrite <- (atom_Match_erase_tag tag pat m), Herase, atom_Match_erase_tag.
Qed.

Lemma best_matching_edges edges : forall used u v,
  (u, v) ∈ fst (best_matching edges used) -> exists w, (u, v, w) ∈ edges.
Proof.
  induction edges as [|[[u0 v0] w0] edges IH]; intros used u v Hin.
  - by apply elem_of_nil in Hin.
  - cbn [best_matching] in Hin.
    assert (forall used', (u, v) ∈ fst (best_matching edges used') ->
                          exists w, (u, v, w) ∈ (u0, v0, w0) :: edges) as Hrest.
    { intros used' Hin'. destruct (IH used' u v Hin') as [w Hw]. exists w. by right. }
    destruct (decide _) as [_|_]; [|by eapply Hrest].
    destruct (Nat.ltb _ _); [|by eapply Hrest].
    cbn [fst] in Hin. apply elem_of_cons in Hin as [[= -> ->]|Hin].
    + exists w0. left.
    + by eapply Hrest.
Qed.

Lemma graph_edges_spec g u v w :
  (u, v, w) ∈ graph_edges g ->
  u <> v /\
  (exists adj, g !! u = Some adj /\ adj !! v = Some w) /\
  (exists adj' w', g !! v = Some adj' /\ adj' !! u = Some w').
Proof.
  unfold graph_edges. intros Hin.
  apply list_elem_of_bind in Hin as ([u1 adj] & Hin & Hu).
  apply list_elem_of_bind in Hin as ([v1 w1] & Hin & Hv).
  apply elem_of_map_to_list in Hu. apply elem_of_map_to_list in Hv.
  destruct (decide (u1 = v1)) as [|Hne]; [by apply elem_of_nil in Hin|].
  destruct (decide (is_Some _)) as [[w' Hback]|_]; [|by apply elem_of_nil in Hin].
  apply list_elem_of_singleton in Hin as [= -> -> ->].
  split; [done|]. split; [by exists adj|].
  destruct (g !! v1) as [adj'|]; [|done]. by exists adj', w'.
Qed.

Lemma mate_of_pairs (pairs : list (string * string)) x y :
  foldr (fun '(u, v) mate => <[u := v]> (<[v := u]> mate))
        (∅ : gmap string string) pairs !! x = Some y ->
  (x, y) ∈ pairs \/ (y, x) ∈ pairs.
Proof.
  induction pairs as [|[u v] pairs IH]; cbn [foldr]; intros Hlook.
  - by rewrite lookup_empty in Hlook.
  - destruct (decide (u = x)) as [->|Hux].
    { rewrite lookup_insert_eq in Hlook. injection Hlook as ->. left. left. }
    rewrite lookup_insert_ne in Hlook by done.
    destruct (decide (v = x)) as [->|Hvx].
    { rewrite lookup_insert_eq in Hlook. injection Hlook as ->. right. left. }
    rewrite lookup_insert_ne in Hlook by done.
    destruct (IH Hlook); [left|right]; by right.
Qed.

Lemma exhaustive_matching_no_self_mate : no_self_mate exhaustive_matching.
Proof.
  intros g v w Hmate. unfold exhaustive_matching in Hmate.
  apply mate_of_pairs in Hmate as [Hin|Hin];
    apply best_matching_edges in Hin as [w' Hedge];
    apply graph_edges_spec in Hedge as [Hne _]; congruence.
Qed.

Lemma exhaustive_matching_in_graph : mate_in_graph exhaustive_matching.
Proof.
  intros g v w Hmate. unfold exhaustive_matching in Hmate.
  apply mate_of_pairs in Hmate as [Hin|Hin];
    apply best_matching_edges in Hin as [w' Hedge];
    apply graph_edges_spec in Hedge as (_ & (adj & Hadj & Hw) & (adj' & w'' & Hadj' & Hw')).
  - by exists adj, w'.
  - by exists adj', w''.
Qed.

(** ** The theorems at work on the concrete inputs *)

Ltac bind_step :=
  match goal with
  | |- context [mbind ?f (lift (inr ?x))] => rewrite (bind_lift_ret f x)
  | |- context [mbind ?f (lift (@mret ?M ?I ?A ?x))] =>
      change (@mret M I A x) with (@inr exn A x); rewrite (bind_lift_ret f x)
  | |- context [mbind ?f (tell ?c)] => rewrite (bind_tell f c)
  end.

Lemma sampler_at_init temp :
  AtomTypeSampler_init no_replace atom_Match acyclic_aromatic acyclic_aromatic
    exhaustive_matching the_files [methanol] (Some "basetypes.smarts")
    (Some "decorators.smarts") None (Some [methanol]) temp false
  = inr (sampler_at temp).
Proof. vm_compute. reflexivity. Qed.

Lemma sampler_without_reference_init temp :
  AtomTypeSampler_init no_replace atom_Match acyclic_aromatic acyclic_aromatic
    exhaustive_matching the_files [methanol] (Some "basetypes.smarts")
    (Some "decorators.smarts") None None temp false
  = inr (sampler_without_reference temp).
Proof. vm_compute. reflexivity. Qed.

Lemma element_sampler_init temp :
  AtomTypeSampler_init no_replace atom_Match acyclic_aromatic acyclic_aromatic
    exhaustive_matching the_files [methanol] (Some "elements.smarts")
    (Some "decorators.smarts") None (Some [methanol]) temp false
  = inr (element_sampler temp).
Proof. vm_compute. reflexivity. Qed.

Lemma refine_move_drawn k u : ~ (move (refine_draws k u) < 1 / 2)%R.
Proof. unfold refine_draws; simpl. lra. Qed.

(** The first refinement of [generic] is a valid proposal, whatever the
    temperature. *)
Lemma propose_first_refinement temp u :
  propose no_replace atom_Match acyclic_aromatic acyclic_aromatic
          (sampler_at temp) (refine_draws 0 u)
  = (inr (Some (refined_atomtypes, [refined_methanol])),
     [Call_type_molecules refined_atomtypes;
      Call_compute_type_statistics refined_atomtypes]).
Proof.
  rewrite (propose_refine_move no_replace atom_Match acyclic_aromatic acyclic_aromatic
             (sampler_at temp) (refine_draws 0 u) the_decorators
             (refine_move_drawn 0 u) eq_refl).
  vm_compute. reflexivity.
Qed.

Lemma score_first_refinement temp :
  best_match_reference_types exhaustive_matching (sampler_at temp)
                             refined_atomtypes [refined_methanol]
  = inr (Some ([("generic", Some "HC", Some 1);
                ("generic heavy", Some "CT", Some 1)], 2)).
Proof. vm_compute. reflexivity. Qed.

(** Witness of C1: on methanol typed by the refined list, the carbon is
    covered by both rules and bears the type name of the second. *)
Lemma type_molecules_last_write_wins_witness :
  let atomtyper := AtomTyper_init no_replace refined_atomtypes "atomtype" None in
  exists k smarts typename,
    refined_atomtypes !! k = Some (smarts, typename) /\
    covers atom_Match (no_replace smarts (bindings_of None))
           (perceived acyclic_aromatic acyclic_aromatic atomtyper methanol) 0 = true /\
    (forall k' smarts' typename',
        k < k' -> refined_atomtypes !! k' = Some (smarts', typename') ->
        covers atom_Match (no_replace smarts' (bindings_of None))
               (perceived acyclic_aromatic acyclic_aromatic atomtyper methanol) 0 = false) /\
    GetStringData "atomtype" (labelled "generic heavy" (mkAtom "C1" 6 false "CT" ∅))
      = typename.
Proof.
  apply (type_molecules_last_write_wins no_replace atom_Match acyclic_aromatic
           acyclic_aromatic (sampler_at 0) refined_atomtypes [methanol] [refined_methanol]
           (atom_Match_ignores "atomtype")
           ltac:(vm_compute; reflexivity)
           0 methanol refined_methanol 0
           (labelled "generic heavy" (mkAtom "C1" 6 false "CT" ∅))
           eq_refl eq_refl eq_refl).
Defined.

Lemma effective_temperature_tenth :
  (0 < effective_temperature (sampler_at (1 / 10)))%R.
Proof.
  unfold effective_temperature. cbn [temperature total_atoms sampler_at].
  destruct (decide (1 / 10 = 0)%R); [lra|]. simpl. lra.
Qed.

(** Witness of C2: at temperature 1/10 the first refinement scores 2
    against 1 and is accepted. *)
Lemma sample_atomtypes_metropolis_witness :
  let self := sampler_at (1 / 10) in
  let d := refine_draws 0 (1 / 2) in
  let delta := (Z.of_nat 2 - Z.of_nat 1)%Z in
  let p := exp (IZR delta / effective_temperature self) in
  exists accepted : bool,
    fst (sample_atomtypes no_replace atom_Match acyclic_aromatic acyclic_aromatic
                          exhaustive_matching self d) =
      inr (accepted,
           if accepted
           then accept self refined_atomtypes [refined_methanol]
                       [("generic", Some "HC", Some 1);
                        ("generic heavy", Some "CT", Some 1)] 2
           else self) /\
    (accepted = true <-> (0 < delta)%Z \/ (uniform d < p)%R) /\
    ((0 <= delta)%Z -> (uniform d < 1)%R -> accepted = true) /\
    ((delta < 0)%Z -> (0 < p < 1)%R /\ (accepted = true <-> (uniform d < p)%R)).
Proof.
  exact (sample_atomtypes_metropolis no_replace atom_Match acyclic_aromatic
           acyclic_aromatic exhaustive_matching (sampler_at (1 / 10))
           (refine_draws 0 (1 / 2)) refined_atomtypes [refined_methanol] _ _ 2 1
           (propose_first_refinement (1 / 10) (1 / 2))
           (score_first_refinement (1 / 10)) eq_refl effective_temperature_tenth).
Defined.

Lemma effective_temperature_negative :
  effective_temperature (sampler_at (-1)) = (-3)%R.
Proof.
  unfold effective_temperature. cbn [temperature total_atoms sampler_at].
  destruct (decide (-1 = 0)%R); [lra|]. simpl. lra.
Qed.

Lemma metropolis_negative_temperature :
  metropolis 2 1 (-3) (9 / 10) = inr false.
Proof.
  unfold metropolis. destruct (decide (-3 = 0)%R); [lra|].
  cbn [mret res_ret]. f_equal.
  change (Z.of_nat 2 - Z.of_nat 1)%Z with 1%Z.
  replace (1 / -3)%R with (- (1 / 3))%R by lra.
  assert (exp (- (1 / 3)) < 9 / 10)%R as Hexp.
  { rewrite exp_Ropp. pose proof (exp_ineq1 (1 / 3) ltac:(lra)) as Hlow.
    assert (/ exp (1 / 3) < / (4 / 3))%R by (apply Rinv_lt_contravar; nra).
    lra. }
  pose proof (exp_pos (- (1 / 3))) as Hpos.
  rewrite (bool_decide_eq_false_2 (0 < - (1 / 3))%R) by lra.
  rewrite (bool_decide_eq_false_2 (9 / 10 < exp (- (1 / 3)))%R) by lra.
  done.
Qed.

(** Counterexample to C2 as stated: at temperature -1 the first
    refinement is a validated proposal that scores 2 against the current
    1, so [delta = 1 > 0], and with the draw 9/10 the step rejects it. *)
Lemma negative_temperature_rejects_improvement :
  let self := sampler_at (-1) in
  let d := refine_draws 0 (9 / 10) in
  fst (propose no_replace atom_Match acyclic_aromatic acyclic_aromatic self d)
    = inr (Some (refined_atomtypes, [refined_methanol])) /\
  best_match_reference_types exhaustive_matching self refined_atomtypes
                             [refined_methanol]
    = inr (Some ([("generic", Some "HC", Some 1);
                  ("generic heavy", Some "CT", Some 1)], 2)) /\
  total_atom_type_matches self = Some 1 /\
  fst (sample_atomtypes no_replace atom_Match acyclic_aromatic acyclic_aromatic
                        exhaustive_matching self d) = inr (false, self).
Proof.
  intros self d. split_and!.
  - unfold self, d. by rewrite propose_first_refinement.
  - apply score_first_refinement.
  - done.
  - unfold self, d. rewrite sample_atomtypes_unfold, propose_first_refinement.
    cbn [fst]. unfold decide_proposal. rewrite bind_tell. cbn [fst].
    rewrite score_first_refinement. bind_step.
    change (total_atom_type_matches (sampler_at (-1))) with (Some 1).
    cbv iota. bind_step. rewrite effective_temperature_negative.
    change (uniform (refine_draws 0 (9 / 10))) with (9 / 10)%R.
    rewrite metropolis_negative_temperature. by bind_step.
Qed.

(** Witness of C4: in the refined sampler the refinement of [generic] by
    the first decorator is the pattern of the second rule. *)
Lemma refine_existing_pattern_rejected_witness :
  sample_atomtypes no_replace atom_Match acyclic_aromatic acyclic_aromatic
                   exhaustive_matching (refined_sampler 0) (refine_draws 0 0)
  = (inr (false, refined_sampler 0), []).
Proof.
  apply (refine_existing_pattern_rejected no_replace atom_Match acyclic_aromatic
           acyclic_aromatic exhaustive_matching (refined_sampler 0) (refine_draws 0 0)
           the_decorators 0 0 "[*]" "generic" "#6" "heavy" "*"
           (refine_move_drawn 0 0) eq_refl eq_refl eq_refl eq_refl eq_refl eq_refl).
  apply (bool_decide_unpack _). vm_compute. exact I.
Defined.

(** Counterexample to C4 as stated: in the refined sampler the rule
    [generic heavy] exists; the refinement of [generic] by the third
    decorator has that very label and another pattern; the step types the
    molecules with the proposal and calls the scorer. *)
Lemma existing_label_is_not_rejected :
  let self := refined_sampler (1 / 10) in
  let d := refine_draws 2 (1 / 2) in
  let proposal := [("[*]", "generic"); ("[*&#8]", "generic heavy");
                   ("[*&#6]", "generic heavy")] in
  "generic heavy" ∈ snd <$> atomtypes self /\
  refine_candidate self the_decorators d
    = inr (0, "generic", "[*&#8]", "generic heavy") /\
  snd (sample_atomtypes no_replace atom_Match acyclic_aromatic acyclic_aromatic
                        exhaustive_matching self d)
    = [Call_type_molecules proposal; Call_compute_type_statistics proposal;
       Call_best_match_reference_types proposal].
Proof.
  intros self d proposal. split_and!.
  - apply (bool_decide_unpack _). vm_compute. exact I.
  - vm_compute. reflexivity.
  - unfold self, d. rewrite sample_atomtypes_unfold.
    rewrite (propose_refine_move no_replace atom_Match acyclic_aromatic acyclic_aromatic
               (refined_sampler (1 / 10)) (refine_draws 2 (1 / 2)) the_decorators
               (refine_move_drawn 2 (1 / 2)) eq_refl).
    assert (propose_refine no_replace atom_Match acyclic_aromatic acyclic_aromatic
                           (refined_sampler (1 / 10)) the_decorators
                           (refine_draws 2 (1 / 2))
            = (inr (Some (proposal,
                          [mkMol "methanol"
                             [labelled "generic heavy" (mkAtom "C1" 6 false "CT" ∅);
                              labelled "generic" (mkAtom "H1" 1 false "HC" ∅);
                              labelled "generic heavy" (mkAtom "O1" 8 false "OH" ∅)]
                             [mkBond 0 1 1 false; mkBond 0 2 1 false]])),
               [Call_type_molecules proposal; Call_compute_type_statistics proposal]))
      as -> by (vm_compute; reflexivity).
    done.
Qed.

(** Witness of C5: the refinement of [generic] by the second decorator
    matches no atom of methanol. *)
Lemma refine_inserts_after_parent_witness :
  let self := sampler_at 0 in
  let d := refine_draws 1 0 in
  let proposed_atomtypes := [("[*]", "generic"); ("[*&#7]", "generic nitrogen")] in
  (proposed_atomtypes !! 0 = Some ("[*]", "generic") /\
   proposed_atomtypes !! (0 + 1) = Some ("[*&#7]", "generic nitrogen") /\
   (forall k, k <= 0 -> proposed_atomtypes !! k = atomtypes self !! k) /\
   (forall k, 0 < k -> proposed_atomtypes !! (S k) = atomtypes self !! k)) /\
  (exists rest,
      snd (sample_atomtypes no_replace atom_Match acyclic_aromatic acyclic_aromatic
                            exhaustive_matching self d)
      = Call_type_molecules proposed_atomtypes :: rest) /\
  (forall pm,
      type_molecules no_replace atom_Match acyclic_aromatic acyclic_aromatic
                     self proposed_atomtypes (molecules self) = (pm, None) ->
      count_label (typetag self) "generic nitrogen" pm = 0 \/
      count_label (typetag self) "generic" pm = 0 ->
      sample_atomtypes no_replace atom_Match acyclic_aromatic acyclic_aromatic
                       exhaustive_matching self d =
        (inr (false, self),
         [Call_type_molecules proposed_atomtypes;
          Call_compute_type_statistics proposed_atomtypes])).
Proof.
  apply (refine_inserts_after_parent no_replace atom_Match acyclic_aromatic
           acyclic_aromatic exhaustive_matching (sampler_at 0) (refine_draws 1 0)
           the_decorators 0 1 "[*]" "generic" "#7" "nitrogen" "*"
           (refine_move_drawn 1 0) eq_refl eq_refl eq_refl eq_refl eq_refl eq_refl).
  intros Hin. apply (bool_decide_pack _) in Hin. vm_compute in Hin. exact Hin.
Defined.

(** Counterexample to C6 as stated: the typing pass succeeds on the lone
    carbon, and the aromatic flag the atom carried is gone. *)
Lemma typing_rewrites_aromatic_flags :
  type_molecules no_replace atom_Match acyclic_aromatic acyclic_aromatic
                 (sampler_at 0) [("[*]", "generic")] [flagged_carbon]
    = ([mkMol "flagged" [labelled "generic" (mkAtom "C1" 6 false "CA" ∅)] []], None) /\
  IsAromatic <$> GetAtoms flagged_carbon = [true].
Proof. split; [vm_compute; reflexivity|reflexivity]. Qed.

(** Witness of C7: typed with the reference type names themselves, the
    three atoms of methanol agree with the reference one by one, and the
    total of the scorer is 0. *)
Lemma self_score_is_zero_witness :
  total_atoms (element_sampler 0) = 3 /\
  exists table,
    best_match_reference_types exhaustive_matching (element_sampler 0)
      [("[#6]", "CT"); ("[#1]", "HC"); ("[#8]", "OH")] [element_methanol]
      = inr (Some (table, 0)).
Proof.
  split; [reflexivity|].
  apply (self_score_is_zero exhaustive_matching (element_sampler 0)
           [("[#6]", "CT"); ("[#1]", "HC"); ("[#8]", "OH")]
           [element_methanol] [methanol]
           exhaustive_matching_no_self_mate exhaustive_matching_in_graph eq_refl).
  - intros m a ->%list_elem_of_singleton Ha.
    revert a Ha. apply Forall_forall. repeat constructor;
      apply (bool_decide_unpack _); vm_compute; exact I.
  - intros ref b ->%list_elem_of_singleton Hb.
    revert b Hb. apply Forall_forall. repeat constructor;
      apply (bool_decide_unpack _); vm_compute; exact I.
  - repeat constructor.
Defined.

(** The scorer on that input, evaluated: no type is matched. *)
Lemma self_score_evaluated :
  best_match_reference_types exhaustive_matching (element_sampler 0)
    [("[#6]", "CT"); ("[#1]", "HC"); ("[#8]", "OH")] [element_methanol]
  = inr (Some ([("CT", None, None); ("HC", None, None); ("OH", None, None)], 0)).
Proof. vm_compute. reflexivity. Qed.

(** Counterexample to C8 as stated: the file of element types has a line
    of one token and a line of three tokens; [read_typelist] returns the
    three rules of the other lines and raises nothing. *)
Lemma unparsable_lines_are_skipped :
  split (strip_comment "[#7]") = ["[#7]"] /\
  split (strip_comment "[#9] fluorine halogen") = ["[#9]"; "fluorine"; "halogen"] /\
  read_typelist the_files (Some "elements.smarts")
    = inr (Some [("[#6]", "CT"); ("[#1]", "HC"); ("[#8]", "OH")]).
Proof. split_and!; vm_compute; reflexivity. Qed.



(** Witness of C10: the sampler constructed on methanol without
    reference molecules. *)
Lemma no_reference_no_decision_witness :
  let self := sampler_without_reference 0 in
  reference_typed_molecules self = None /\
  (forall typelist molecules,
      best_match_reference_types exhaustive_matching self typelist molecules
      = inr None) /\
  (forall d pa pm log,
      propose no_replace atom_Match acyclic_aromatic acyclic_aromatic self d
        = (inr (Some (pa, pm)), log) ->
      sample_atomtypes no_replace atom_Match acyclic_aromatic acyclic_aromatic
                       exhaustive_matching self d =
        (inl TypeError, log ++ [Call_best_match_reference_types pa])) /\
  (forall d b self',
      fst (sample_atomtypes no_replace atom_Match acyclic_aromatic acyclic_aromatic
                            exhaustive_matching self d) = inr (b, self') ->
      b = false /\ self' = self /\
      fst (propose no_replace atom_Match acyclic_aromatic acyclic_aromatic self d)
        = inr None).
Proof.
  exact (no_reference_no_decision no_replace atom_Match acyclic_aromatic
           acyclic_aromatic exhaustive_matching the_files [methanol]
           (Some "basetypes.smarts") (Some "decorators.smarts") None 0 false
           (sampler_without_reference 0) (sampler_without_reference_init 0)).
Defined.

(** On the sampler without reference molecules the first refinement is a
    valid proposal, and the step ends in a [TypeError]. *)
Lemma step_without_reference_raises :
  sample_atomtypes no_replace atom_Match acyclic_aromatic acyclic_aromatic
                   exhaustive_matching (sampler_without_reference 0)
                   (refine_draws 0 0)
  = (inl TypeError,
     [Call_type_molecules refined_atomtypes;
      Call_compute_type_statistics refined_atomtypes;
      Call_best_match_reference_types refined_atomtypes]).
Proof.
  rewrite sample_atomtypes_unfold.
  rewrite (propose_refine_move no_replace atom_Match acyclic_aromatic acyclic_aromatic
             (sampler_without_reference 0) (refine_draws 0 0) the_decorators
             (refine_move_drawn 0 0) eq_refl).
  assert (propose_refine no_replace atom_Match acyclic_aromatic acyclic_aromatic
            (sampler_without_reference 0) the_decorators (refine_draws 0 0)
          = (inr (Some (refined_atomtypes, [refined_methanol])),
             [Call_type_molecules refined_atomtypes;
              Call_compute_type_statistics refined_atomtypes]))
    as -> by (vm_compute; reflexivity).
  by rewrite decide_proposal_no_reference.
Qed.


(** ** The further properties at work on the concrete inputs *)

Ltac solve_member :=
  apply list_elem_of_In; vm_compute; auto 10.

Ltac each_member H :=
  apply list_elem_of_In in H; vm_compute in H;
  repeat (destruct H as [H|H]; [try subst|]); try contradiction.

Lemma empty_sampler_init temp :
  AtomTypeSampler_init no_replace atom_Match acyclic_aromatic acyclic_aromatic
    exhaustive_matching the_files [] (Some "basetypes.smarts")
    (Some "decorators.smarts") None (Some [methanol]) temp false
  = inr (empty_sampler temp).
Proof. vm_compute. reflexivity. Qed.

Lemma destroy_move_drawn : (move destroy_draws < 1 / 2)%R.
Proof. unfold destroy_draws; simpl. lra. Qed.

Lemma first_refinement_accepted :
  fst (sample_atomtypes no_replace atom_Match acyclic_aromatic acyclic_aromatic
                        exhaustive_matching (sampler_at 0) (refine_draws 0 0))
  = inr (true, refined_sampler 0).
Proof.
  rewrite sample_atomtypes_unfold, propose_first_refinement. cbn [fst].
  unfold decide_proposal. rewrite bind_tell. cbn [fst].
  rewrite score_first_refinement. bind_step.
  change (total_atom_type_matches (sampler_at 0)) with (Some 1). cbv iota.
  bind_step. unfold metropolis, effective_temperature.
  cbn [temperature sampler_at].
  destruct (decide (0 = 0)%R) as [_|Hne]; [|done].
  destruct (decide (1 = 0)%R) as [Hone|_]; [lra|].
  change (Z.of_nat 2 - Z.of_nat 1)%Z with 1%Z.
  rewrite (bool_decide_eq_true_2 (0 < 1 / 1)%R) by lra.
  cbn [orb]. bind_step. reflexivity.
Qed.

Lemma sampler_at_typed temp : typed_state (sampler_at temp).
Proof.
  intros m a Hm Ha. apply list_elem_of_singleton in Hm as ->.
  apply list_elem_of_In in Ha. simpl in Ha.
  destruct Ha as [<-|[<-|[<-|[]]]]; (split; [discriminate|solve_member]).
Qed.

Lemma sampler_at_scored temp : scored exhaustive_matching (sampler_at temp).
Proof.
  exists [("generic", Some "HC", Some 1)], 1. split_and!; [done..|].
  vm_compute. reflexivity.
Qed.

Lemma refined_names_not_empty (rule : string * string) :
  rule ∈ refined_atomtypes -> rule.2 <> "".
Proof.
  intros Hin. apply list_elem_of_In in Hin. simpl in Hin.
  destruct Hin as [<-|[<-|[]]]; discriminate.
Qed.

Lemma refined_methanol_labels (m : Mol) (a : Atom) :
  m ∈ [refined_methanol] -> a ∈ GetAtoms m ->
  GetStringData "atomtype" a ∈ snd <$> refined_atomtypes.
Proof.
  intros ->%list_elem_of_singleton Ha. apply list_elem_of_In in Ha. simpl in Ha.
  destruct Ha as [<-|[<-|[<-|[]]]]; solve_member.
Qed.

Lemma methanol_reference_types temp (ref : Mol) (b : Atom) :
  ref ∈ [methanol] -> b ∈ GetAtoms ref ->
  GetType b ∈ reference_atomtypes (sampler_at temp).
Proof.
  intros ->%list_elem_of_singleton Hb. apply list_elem_of_In in Hb. simpl in Hb.
  destruct Hb as [<-|[<-|[<-|[]]]]; solve_member.
Qed.

(** Witness of X1: the decorators file. *)
Lemma read_typelist_tokens_witness :
  Forall (fun rule => is_token rule.1 = true /\ is_token rule.2 = true) the_decorators.
Proof.
  apply (read_typelist_tokens the_files "decorators.smarts" the_decorators).
  vm_compute. reflexivity.
Defined.

(** Witness of X2: the decorators, written one rule a line, are read back. *)
Lemma read_typelist_round_trip_witness :
  read_typelist {[ "rules.smarts" := rule_file the_decorators ]} (Some "rules.smarts")
  = inr (Some the_decorators).
Proof.
  apply read_typelist_round_trip.
  - repeat (constructor; [split; reflexivity|]). constructor.
  - reflexivity.
Defined.

(** Witness of X4: methanol typed by the refined list. *)
Lemma getTypeList_after_assignTypes_witness :
  let self := AtomTyper_init no_replace refined_atomtypes "atomtype" None in
  getTypeList self (fst (assignTypes atom_Match acyclic_aromatic acyclic_aromatic
                                     self methanol))
  = type_of atom_Match (smartsList self)
            (perceived acyclic_aromatic acyclic_aromatic self methanol)
      <$> seq 0 (length (GetAtoms methanol)).
Proof.
  exact (getTypeList_after_assignTypes atom_Match acyclic_aromatic acyclic_aromatic
           (AtomTyper_init no_replace refined_atomtypes "atomtype" None) methanol
           (atom_Match_ignores "atomtype")).
Defined.

Lemma refined_rows_not_empty (row : string * string * string) :
  row ∈ smartsList (AtomTyper_init no_replace refined_atomtypes "atomtype" None) ->
  row.1.2 <> "".
Proof.
  intros Hin. apply list_elem_of_In in Hin. simpl in Hin.
  destruct Hin as [<-|[<-|[]]]; discriminate.
Qed.

(** Witness of X5: the refined list on methanol. *)
Lemma assignTypes_succeeds_iff_covered_witness :
  let self := AtomTyper_init no_replace refined_atomtypes "atomtype" None in
  snd (assignTypes atom_Match acyclic_aromatic acyclic_aromatic self methanol) = None <->
  forall j, j < length (GetAtoms methanol) ->
    covered atom_Match (smartsList self)
            (perceived acyclic_aromatic acyclic_aromatic self methanol) j = true.
Proof.
  exact (assignTypes_succeeds_iff_covered atom_Match acyclic_aromatic acyclic_aromatic
           (AtomTyper_init no_replace refined_atomtypes "atomtype" None) methanol
           (atom_Match_ignores "atomtype") refined_rows_not_empty).
Defined.

Lemma wildcard_covers_methanol self j :
  j < length (GetAtoms methanol) ->
  pattyTag self = "atomtype" ->
  covers atom_Match "[*]" (perceived acyclic_aromatic acyclic_aromatic self methanol) j
  = true.
Proof.
  intros Hj Htag. unfold perceived. rewrite Htag.
  destruct j as [|[|[|j]]]; [vm_compute; reflexivity..|simpl in Hj; lia].
Qed.

(** Witness of X6: a carbon rule followed by the wildcard. *)
Lemma catch_all_last_rule_wins_witness :
  let self := AtomTyper_init no_replace [("[#6]", "CT"); ("[*]", "generic")]
                             "atomtype" None in
  snd (assignTypes atom_Match acyclic_aromatic acyclic_aromatic self methanol) = None /\
  getTypeList self (fst (assignTypes atom_Match acyclic_aromatic acyclic_aromatic
                                     self methanol))
  = replicate (length (GetAtoms methanol)) "generic".
Proof.
  apply (catch_all_last_rule_wins atom_Match acyclic_aromatic acyclic_aromatic
           (AtomTyper_init no_replace [("[#6]", "CT"); ("[*]", "generic")]
                           "atomtype" None)
           methanol [("[#6]", "CT", "[#6]")] "[*]" "generic" "[*]"
           (atom_Match_ignores "atomtype") eq_refl).
  - discriminate.
  - intros j Hj. by apply wildcard_covers_methanol.
Defined.

(** Witness of X7: from the base types to the refined list. *)
Lemma type_molecules_more_rules_witness :
  snd (type_molecules no_replace atom_Match acyclic_aromatic acyclic_aromatic
                      (sampler_at 0) refined_atomtypes [methanol]) = None.
Proof.
  apply (type_molecules_more_rules no_replace atom_Match acyclic_aromatic
           acyclic_aromatic (sampler_at 0) [("[*]", "generic")] refined_atomtypes
           [methanol] (atom_Match_ignores "atomtype") refined_names_not_empty).
  - intros rule ->%list_elem_of_singleton. exists ("[*]", "generic").
    split; [solve_member|reflexivity].
  - vm_compute. reflexivity.
Defined.

(** Witness of X8: the accepted first refinement. *)
Lemma step_changes_one_rule_witness :
  let self := sampler_at 0 in
  let d := refine_draws 0 0 in
  let self' := refined_sampler 0 in
  same_setup self self' /\
  (true = false -> self' = self) /\
  (true = true -> (move d < 1 / 2)%R ->
     (exists rule, rule ∈ atomtypes self /\
                   list_remove rule (atomtypes self) = inr (atomtypes self')) /\
     S (length (atomtypes self')) = length (atomtypes self)) /\
  (true = true -> ~ (move d < 1 / 2)%R ->
     (exists i rule, (rule.1 ∉ fst <$> atomtypes self) /\
                     atomtypes self' = list_insert_at i rule (atomtypes self)) /\
     length (atomtypes self') = S (length (atomtypes self))).
Proof.
  exact (step_changes_one_rule no_replace atom_Match acyclic_aromatic acyclic_aromatic
           exhaustive_matching (sampler_at 0) (refine_draws 0 0) true
           (refined_sampler 0) first_refinement_accepted).
Defined.

(** Witness of X9. *)
Lemma step_keeps_molecules_typed_witness : typed_state (refined_sampler 0).
Proof.
  exact (step_keeps_molecules_typed no_replace atom_Match acyclic_aromatic
           acyclic_aromatic exhaustive_matching (sampler_at 0) (refine_draws 0 0) true
           (refined_sampler 0) (sampler_at_typed 0) first_refinement_accepted).
Defined.

(** Witness of X10. *)
Lemma step_keeps_score_witness : scored exhaustive_matching (refined_sampler 0).
Proof.
  exact (step_keeps_score no_replace atom_Match acyclic_aromatic acyclic_aromatic
           exhaustive_matching (sampler_at 0) (refine_draws 0 0) true
           (refined_sampler 0) (sampler_at_scored 0) first_refinement_accepted).
Defined.

(** Witness of X11: the carbon bears the new name, the other atoms the
    parent's. *)
Lemma accepted_refinement_is_used_witness :
  let self := sampler_at 0 in
  let self' := refined_sampler 0 in
  exists i parent decorator inner,
    atomtypes self !! i = Some parent /\
    (exists ds, decorators self = Some ds /\ decorator ∈ ds) /\
    re_match_bracket parent.1 = Some inner /\
    let child := ("[" +:+ inner +:+ "&" +:+ decorator.1 +:+ "]",
                  parent.2 +:+ " " +:+ decorator.2) in
    atomtypes self' = list_insert_at (i + 1) child (atomtypes self) /\
    count_label (typetag self) child.2 (molecules self') <> 0 /\
    count_label (typetag self) parent.2 (molecules self') <> 0.
Proof.
  exact (accepted_refinement_is_used no_replace atom_Match acyclic_aromatic
           acyclic_aromatic exhaustive_matching (sampler_at 0) (refine_draws 0 0)
           (refined_sampler 0) (refine_move_drawn 0 0) first_refinement_accepted).
Defined.

Lemma base_names_not_empty temp (rule : string * string) :
  rule ∈ atomtypes (sampler_at temp) -> rule.2 <> "".
Proof. intros ->%list_elem_of_singleton. discriminate. Qed.

(** Witness of X12. *)
Lemma refinement_typing_succeeds_witness :
  snd (type_molecules no_replace atom_Match acyclic_aromatic acyclic_aromatic
         (sampler_at 0)
         (list_insert_at (0 + 1) ("[*&#6]", "generic heavy") (atomtypes (sampler_at 0)))
         (molecules (sampler_at 0))) = None.
Proof.
  apply (refinement_typing_succeeds no_replace atom_Match acyclic_aromatic
           acyclic_aromatic (sampler_at 0) the_decorators (refine_draws 0 0)
           0 "generic" "[*&#6]" "generic heavy"
           (atom_Match_ignores "atomtype") (base_names_not_empty 0)).
  - vm_compute. reflexivity.
  - vm_compute. reflexivity.
Defined.

(** Witness of X13: the only rule cannot be destroyed. *)
Lemma destroy_uncovering_rejected_witness :
  sample_atomtypes no_replace atom_Match acyclic_aromatic acyclic_aromatic
                   exhaustive_matching (sampler_at 0) destroy_draws
  = (inr (false, sampler_at 0), [Call_type_molecules []]).
Proof.
  apply (destroy_uncovering_rejected no_replace atom_Match acyclic_aromatic
           acyclic_aromatic exhaustive_matching (sampler_at 0) destroy_draws
           the_decorators 0 ("[*]", "generic") [] generic_methanol 0
           (atom_Match_ignores "atomtype") destroy_move_drawn eq_refl eq_refl eq_refl).
  - vm_compute. reflexivity.
  - solve_member.
  - simpl. lia.
  - reflexivity.
Defined.

(** Witness of X14. *)
Lemma init_establishes_state_witness :
  let self := sampler_at 0 in
  read_typelist the_files (Some "basetypes.smarts") = inr (Some (atomtypes self)) /\
  read_typelist the_files (Some "decorators.smarts") = inr (decorators self) /\
  read_typelist the_files None = inr (replacements self) /\
  typetag self = "atomtype" /\
  temperature self = 0%R /\
  reference_typed_molecules self = Some [methanol] /\
  skeleton "atomtype" <$> molecules self = skeleton "atomtype" <$> [methanol] /\
  total_atoms self = atom_count [methanol] /\
  typed_state self /\
  (is_Some (Some [methanol]) -> scored exhaustive_matching self).
Proof.
  exact (init_establishes_state no_replace atom_Match acyclic_aromatic acyclic_aromatic
           exhaustive_matching the_files [methanol] (Some "basetypes.smarts")
           (Some "decorators.smarts") None (Some [methanol]) 0 (sampler_at 0)
           (sampler_at_init 0)).
Defined.

(** Witness of X15. *)
Lemma scorer_returns_table_witness :
  exists matches total,
    best_match_reference_types exhaustive_matching (sampler_at 0)
                               refined_atomtypes [refined_methanol]
      = inr (Some (matches, total)) /\
    table_names matches = snd <$> refined_atomtypes /\
    total = table_total matches /\
    Forall (fun row => is_Some row.1.2 <-> is_Some row.2) matches.
Proof.
  exact (scorer_returns_table exhaustive_matching (sampler_at 0) refined_atomtypes
           [refined_methanol] [methanol] exhaustive_matching_in_graph eq_refl eq_refl
           refined_methanol_labels (methanol_reference_types 0)).
Defined.

(** Witness of X16 and X20: molecules typed by the base types, scored and
    counted against a list that has no rule of that name. *)
Lemma scorer_KeyError_witness :
  best_match_reference_types exhaustive_matching (sampler_at 0)
                             [("[#6]", "CT")] [generic_methanol] = inl KeyError.
Proof.
  apply (scorer_KeyError exhaustive_matching (sampler_at 0) [("[#6]", "CT")]
           [generic_methanol] [methanol]
           (labelled "generic" (mkAtom "C1" 6 false "CT" ∅))
           (mkAtom "C1" 6 false "CT" ∅) eq_refl).
  - solve_member.
  - left. intros Hin. each_member Hin. discriminate.
Defined.

Lemma compute_type_statistics_KeyError_witness :
  compute_type_statistics (sampler_at 0) [("[#6]", "CT")] [generic_methanol]
  = inl KeyError.
Proof.
  apply (compute_type_statistics_KeyError no_replace atom_Match acyclic_aromatic
           acyclic_aromatic (sampler_at 0) [("[#6]", "CT")] [generic_methanol]
           generic_methanol (labelled "generic" (mkAtom "C1" 6 false "CT" ∅))).
  - solve_member.
  - solve_member.
  - intros Hin. each_member Hin. discriminate.
Defined.

(** Witness of X17. *)
Lemma init_returns_iff_covered_witness :
  let atomtyper := AtomTyper_init no_replace [("[*]", "generic")] "atomtype" None in
  ((forall mol j, mol ∈ [methanol] -> j < length (GetAtoms mol) ->
      covered atom_Match (smartsList atomtyper)
              (perceived acyclic_aromatic acyclic_aromatic atomtyper mol) j = true) ->
   exists self,
     AtomTypeSampler_init no_replace atom_Match acyclic_aromatic acyclic_aromatic
       exhaustive_matching the_files [methanol] (Some "basetypes.smarts")
       (Some "decorators.smarts") None (Some [methanol]) 0 false = inr self) /\
  (forall mol j, mol ∈ [methanol] -> j < length (GetAtoms mol) ->
     covered atom_Match (smartsList atomtyper)
             (perceived acyclic_aromatic acyclic_aromatic atomtyper mol) j = false ->
   exists m atom,
     AtomTypeSampler_init no_replace atom_Match acyclic_aromatic acyclic_aromatic
       exhaustive_matching the_files [methanol] (Some "basetypes.smarts")
       (Some "decorators.smarts") None (Some [methanol]) 0 false
     = inl (TypingException m atom)).
Proof.
  apply (init_returns_iff_covered no_replace atom_Match acyclic_aromatic
           acyclic_aromatic exhaustive_matching the_files [methanol]
           (Some "basetypes.smarts") (Some "decorators.smarts") None (Some [methanol]) 0
           [("[*]", "generic")] (Some the_decorators) None
           (atom_Match_ignores "atomtype") exhaustive_matching_in_graph).
  - vm_compute. reflexivity.
  - vm_compute. reflexivity.
  - reflexivity.
Defined.

(** Witness of X18: a destroy move on the sampler built on no molecule,
    at temperature 1. *)
Lemma empty_corpus_ZeroDivisionError_witness :
  fst (sample_atomtypes no_replace atom_Match acyclic_aromatic acyclic_aromatic
                        exhaustive_matching (empty_sampler 1) destroy_draws)
  = inl ZeroDivisionError.
Proof.
  apply (empty_corpus_ZeroDivisionError no_replace atom_Match acyclic_aromatic
           acyclic_aromatic exhaustive_matching the_files (Some "basetypes.smarts")
           (Some "decorators.smarts") None [methanol] 1 (empty_sampler 1) destroy_draws
           exhaustive_matching_in_graph (empty_sampler_init 1)).
  - lra.
  - by eexists.
  - discriminate.
  - exact destroy_move_drawn.
Defined.

(** Witness of X19. *)
Lemma compute_type_statistics_counts_witness :
  exists counts mcounts,
    compute_type_statistics (sampler_at 0) refined_atomtypes [refined_methanol]
      = inr (counts, mcounts) /\
    (forall ty, ty ∈ snd <$> refined_atomtypes ->
       counts !! ty = Some (count_label "atomtype" ty [refined_methanol]) /\
       mcounts !! ty = Some (count_molecules_with "atomtype" ty [refined_methanol])) /\
    (forall ty, ty ∉ snd <$> refined_atomtypes ->
       counts !! ty = None /\ mcounts !! ty = None).
Proof.
  exact (compute_type_statistics_counts no_replace atom_Match acyclic_aromatic
           acyclic_aromatic (sampler_at 0) refined_atomtypes [refined_methanol]
           refined_methanol_labels).
Defined.

(** Witness of X22: the first refinement can be refined. *)
Lemma refinement_can_be_refined_witness :
  exists inner decorator,
    "[*&#6]" = "[" +:+ (inner +:+ "&" +:+ decorator) +:+ "]" /\
    re_match_bracket "[*&#6]" = Some (inner +:+ "&" +:+ decorator).
Proof.
  apply (refinement_can_be_refined (sampler_at 0) the_decorators (refine_draws 0 0)
           0 "generic" "[*&#6]" "generic heavy").
  - repeat (constructor; [reflexivity|]). constructor.
  - vm_compute. reflexivity.
Defined.

(** Witness of X24: the pattern [C] has no brackets. *)
Lemma refine_unbracketed_parent_raises_witness :
  sample_atomtypes no_replace atom_Match acyclic_aromatic acyclic_aromatic
                   exhaustive_matching unbracketed_sampler (refine_draws 0 0)
  = (inl AttributeError, []).
Proof.
  apply (refine_unbracketed_parent_raises no_replace atom_Match acyclic_aromatic
           acyclic_aromatic exhaustive_matching unbracketed_sampler (refine_draws 0 0)
           the_decorators 0 "C" "carbon" (refine_move_drawn 0 0) eq_refl).
  - discriminate.
  - reflexivity.
  - reflexivity.
  - reflexivity.
Defined.

Lemma sampler_at_has_atoms temp : total_atoms (sampler_at temp) <> 0.
Proof. discriminate. Qed.

(** Witness of X25. *)
Lemma show_state_succeeds_witness :
  let self := sampler_at 0 in
  exists rows natoms,
    show_state self = inr (rows, (natoms, length (molecules self))) /\
    length rows = length (atomtypes self) /\
    (forall k smarts typename, atomtypes self !! k = Some (smarts, typename) ->
       exists shown,
         rows !! k = Some (S k, count_label (typetag self) typename (molecules self),
                           count_molecules_with (typetag self) typename (molecules self),
                           typename, smarts, shown)) /\
    natoms = sum_list ((fun rule => count_label (typetag self) rule.2 (molecules self))
                         <$> atomtypes self) /\
    (NoDup (snd <$> atomtypes self) -> natoms = atom_count (molecules self)).
Proof.
  exact (show_state_succeeds no_replace atom_Match acyclic_aromatic acyclic_aromatic
           exhaustive_matching (sampler_at 0) (sampler_at_typed 0) (sampler_at_scored 0)
           (sampler_at_has_atoms 0)).
Defined.

(** Witness of X26: a run of one refine move. *)
Lemma run_keeps_state_witness :
  let self := sampler_at 0 in
  let self' := fst (run no_replace atom_Match acyclic_aromatic acyclic_aromatic
                        exhaustive_matching self [refine_draws 0 0]) in
  same_setup self self' /\ typed_state self' /\ scored exhaustive_matching self'.
Proof.
  apply (run_keeps_state no_replace atom_Match acyclic_aromatic acyclic_aromatic
           exhaustive_matching (sampler_at 0) [refine_draws 0 0]
           (sampler_at_typed 0) (sampler_at_scored 0)).
  discriminate.
Defined.

(** Witness of X27. *)
Lemma run_is_its_steps_witness :
  run no_replace atom_Match acyclic_aromatic acyclic_aromatic exhaustive_matching
      (sampler_at 0) [refine_draws 0 0; destroy_draws]
  = run_steps no_replace atom_Match acyclic_aromatic acyclic_aromatic
              exhaustive_matching (sampler_at 0) [refine_draws 0 0; destroy_draws].
Proof.
  exact (run_is_its_steps no_replace atom_Match acyclic_aromatic acyclic_aromatic
           exhaustive_matching (sampler_at 0) [refine_draws 0 0; destroy_draws]
           (sampler_at_typed 0) (sampler_at_scored 0) (sampler_at_has_atoms 0)).
Defined.

(** Witness of X28. *)
Lemma run_without_reference_witness :
  let self := sampler_without_reference 0 in
  let draws := [refine_draws 0 0; destroy_draws] in
  fst (run no_replace atom_Match acyclic_aromatic acyclic_aromatic
           exhaustive_matching self draws) = self /\
  (verbose self = true -> atom_type_matches self = None -> draws <> [] ->
   exists e, run no_replace atom_Match acyclic_aromatic acyclic_aromatic
                 exhaustive_matching self draws = (self, Some e)).
Proof.
  exact (run_without_reference no_replace atom_Match acyclic_aromatic acyclic_aromatic
           exhaustive_matching (sampler_without_reference 0)
           [refine_draws 0 0; destroy_draws] eq_refl).
Defined.

(** Witness of X29. *)
Lemma step_keeps_patterns_distinct_witness :
  NoDup (fst <$> atomtypes (refined_sampler 0)).
Proof.
  apply (step_keeps_patterns_distinct no_replace atom_Match acyclic_aromatic
           acyclic_aromatic exhaustive_matching (sampler_at 0) (refine_draws 0 0) true
           (refined_sampler 0)).
  - apply NoDup_singleton.
  - exact first_refinement_accepted.
Defined.
